(** * Breast-MRI preprocessing pipeline: series matching and registration orchestration

    A shallow embedding of the control logic of [breast_mri_prep_func.py]
    (series matcher, registration orchestrator, masking, bias correction and
    normalisation stages, DWI splitter) together with the properties of the
    written specification that concern it.

    Conventions of the embedding:
    - a Python [dict] used as a record with optional entries (one role
      configuration) is a [gmap string pyval]; a missing key is [None] on
      lookup and a [KeyError] where the source subscripts it;
    - the case bundle [ser_dict] is iterated in insertion order by the source,
      so it is an association list with unique keys;
    - the file system is the set of paths of existing regular files;
    - external collaborators (regular-expression search, the registration
      engine, transform application, mask application, N4, ...) are the
      classes [Tools], [Regex] and [PyFloat]; a tool either raises or
      returns, and changes the file system as it wishes; filling in the
      inputs of a tool is taken to do nothing, so that a tool acts when it is
      run, and the lines of the debug log (the command lines) are left out;
    - effects (file system, log, exceptions) live in the monad [M]. *)

From Stdlib Require Import ZArith QArith Reals String Ascii List Lia Lra.
From stdpp Require Import gmap strings list sorting pretty.

Open Scope string_scope.
Open Scope Z_scope.
Open Scope list_scope.

(** ** Python values *)

(** The fields of a DICOM header that the matcher reads.  [None] is an
    attribute that is absent ([hasattr] is false).  [ImagesInAcquisition],
    when present, holds an integer (value representation IS), so that
    [int(...)] returns it. *)
Record header := mk_header {
  SeriesDescription : option string;
  ImagesInAcquisition : option Z;
  AcquisitionTime : option string
}.

#[warnings="-register-all"]
Inductive pyval :=
| PNone
| PBool (b : bool)
| PInt (z : Z)
| PStr (s : string)
| PList (l : list pyval)
| PDict (kv : list (string * pyval))
| PHdr (h : header).

(** Python truth value of an object: [not v] is [negb (truthy v)]. *)
Definition truthy (v : pyval) : bool :=
  match v with
  | PNone => false
  | PBool b => b
  | PInt z => negb (z =? 0)
  | PStr s => negb (String.eqb s "")
  | PList l => match l with [] => false | _ => true end
  | PDict kv => match kv with [] => false | _ => true end
  | PHdr _ => true
  end.

(** [v == s] for a string literal [s]. *)
Definition eq_str (v : pyval) (s : string) : bool :=
  match v with
  | PStr s' => String.eqb s' s
  | _ => false
  end.

(** [v in keys] for a list of strings [keys]. *)
Definition in_strs (v : pyval) (keys : list string) : bool :=
  match v with
  | PStr s => existsb (String.eqb s) keys
  | _ => false
  end.

(** One role configuration, and the case bundle in insertion order. *)
Abbreviation dict := (gmap string pyval).
Abbreviation ser_dict := (list (string * gmap string pyval)).

Definition keys (sd : ser_dict) : list string := map fst sd.

Fixpoint sd_get (sd : ser_dict) (k : string) : option dict :=
  match sd with
  | [] => None
  | (k', d) :: rest => if String.eqb k' k then Some d else sd_get rest k
  end.

(** [sd[k] = d]: an existing key keeps its position, a new key goes last. *)
Fixpoint sd_set (sd : ser_dict) (k : string) (d : dict) : ser_dict :=
  match sd with
  | [] => [(k, d)]
  | (k', d') :: rest =>
      if String.eqb k' k then (k', d) :: rest else (k', d') :: sd_set rest k d
  end.

(** [sd[k].update({f: v})] on a key that is present. *)
Definition sd_update (sd : ser_dict) (k f : string) (v : pyval) : ser_dict :=
  match sd_get sd k with
  | Some d => sd_set sd k (<[f := v]> d)
  | None => sd
  end.

(** ** Strings and paths *)

Fixpoint rfind_from (sep s : string) (pos : nat) (acc : option nat) : option nat :=
  let acc' := if String.prefix sep s then Some pos else acc in
  match s with
  | EmptyString => acc'
  | String _ s' => rfind_from sep s' (S pos) acc'
  end.

(** [s.split(sep)[0]] *)
Definition split_first (sep s : string) : string :=
  match String.index 0 sep s with
  | Some p => String.substring 0 p s
  | None => s
  end.

(** [s.rsplit(sep, 1)[0]] *)
Definition rsplit_first (sep s : string) : string :=
  match rfind_from sep s 0 None with
  | Some p => String.substring 0 p s
  | None => s
  end.

Definition endswith (s suf : string) : bool :=
  let n := String.length s in
  let m := String.length suf in
  (m <=? n)%nat && String.eqb (String.substring (n - m) m s) suf.

Fixpoint rstrip_slash_rev (l : list ascii) : list ascii :=
  match l with
  | "/"%char :: l' => rstrip_slash_rev l'
  | _ => l
  end.

Definition all_slashes (s : string) : bool :=
  forallb (Ascii.eqb "/"%char) (list_ascii_of_string s).

(** [os.path.split], [os.path.dirname], [os.path.basename] (posixpath). *)
Definition path_split (p : string) : string * string :=
  match rfind_from "/" p 0 None with
  | None => ("", p)
  | Some i =>
      let head := String.substring 0 (S i) p in
      let tail := String.substring (S i) (String.length p - S i) p in
      let head' :=
        if all_slashes head then head
        else string_of_list_ascii
               (rev (rstrip_slash_rev (rev (list_ascii_of_string head)))) in
      (head', tail)
  end.

Definition dirname (p : string) : string := fst (path_split p).
Definition basename (p : string) : string := snd (path_split p).

(** [os.path.join(a, b)] *)
Definition path_join (a b : string) : string :=
  if String.prefix "/" b then b
  else if String.eqb a "" || endswith a "/" then a +:+ b
  else a +:+ "/" +:+ b.

(** ** Ordering of role names: Python's [sorted] on [str] *)

(** Python compares [str] by code point, which on UTF-8 encoded strings is the
    lexicographic order of the bytes. *)
Definition str_le (a b : string) : Prop := String.leb a b = true.

#[global] Instance str_le_dec : RelDecision str_le.
Proof. intros a b. unfold str_le. apply _. Defined.

Definition py_sorted (l : list string) : list string := merge_sort str_le l.

(** ** Effects: file system, log and exceptions *)

(** Inputs of the registration engine that the six registration routines set
    (the floating-point settings, which no property below reads, are left
    out). *)
Record antsreg_inputs := mk_antsreg {
  fixed_image : string;
  moving_image : string;
  output_transform_prefix : string;
  transforms : list string;
  smoothing_sigmas : list (list Z);
  shrink_factors : list (list Z);
  number_of_iterations : list (list Z);
  initial_moving_transform_com : pyval
}.

(** Calls of external tools ([.run()] of a nipype interface, and the CNN
    inference of [batch_mask]). *)
Inductive command :=
| Registration (i : antsreg_inputs)
| ApplyTransforms (input_image : string) (reference_image : pyval)
    (output_image : string) (interpolation : pyval)
    (transform_list : list pyval) (invert_transform_flags : list bool)
| ApplyMask (in_file : string) (mask_file out_file : string)
| N4BiasFieldCorrection (input_image mask_image output_image bias_image : string)
| Merge (in_files : list pyval) (merged_file : string)
| BatchMask (infer_direc param_files out_dir suffix : string) (overwrite : bool)
| Dcm2niix (source_names : pyval) (out_filename output_dir : string).

Inductive exn :=
| KeyError (k : string)
| TypeError
| IndexError
| ValueError
| FileNotFoundError (p : string)
| ToolError (c : command).

Inductive event :=
| Info (msg : string)
| Warning (msg : string)
| Run (c : command)
| Wrote (path : string)
| Renamed (src dst : string)
| Removed (path : string).

Inductive res (A : Type) :=
| Ok (a : A)
| Raise (e : exn).
Arguments Ok {A} a.
Arguments Raise {A} e.

(** A computation reads and changes the set of existing files, emits events
    and returns or raises. *)
Definition M (A : Type) : Type := gset string -> res A * gset string * list event.

Definition ret {A} (a : A) : M A := fun fs => (Ok a, fs, []).

Definition bind {A B} (m : M A) (k : A -> M B) : M B := fun fs =>
  match m fs with
  | (Ok a, fs1, ev1) =>
      match k a fs1 with
      | (r, fs2, ev2) => (r, fs2, ev1 ++ ev2)
      end
  | (Raise e, fs1, ev1) => (Raise e, fs1, ev1)
  end.

Notation "'let*' x ':=' m 'in' k" := (bind m (fun x => k))
  (at level 10, x name, m at level 100, k at level 200).
Notation "m ';;' k" := (bind m (fun _ => k))
  (at level 100, k at level 200, right associativity).

Definition raise {A} (e : exn) : M A := fun fs => (Raise e, fs, []).

(** [try: body except Exception: handler] *)
Definition try_except {A} (body : M A) (handler : M A) : M A := fun fs =>
  match body fs with
  | (Ok a, fs1, ev1) => (Ok a, fs1, ev1)
  | (Raise _, fs1, ev1) =>
      match handler fs1 with
      | (r, fs2, ev2) => (r, fs2, ev1 ++ ev2)
      end
  end.

Definition emit (e : event) : M unit := fun fs => (Ok tt, fs, [e]).
Definition info (msg : string) : M unit := emit (Info msg).
Definition warning (msg : string) : M unit := emit (Warning msg).

(** [os.path.isfile] *)
Definition isfile (p : string) : M bool := fun fs => (Ok (bool_decide (p ∈ fs)), fs, []).

(** A file written by the program itself ([open(..., 'w')], [nib.save],
    [np.save]). *)
Definition write_file (p : string) : M unit := fun fs => (Ok tt, {[p]} ∪ fs, [Wrote p]).

(** [os.rename] and [os.remove] *)
Definition rename (src dst : string) : M unit := fun fs =>
  if bool_decide (src ∈ fs) then (Ok tt, {[dst]} ∪ (fs ∖ {[src]}), [Renamed src dst])
  else (Raise (FileNotFoundError src), fs, []).

Definition remove (p : string) : M unit := fun fs =>
  if bool_decide (p ∈ fs) then (Ok tt, fs ∖ {[p]}, [Removed p])
  else (Raise (FileNotFoundError p), fs, []).

(** [glob(stem + '*.nii.gz')] for a [stem] without pattern characters: the
    existing files that continue [stem] inside its directory and end in
    [.nii.gz]. *)
Definition glob_nii (stem : string) : M (list string) := fun fs =>
  (Ok (filter (fun p =>
                 Is_true (String.prefix stem p && endswith p ".nii.gz"
                          && (String.length stem + 7 <=? String.length p)%nat
                          && negb (match String.index (String.length stem) "/" p with
                                   | Some _ => true | None => false end)))
         (elements fs)), fs, []).

(** [nib.load] of a path that must exist. *)
Definition nib_load (p : string) : M unit :=
  let* b := isfile p in
  if b then ret tt else raise (FileNotFoundError p).

(** Left-to-right loop threading an accumulator: [for x in l: acc = f acc x]. *)
Fixpoint for_each {A S} (l : list A) (f : S -> A -> M S) (s : S) : M S :=
  match l with
  | [] => ret s
  | x :: l' => let* s' := f s x in for_each l' f s'
  end.

(** External collaborators. *)

(** The registration engine, transform application and the other tools: a run
    either fails (the nipype interface raises) or succeeds, and leaves the
    file system in some state; [command_output] is what the run reports (the
    converted files of the converter, the output names of the mask
    inference). *)
Class Tools := {
  run_command : command -> gset string -> bool * gset string;
  command_output : command -> gset string -> pyval
}.

(** [re.search(pattern, string)] finds a match. *)
Class Regex := { re_search : string -> string -> bool }.

(** Python's [float]: parsing of a string, which fails on a string that is not
    a number, and the comparison [>]. *)
(** The role post-processors of the conversion stage ([split_asl],
    [split_dwi], [combine_dti55] looked up by name, or [split_multiphase]),
    run on a newly converted role. *)
Class PostProcessors := {
  post_process : list (string * gmap string pyval) -> string ->
                 M (list (string * gmap string pyval))
}.

Class PyFloat := {
  pyfloat : Type;
  float_of_str : string -> option pyfloat;
  float_gt : pyfloat -> pyfloat -> bool
}.

(** Subscripting: [sd[k]] and [d[f]] raise [KeyError] on a missing key. *)
Definition getitem (sd : ser_dict) (k : string) : M dict :=
  match sd_get sd k with
  | Some d => ret d
  | None => raise (KeyError k)
  end.

Definition getfield (d : dict) (f : string) : M pyval :=
  match d !! f with
  | Some v => ret v
  | None => raise (KeyError f)
  end.

(** A value used as a path must be a [str]. *)
Definition as_str (v : pyval) : M string :=
  match v with
  | PStr s => ret s
  | _ => raise TypeError
  end.

Definition isfile_v (v : pyval) : M bool :=
  let* p := as_str v in isfile p.

Definition has_key (d : dict) (f : string) : bool := bool_decide (is_Some (d !! f)).

Section Model.
Context {tools : Tools} {regex : Regex} {floats : PyFloat} {post : PostProcessors}.

Definition run (c : command) : M unit := fun fs =>
  match run_command c fs with
  | (true, fs') => (Ok tt, fs', [Run c])
  | (false, fs') => (Raise (ToolError c), fs', [Run c])
  end.

(** A run whose reported output is read afterwards. *)
Definition run_output (c : command) : M pyval := fun fs =>
  match run_command c fs with
  | (true, fs') => (Ok (command_output c fs), fs', [Run c])
  | (false, fs') => (Raise (ToolError c), fs', [Run c])
  end.

(** *** Case bundle construction *)

(** [make_serdict] once the parameter file is parsed into [sdict]: the target
    ["atlas"] is replaced by the path of the atlas, and the ["info"] entry is
    added. *)
Definition substitute_atlas (reg_atlas : string) (d : dict) : dict :=
  match d !! "reg_target" with
  | Some v => if eq_str v "atlas" then <["reg_target" := PStr reg_atlas]> d else d
  | None => d
  end.

Definition make_serdict (reg_atlas dcm_dir : string) (sdict : ser_dict) : ser_dict :=
  let sdict := map (fun '(key, d) => (key, substitute_atlas reg_atlas d)) sdict in
  sd_set sdict "info"
    (<["filename" := PStr "None"]>
       (<["dcmdir" := PStr dcm_dir]>
          (<["id" := PStr (basename (dirname dcm_dir))]> ∅))).

(** *** Series catalogue: the manifest *)

(** The end of [get_series]: the manifest is written unless it exists and
    [repeat] is false (its lines are built from [series] and the headers). *)
Definition get_series_manifest (dicom_dir : string) (repeat : bool) : M unit :=
  let idno := basename (dirname dicom_dir) in
  let series_file := path_join (dirname dicom_dir) (idno +:+ "_series_list.txt") in
  let* present := isfile series_file in
  if negb present || repeat then write_file series_file else ret tt.

(** *** Series matcher *)

(** [s.lower()], on the ASCII letters. *)
Definition lower_ascii (c : ascii) : ascii :=
  let n := nat_of_ascii c in
  if ((65 <=? n) && (n <=? 90))%nat then ascii_of_nat (n + 32) else c.

Definition lower (s : string) : string :=
  string_of_list_ascii (map lower_ascii (list_ascii_of_string s)).

(** [sub in s] *)
Definition contains (sub s : string) : bool :=
  match String.index 0 sub s with Some _ => true | None => false end.

(** [l[i]] on a Python list raises [IndexError] out of range. *)
Definition index_list {A} (l : list A) (i : nat) : M A :=
  match l !! i with
  | Some x => ret x
  | None => raise IndexError
  end.

Fixpoint enumerate_from {A} (n : nat) (l : list A) : list (nat * A) :=
  match l with
  | [] => []
  | x :: l' => (n, x) :: enumerate_from (S n) l'
  end.

(** [substr_list]: the indices of the descriptions that match all patterns of
    one of the AND-groups and none of the NOT patterns (the log lines of the
    matches are left out). *)
Definition substr_list (strings : list string) (substrs : list (list string))
    (substrnot : list string) : list nat :=
  fold_left
    (fun inds '(ind, str) =>
       fold_left
         (fun inds substrlist =>
            if forallb (fun item => re_search item str) substrlist then
              if negb (existsb (fun item2 => re_search item2 str) substrnot) then
                if negb (bool_decide (ind ∈ inds)) then inds ++ [ind] else inds
              else inds
            else inds)
         substrs inds)
    (enumerate_from 0 strings) [].

(** The body of the loop [for n, i in enumerate(inds, 1)] of [filter_series]:
    the state is [(keeper, number)]. *)
Definition keeper_step (hdrs : list header) (st : nat * nat) (ni : nat * nat)
    : M (nat * nat) :=
  let '(n, i) := ni in
  let '(keeper, number) := if (n =? 1)%nat then (i, n) else st in
  let* hi := index_list hdrs i in
  let* hk := index_list hdrs keeper in
  match ImagesInAcquisition hi, ImagesInAcquisition hk with
  | Some ci, Some ck =>
      if ci >? ck then ret (i, n)
      else if ci =? ck then
        match AcquisitionTime hi, AcquisitionTime hk with
        | Some ti, Some tk =>
            match float_of_str ti, float_of_str tk with
            | Some fi, Some fk => if float_gt fi fk then ret (i, n) else ret (keeper, number)
            | _, _ => ret (keeper, number)
            end
        | _, _ => ret (keeper, number)
        end
      else ret (keeper, number)
  | _, _ => ret (keeper, number)
  end.

(** The tie-break loop on the candidates that are left. *)
Definition tie_break (hdrs : list header) (inds : list nat) : M (nat * nat) :=
  for_each (enumerate_from 1 inds) (keeper_step hdrs) (0%nat, 0%nat).

(** The choice of the keeper among a non-empty list of candidates. *)
Definition choose_keeper (hdrs : list header) (series : list string) (inds : list nat)
    : M (nat * nat) :=
  match inds with
  | [i] => ret (i, 1%nat)
  | _ =>
      let* redo_inds :=
        for_each inds
          (fun redo_inds x =>
             let* sx := index_list series x in
             if existsb (fun item => contains item (lower sx)) ["repeat"; "redo"]
             then ret (redo_inds ++ [x]) else ret redo_inds) [] in
      let inds := match redo_inds with [] => inds | _ => redo_inds end in
      tie_break hdrs inds
  end.

Fixpoint as_strs (l : list pyval) : M (list string) :=
  match l with
  | [] => ret []
  | v :: l' => let* s := as_str v in let* ss := as_strs l' in ret (s :: ss)
  end.

Definition as_str_list (v : pyval) : M (list string) :=
  match v with PList l => as_strs l | _ => raise TypeError end.

Fixpoint as_str_lists (l : list pyval) : M (list (list string)) :=
  match l with
  | [] => ret []
  | v :: l' => let* s := as_str_list v in let* ss := as_str_lists l' in ret (s :: ss)
  end.

(** The body of the loop of [filter_series] over the roles.  The search terms
    of the configuration are lists of strings. *)
Definition filter_role (dicoms : list (list string)) (hdrs : list header)
    (series dirs : list string) (srs_dict : ser_dict) (srs : string) : M ser_dict :=
  let* d := getitem srs_dict srs in
  if has_key d "or" && has_key d "not" then
    info ("FINDING SERIES: " +:+ srs);;
    let* or_v := getfield d "or" in
    let* not_v := getfield d "not" in
    let* substrs := match or_v with PList l => as_str_lists l | _ => raise TypeError end in
    let* substrnot := as_str_list not_v in
    let inds := substr_list series substrs substrnot in
    match inds with
    | _ :: _ =>
        let* kn := choose_keeper hdrs series inds in
        let keeper := fst kn in
        let* s := index_list series keeper in
        info ("- Keeping series: " +:+ s +:+ " (" +:+ pretty (snd kn) +:+ ")");;
        let* dcm := index_list dicoms keeper in
        let sd := sd_update srs_dict srs "dicoms" (PList (map PStr dcm)) in
        let* h := index_list hdrs keeper in
        let sd := sd_update sd srs "hdrs" (PHdr h) in
        let sd := sd_update sd srs "series" (PStr s) in
        let* dir := index_list dirs keeper in
        let sd := sd_update sd srs "dirs" (PStr dir) in
        ret sd
    | [] =>
        info "- No matching series found!";;
        let sd := sd_update srs_dict srs "dicoms" (PList []) in
        let sd := sd_update sd srs "hdrs" (PList []) in
        let sd := sd_update sd srs "series" (PStr "None") in
        let sd := sd_update sd srs "dirs" (PList []) in
        ret sd
    end
  else ret srs_dict.

Definition filter_series (dicoms : list (list string)) (hdrs : list header)
    (series dirs : list string) (srs_dict : ser_dict) : M ser_dict :=
  for_each (keys srs_dict) (filter_role dicoms hdrs series dirs) srs_dict.

(** *** Registration routines *)

(** What distinguishes the registration routines: the stages of the transform
    and the multi-resolution schedules. *)
Record reg_settings := mk_settings {
  rs_transforms : list string;
  rs_smoothing_sigmas : list (list Z);
  rs_shrink_factors : list (list Z);
  rs_number_of_iterations : list (list Z)
}.

Definition trans_settings : reg_settings :=
  mk_settings ["Translation"] [[6; 4; 1; 0]] [[4; 3; 2; 1]] [[1000; 500; 250; 50]].
Definition rigid_settings : reg_settings :=
  mk_settings ["Rigid"] [[6; 4; 1; 0]] [[4; 3; 2; 1]] [[1000; 500; 250; 50]].
Definition affine_settings : reg_settings :=
  mk_settings ["Rigid"; "Affine"] [[6; 4; 1; 0]; [6; 4; 1; 0]]
    [[4; 3; 2; 1]; [4; 3; 2; 1]] [[1000; 1000; 1000; 1000]; [1000; 1000; 1000; 1000]].
Definition fast_affine_settings : reg_settings :=
  mk_settings ["Rigid"; "Affine"] [[6; 4; 1]; [6; 4; 1]]
    [[6; 4; 2]; [6; 4; 2]; [6; 4; 2]; [6; 4; 2]] [[1000; 1000; 1000]; [1000; 1000; 1000]].
Definition diffeo_settings : reg_settings :=
  mk_settings ["Rigid"; "Affine"; "SyN"] [[6; 4; 1; 0]; [4; 2; 1; 0]; [2; 1; 0]]
    [[4; 3; 2; 1]; [8; 4; 2; 1]; [4; 2; 1]]
    [[1000; 1000; 1000; 1000]; [1000; 1000; 1000; 1000]; [250; 100; 50]].
Definition fast_diffeo_settings : reg_settings :=
  mk_settings ["Affine"; "SyN"] [[4; 2; 1]; [2; 1]] [[6; 4; 2]; [4; 2]]
    [[1000; 500; 250]; [50; 50]].

(** [option["reg_com"]] when [option] is a dict with that key, else 1. *)
Definition reg_com (option : pyval) : pyval :=
  match option with
  | PDict kv =>
      match find (fun p => String.eqb (fst p) "reg_com") kv with
      | Some p => snd p
      | None => PInt 1
      end
  | _ => PInt 1
  end.

(** The body shared by [trans_reg], [rigid_reg], [affine_reg],
    [fast_affine_reg], [diffeo_reg] and [fast_diffeo_reg]: the transform is
    cached at [<work_dir>/<moving>_2_<template>_Composite.h5]. *)
Definition registration (st : reg_settings) (moving_nii template_nii : pyval)
    (work_dir : string) (option : pyval) (repeat : bool) : M string :=
  let* moving := as_str moving_nii in
  let* template := as_str template_nii in
  let moving_name := split_first "." (basename moving) in
  let template_name := split_first "." (basename template) in
  let outprefix := path_join work_dir (moving_name +:+ "_2_" +:+ template_name +:+ "_") in
  let antsreg :=
    mk_antsreg template moving outprefix (rs_transforms st) (rs_smoothing_sigmas st)
      (rs_shrink_factors st) (rs_number_of_iterations st) (reg_com option) in
  let trnsfm := outprefix +:+ "Composite.h5" in
  let* present := isfile trnsfm in
  if negb present || repeat then
    info ("- Registering image " +:+ moving +:+ " to " +:+ template);;
    run (Registration antsreg);;
    ret trnsfm
  else
    info ("- Warp file already exists at " +:+ trnsfm);;
    ret trnsfm.

Definition trans_reg := registration trans_settings.
Definition fast_affine_reg := registration fast_affine_settings.
Definition diffeo_reg := registration diffeo_settings.
Definition fast_diffeo_reg := registration fast_diffeo_settings.

(** *** Transform application *)

(** One iteration of the loop of [ants_apply] over the moving images. *)
Definition ants_apply_one (reference_nii interp : pyval) (transform_list : list pyval)
    (work_dir : string) (invert_bool repeat : bool) (mvng : pyval) : M string :=
  let* moving := as_str mvng in
  let output := path_join work_dir (split_first ".nii" (basename moving) +:+ "_w.nii.gz") in
  let* present := isfile output in
  if negb present || repeat then
    info ("- Creating warped image " +:+ output);;
    run (ApplyTransforms moving reference_nii output interp transform_list
           (map (fun _ => invert_bool) transform_list));;
    ret output
  else
    info ("- Transformed image already exists at " +:+ output);;
    ret output.

Fixpoint ants_apply_loop (reference_nii interp : pyval) (transform_list : list pyval)
    (work_dir : string) (invert_bool repeat : bool) (moving : list pyval) : M (list string) :=
  match moving with
  | [] => ret []
  | mvng :: rest =>
      let* out := ants_apply_one reference_nii interp transform_list work_dir
                    invert_bool repeat mvng in
      let* outs := ants_apply_loop reference_nii interp transform_list work_dir
                     invert_bool repeat rest in
      ret (out :: outs)
  end.

Definition ants_apply (moving_nii reference_nii interp transform_list : pyval)
    (work_dir : string) (invert_bool repeat : bool) : M pyval :=
  let moving := match moving_nii with PList l => l | v => [v] end in
  let transform_list := match transform_list with PList l => l | v => [v] end in
  let* outs := ants_apply_loop reference_nii interp transform_list work_dir
                 invert_bool repeat moving in
  match outs with
  | [out] => ret (PStr out)
  | _ => ret (PList (map PStr outs))
  end.

(** *** The registration stage *)

(** ["reg_target" in ser_dict[key] and ser_dict[key]["reg_target"] == "atlas"] *)
Definition targets_atlas (sd : ser_dict) (key : string) : bool :=
  match sd_get sd key with
  | Some d => match d !! "reg_target" with Some v => eq_str v "atlas" | None => false end
  | None => false
  end.

(** ["reg_last" in ser_dict[key] and ser_dict[key]["reg_last"]] *)
Definition flagged_last (sd : ser_dict) (key : string) : bool :=
  match sd_get sd key with
  | Some d => match d !! "reg_last" with Some v => truthy v | None => false end
  | None => false
  end.

(** First loop of [reg_series]: over [sorted(ser_dict.keys())], a role that
    targets the atlas is inserted at the front, any other is appended. *)
Definition atlas_first (sd : ser_dict) : list string :=
  fold_left (fun sorted_keys key =>
               if targets_atlas sd key then key :: sorted_keys else sorted_keys ++ [key])
            (py_sorted (keys sd)) [].

(** Second loop: the roles flagged [reg_last] are moved to the end. *)
Definition last_tmp (sd : ser_dict) (sorted_keys : list string) : list string * list string :=
  fold_left (fun '(last, tmp) key =>
               if flagged_last sd key then (last ++ [key], tmp) else (last, tmp ++ [key]))
            sorted_keys ([], []).

Definition sorted_keys (sd : ser_dict) : list string :=
  let '(last, tmp) := last_tmp sd (atlas_first sd) in
  fold_left (fun tmp key => tmp ++ [key]) last tmp.

(** Third loop: a role without a converted file or without a registration
    request gets its registered filename from its unregistered one. *)
Definition init_role (sd : ser_dict) (ser : string) : M ser_dict :=
  let* d := getitem sd ser in
  let sd := if negb (has_key d "filename") then sd_update sd ser "filename" (PStr "None") else sd in
  let* d := getitem sd ser in
  let* filename := getfield d "filename" in
  let* unregistered :=
    if eq_str filename "None" then ret true
    else if negb (has_key d "reg") then ret true
    else let* reg := getfield d "reg" in ret (negb (truthy reg)) in
  if unregistered : bool then
    let sd := sd_update sd ser "filename_reg" filename in
    let sd := sd_update sd ser "transform" (PStr "None") in
    let sd := sd_update sd ser "reg" (PBool false) in
    ret sd
  else ret sd.

(** The body of one of the six loops over a geometric mode.  The loops for
    ["trans"] and ["rigid"] call the registration routine directly
    ([guarded = false]); the loops for ["affine"], ["fast_affine"], ["diffeo"]
    and ["fast_diffeo"] first check that the moving and the template file
    exist ([guarded = true]).  The call of [ants_apply] passes [repeat] in the
    position of [invert_bool]. *)
Definition geometric_role (mode : string) (guarded : bool) (st : reg_settings)
    (dcm_dir : string) (repeat : bool) (sd : ser_dict) (ser : string) : M ser_dict :=
  let* d := getitem sd ser in
  let* reg := getfield d "reg" in
  if eq_str reg mode then
    let* reg_target := getfield d "reg_target" in
    let* target_is_file := isfile_v reg_target in
    let* template :=
      if target_is_file : bool then ret reg_target
      else let* key := as_str reg_target in
           let* dt := getitem sd key in
           getfield dt "filename_reg" in
    let* movingr :=
      if has_key d "reg_moving" then getfield d "reg_moving" else getfield d "filename" in
    let* movinga := getfield d "filename" in
    let* proceed :=
      if guarded then
        let* m := isfile_v movingr in
        if m : bool then isfile_v template else ret false
      else ret true in
    if proceed : bool then
      let option := match d !! "reg_option" with Some o => o | None => PNone end in
      let* transforms := registration st movingr template (dirname dcm_dir) option repeat in
      let interp := match d !! "interp" with Some i => i | None => PStr "Linear" end in
      let* niiout := ants_apply movinga template interp (PStr transforms) (dirname dcm_dir)
                       repeat false in
      let sd := sd_update sd ser "filename_reg" niiout in
      let sd := sd_update sd ser "transform" (PStr transforms) in
      ret sd
    else ret sd
  else ret sd.

(** The body of the last loop: a role whose [reg] entry is the name of another
    role applies that role's transform. *)
Definition borrow_role (keys : list string) (dcm_dir : string) (repeat : bool)
    (sd : ser_dict) (ser : string) : M ser_dict :=
  let* d := getitem sd ser in
  let* reg := getfield d "reg" in
  if in_strs reg keys then
    try_except
      (let* other := as_str reg in
       let* dother := getitem sd other in
       let* transforms := getfield dother "transform" in
       let* template := getfield dother "filename_reg" in
       let* moving := getfield d "filename" in
       let interp := match d !! "interp" with Some i => i | None => PStr "Linear" end in
       let* niiout := ants_apply moving template interp transforms (dirname dcm_dir)
                        repeat false in
       let sd := sd_update sd ser "filename_reg" niiout in
       let sd := sd_update sd ser "transform" transforms in
       ret sd)
      (info ("- Error attempting to apply existing transform to seies " +:+ ser);;
       ret sd)
  else ret sd.

Definition reg_series (sd : ser_dict) (repeat : bool) : M ser_dict :=
  info "REGISTERING IMAGES:";;
  let* info_d := getitem sd "info" in
  let* dcm_dir_v := getfield info_d "dcmdir" in
  let* dcm_dir := as_str dcm_dir_v in
  let ks := sorted_keys sd in
  let* sd := for_each ks init_role sd in
  let* sd := for_each ks (geometric_role "trans" false trans_settings dcm_dir repeat) sd in
  let* sd := for_each ks (geometric_role "rigid" false rigid_settings dcm_dir repeat) sd in
  let* sd := for_each ks (geometric_role "affine" true affine_settings dcm_dir repeat) sd in
  let* sd := for_each ks (geometric_role "fast_affine" true fast_affine_settings dcm_dir repeat) sd in
  let* sd := for_each ks (geometric_role "diffeo" true diffeo_settings dcm_dir repeat) sd in
  let* sd := for_each ks (geometric_role "fast_diffeo" true fast_diffeo_settings dcm_dir repeat) sd in
  for_each ks (borrow_role ks dcm_dir repeat) sd.

(** *** The conversion stage *)

(** [sorted(l)[0]] on a list of strings. *)
Definition min_str (l : list string) : M string :=
  match py_sorted l with
  | s :: _ => ret s
  | [] => raise IndexError
  end.

(** [not converted == outfilepath] *)
Definition differs (converted : pyval) (outfilepath : string) : bool :=
  negb (eq_str converted outfilepath).

(** The body of the loop of [dcm_list_2_niis] over the roles; the state is the
    bundle and the list [extras]. *)
Definition convert_role (idno dicom_dir : string) (repeat : bool)
    (st : ser_dict * list string) (series : string) : M (ser_dict * list string) :=
  let '(sd, extras) := st in
  let* d := getitem sd series in
  if has_key d "dicoms" then
    let* dicoms := getfield d "dicoms" in
    let outfilename := idno +:+ "_" +:+ series in
    let outfilepath := path_join (dirname dicom_dir) (outfilename +:+ ".nii.gz") in
    let converter := Dcm2niix dicoms outfilename (dirname dicom_dir) in
    let stem := rsplit_first ".nii.gz" outfilepath in
    let* present := isfile outfilepath in
    let* fresh :=
      if negb present
      then let* ser := getfield d "series" in ret (negb (eq_str ser "None"))
      else ret false in
    let* flag_extras :=
      if fresh : bool then
        info ("- Converting " +:+ outfilename);;
        let* files := run_output converter in
        let* conv_extras :=
          match files with
          | PList l => let* c := index_list l 0 in ret (c, [])
          | v => ret (v, extras)
          end in
        let converted := if truthy (fst conv_extras) then fst conv_extras else PStr outfilepath in
        (if differs converted outfilepath then
           let* c := as_str converted in
           info ("- " +:+ series +:+ " converted file is named " +:+ basename c +:+
                 ", renaming " +:+ basename outfilepath);;
           rename c outfilepath
         else ret tt);;
        let* found := glob_nii stem in
        if bool_decide (outfilepath ∈ found) then ret (true, snd conv_extras)
        else raise ValueError
      else
        let* present := isfile outfilepath in
        let* flag_extras :=
          if present && repeat then
            info ("- " +:+ outfilename +:+
                  " already exists, but repeat is True, so it will be overwritten");;
            info ("- Converting " +:+ outfilename);;
            let* files := run_output converter in
            let* converted :=
              match files with
              | PList l => let* names := as_strs l in let* c := min_str names in ret (PStr c)
              | v => ret v
              end in
            let converted := if truthy converted then converted else PStr outfilepath in
            (if differs converted outfilepath then
               let* c := as_str converted in
               info ("- " +:+ series +:+ " converted file is " +:+ c +:+
                     ", renaming to " +:+ outfilepath);;
               rename c outfilepath
             else ret tt);;
            let* more_extras := glob_nii stem in
            ret (true, remove_dups (extras ++ more_extras))
          else ret (false, extras) in
        let* present := isfile outfilepath in
        (if present && negb repeat
         then info ("- " +:+ outfilename +:+ " already exists and will not be overwritten")
         else ret tt);;
        let* present := isfile outfilepath in
        let* unmatched :=
          if negb present
          then let* ser := getfield d "series" in ret (eq_str ser "None")
          else ret false in
        (if unmatched : bool
         then info ("- No existing file and no matching series found: " +:+ series)
         else ret tt);;
        ret flag_extras in
    let* present := isfile outfilepath in
    if present then
      let sd := sd_update sd series "filename" (PStr outfilepath) in
      if fst flag_extras && (has_key d "split" || has_key d "split_func") then
        let* sd := post_process sd series in ret (sd, snd flag_extras)
      else ret (sd, snd flag_extras)
    else ret (sd, snd flag_extras)
  else ret st.

Definition dcm_list_2_niis (strs_dict : ser_dict) (dicom_dir : string) (repeat : bool)
    : M ser_dict :=
  let* info_d := getitem strs_dict "info" in
  let* id_v := getfield info_d "id" in
  let* idno := as_str id_v in
  info "CONVERTING FILES:";;
  let* st := for_each (keys strs_dict) (convert_role idno dicom_dir repeat) (strs_dict, []) in
  let '(sd, extras) := st in
  for_each extras
    (fun _ item =>
       let* present := isfile item in
       if present then
         info ("- Removing extra file generated during conversion: " +:+ item);;
         remove item
       else ret tt) tt;;
  info "CONVERTED FILES LIST:";;
  for_each (keys sd)
    (fun _ ser =>
       let* d := getitem sd ser in
       if has_key d "dicoms" && has_key d "filename" then
         let* fn := getfield d "filename" in
         let* present := isfile_v fn in
         if present then let* f := as_str fn in info ("- " +:+ ser +:+ " = " +:+ f)
         else ret tt
       else ret tt) tt;;
  match sd_get sd "ASL" with
  | Some d =>
      if has_key d "filename" then
        let* fn := getfield d "filename" in
        let* aslperf := as_str fn in
        let anat_outname := rsplit_first ".nii" aslperf +:+ "_anat.nii.gz" in
        let* present := isfile anat_outname in
        if present then ret (sd_update sd "ASL" "reg_moving" (PStr anat_outname))
        else ret sd
      else ret sd
  | None => ret sd
  end.

(** *** The masking stage *)

(** The body of the loop of [breast_mask] that applies the mask. *)
Definition mask_role (mask_file : string) (repeat : bool) (sd : ser_dict) (sers : string)
    : M ser_dict :=
  let* d := getitem sd sers in
  if has_key d "filename_reg" then
    let* fr := getfield d "filename_reg" in
    let* filename_reg := as_str fr in
    let ser_masked_stem := rsplit_first ".nii" filename_reg in
    let ser_masked :=
      if endswith ser_masked_stem "_w" then ser_masked_stem +:+ "m.nii.gz"
      else ser_masked_stem +:+ "_wm.nii.gz" in
    let* todo :=
      if repeat then ret true
      else let* masked := isfile ser_masked in
           if negb masked then isfile filename_reg else ret false in
    if todo : bool then
      info ("- Masking " +:+ filename_reg);;
      run (ApplyMask filename_reg mask_file ser_masked);;
      ret (sd_update sd sers "filename_masked" (PStr ser_masked))
    else
      let* masked := isfile ser_masked in
      if masked then
        info ("- Masked file already exists for " +:+ sers +:+ " at " +:+ ser_masked);;
        ret (sd_update sd sers "filename_masked" (PStr ser_masked))
      else if String.eqb sers "info" then ret sd
      else
        info ("- Skipping masking for " +:+ sers +:+ " as file does not exist");;
        ret sd
  else
    info ("- No filename_reg entry exists for series " +:+ sers);;
    ret sd.

(** [breast_mask]; [script_dir] is the directory of the source file.  With
    [force_cpu] the source hides the GPU from the inference, which changes
    neither the bundle nor the files. *)
Definition breast_mask (script_dir : string) (sd : ser_dict) (force_cpu repeat : bool)
    : M ser_dict :=
  let* info_d := getitem sd "info" in
  let* id_v := getfield info_d "id" in
  let* dcm_dir_v := getfield info_d "dcmdir" in
  info "BREAST MASKING:";;
  let* dcm_dir := as_str dcm_dir_v in
  let* idno := as_str id_v in
  let t1w := path_join (dirname dcm_dir) (idno +:+ "_T1_w.nii.gz") in
  let* t1w_present := isfile t1w in
  if negb t1w_present then
    warning ("Did not find required image for breast masking: " +:+ t1w);;
    ret sd
  else
    let param_files := path_join script_dir "breast_mask/mask.json" in
    let mask_file := path_join (dirname dcm_dir) (idno +:+ "_breast_mask.nii.gz") in
    let* mask_present := isfile mask_file in
    (if mask_present then info ("- Breast mask already exists at " +:+ mask_file)
     else
       info ("- creating CNN-based breast mask at " +:+ mask_file);;
       let* maskout :=
         run_output (BatchMask (dirname dcm_dir) param_files (dirname dcm_dir)
                       "breast_mask" repeat) in
       if truthy maskout then info ("- Created combined brain mask at " +:+ mask_file)
       else info ("- Error creating combined brain mask at " +:+ mask_file));;
    let* mask_present := isfile mask_file in
    if mask_present then for_each (keys sd) (mask_role mask_file repeat) sd
    else
      info ("- Combined mask file not found, expected location is: " +:+ mask_file);;
      ret sd.

(** *** Bias correction and normalisation *)

(** ["bias" in ser_dict[srs] and ser_dict[srs]["bias"]] *)
Definition wants_bias (d : dict) : bool :=
  match d !! "bias" with Some v => truthy v | None => false end.

(** The body of the loop of [bias_correct].  The truncation of the
    intensities reads the mask and the masked image and saves the truncated
    image; the arithmetic on the voxels is not part of this model. *)
Definition bias_role (idno dcm_dir : string) (repeat : bool) (sd : ser_dict) (srs : string)
    : M ser_dict :=
  let* d := getitem sd srs in
  if wants_bias d then
    let f := path_join (dirname dcm_dir) (idno +:+ "_" +:+ srs +:+ "_wm.nii.gz") in
    let mask := path_join (dirname dcm_dir) (idno +:+ "_combined_brain_mask.nii.gz") in
    let* f_present := isfile f in
    if negb f_present then
      info ("- Skipping bias correction for " +:+ srs +:+ " as masked file does not exist.");;
      ret sd
    else
      let* mask_present := isfile mask in
      if negb mask_present then
        info ("- Skipping bias correction for " +:+ srs +:+ " as mask image does not exist.");;
        ret sd
      else
        let biasfile := rsplit_first ".nii" f +:+ "_biasmap.nii.gz" in
        let truncated_img := rsplit_first ".nii" f +:+ "t.nii.gz" in
        let biasimg := rsplit_first ".nii" truncated_img +:+ "b.nii.gz" in
        let* truncated := isfile truncated_img in
        (if negb truncated || repeat then
           info ("- Truncating image intensities for " +:+ f);;
           nib_load mask;;
           nib_load f;;
           write_file truncated_img
         else info ("- Truncated image already exists at " +:+ truncated_img));;
        let* corrected := isfile biasimg in
        if negb corrected || repeat then
          info ("- Bias correcting " +:+ truncated_img);;
          run (N4BiasFieldCorrection truncated_img mask biasimg biasfile);;
          ret (sd_update sd srs "filename_bias" (PStr biasimg))
        else
          info ("- Bias corrected image already exists at " +:+ biasimg);;
          ret (sd_update sd srs "filename_bias" (PStr biasimg))
  else ret sd.

Definition bias_correct (sd : ser_dict) (repeat : bool) : M ser_dict :=
  info "BIAS CORRECTING IMAGES:";;
  let* info_d := getitem sd "info" in
  let* id_v := getfield info_d "id" in
  let* dcm_dir_v := getfield info_d "dcmdir" in
  let* idno := as_str id_v in
  let* dcm_dir := as_str dcm_dir_v in
  for_each (keys sd) (bias_role idno dcm_dir repeat) sd.

(** The body of the loop of [norm_niis].  The image that is saved is
    [normalize] of the image that is loaded (below). *)
Definition norm_role (repeat : bool) (sd : ser_dict) (srs : string) : M ser_dict :=
  let* d := getitem sd srs in
  if wants_bias d then
    let* fn_v := getfield d "filename_bias" in
    let* fn := as_str fn_v in
    let normname := path_join (dirname fn) (split_first "." (basename fn) +:+ "n.nii.gz") in
    let* present := isfile normname in
    if negb present || repeat then
      info ("- Normalizing " +:+ srs +:+ " at " +:+ fn);;
      nib_load fn;;
      write_file normname;;
      ret (sd_update sd srs "filename_norm" (PStr normname))
    else
      info ("- Normalized " +:+ srs +:+ " already exists at " +:+ normname);;
      ret (sd_update sd srs "filename_norm" (PStr normname))
  else ret sd.

Definition norm_niis (sd : ser_dict) (repeat : bool) : M ser_dict :=
  info "NORMALIZING NIIs:";;
  for_each (keys sd) (norm_role repeat) sd.

(** *** The 4D volume and the persisted record *)

(** The first loop of [make_nii4d]: the normalised files of the roles. *)
Definition normalized_files (sd : ser_dict) : M (list pyval) :=
  for_each (keys sd)
    (fun files srs =>
       let* d := getitem sd srs in
       match d !! "filename_norm" with
       | Some fnorm =>
           let* name := as_str fnorm in
           info ("- Adding " +:+ srs +:+ " to nii4D list at " +:+ name);;
           ret (files ++ [fnorm])
       | None => ret files
       end) [].

Definition make_nii4d (sd : ser_dict) (repeat : bool) : M ser_dict :=
  info "MAKING 4D NII:";;
  let* info_d := getitem sd "info" in
  let* id_v := getfield info_d "id" in
  let* files := normalized_files sd in
  match files with
  | first :: _ :: _ =>
      let* first := as_str first in
      let* idno := as_str id_v in
      let nii4d := path_join (dirname first) (idno +:+ "_nii4d.nii.gz") in
      let* present := isfile nii4d in
      if negb present || repeat then
        info ("- Creating 4D nii at " +:+ nii4d);;
        run (Merge files nii4d);;
        ret sd
      else
        info ("- 4D Nii already exists at " +:+ nii4d);;
        ret sd
  | _ =>
      info "- Not enough files to make 4D Nii";;
      ret sd
  end.

Definition print_series_dict (series_dict : ser_dict) (repeat : bool) : M ser_dict :=
  let* info_d := getitem series_dict "info" in
  let* dcm_dir_v := getfield info_d "dcmdir" in
  let* dcm_dir := as_str dcm_dir_v in
  let* id_v := getfield info_d "id" in
  let* idno := as_str id_v in
  let serdict_outfile := path_join (dirname dcm_dir) (idno +:+ "_metadata.npy") in
  let* present := isfile serdict_outfile in
  (if negb present || repeat then write_file serdict_outfile else ret tt);;
  let hr_serdict_outfile := path_join (dirname dcm_dir) (idno +:+ "_metadata_HR.txt") in
  let* present := isfile hr_serdict_outfile in
  (if negb present || repeat then write_file hr_serdict_outfile else ret tt);;
  ret series_dict.

End Model.

(** ** The DWI splitter: which volumes are averaged *)

(** The 4D image is the list of its volumes along the last axis.  The
    arithmetic on voxels is that of numpy: the mean over the last axis of a
    selection of volumes, [np.squeeze], and the mean intensity of a volume. *)
Class Volumes (V : Type) := {
  mean_last : list V -> V;
  squeeze : V -> V;
  mean_intensity : V -> Q
}.

(** [np.nonzero(mask)[0]] *)
Definition nonzero_inds (mask : list bool) : list nat :=
  map fst (List.filter snd (enumerate_from 0 mask)).

(** [img[:, :, :, inds]] for a list of indices. *)
Fixpoint take_inds {A} (img : list A) (inds : list nat) : option (list A) :=
  match inds with
  | [] => Some []
  | i :: inds' =>
      match img !! i, take_inds img inds' with
      | Some v, Some vs => Some (v :: vs)
      | _, _ => None
      end
  end.

(** [img[:, :, :, mask]] for a boolean mask, which must have the length of
    the axis. *)
Definition take_mask {A} (img : list A) (mask : list bool) : option (list A) :=
  if (length img =? length mask)%nat then take_inds img (nonzero_inds mask) else None.

(** [np.max] of a non-empty array. *)
Definition np_max (l : list Q) : option Q :=
  match l with
  | [] => None
  | x :: l' => Some (fold_left (fun m y => if Qle_bool m y then y else m) l' x)
  end.

(** [np.argmax]: the first index of the greatest value. *)
Definition np_argmax (l : list Q) : option nat :=
  match l with
  | [] => None
  | x :: l' =>
      Some (fst (fold_left (fun '(best, m) '(i, y) =>
                              if Qle_bool y m then (best, m) else (i, y))
                           (enumerate_from 1 l') (0%nat, x)))
  end.

(** [l.remove(x)] on a list of indices. *)
Fixpoint list_remove (x : nat) (l : list nat) : option (list nat) :=
  match l with
  | [] => None
  | y :: l' => if (x =? y)%nat then Some l'
               else match list_remove x l' with Some r => Some (y :: r) | None => None end
  end.

(** The images [(b0_img, dwi_img)] that [split_dwi] saves for a 4D series;
    [bvals] are the values read from the bvals file when there is one.
    [None] stands for an exception of numpy or of the list operations. *)
Definition split_dwi_images {V} `{Volumes V} (img : list V) (bvals : option (list Q))
    : option (V * V) :=
  match bvals with
  | Some bvals =>
      let b0_inds := nonzero_inds (map (fun b => Qeq_bool b 0) bvals) in
      match take_inds img b0_inds with
      | Some b0_vols =>
          let b0_img := squeeze (mean_last b0_vols) in
          match np_max bvals with
          | Some bmax =>
              let dwi_max_inds := map (fun b => Qeq_bool b bmax) bvals in
              match take_mask img dwi_max_inds with
              | Some dwi_vols => Some (b0_img, squeeze (mean_last dwi_vols))
              | None => None
              end
          | None => None
          end
      | None => None
      end
  | None =>
      match np_argmax (map mean_intensity img) with
      | Some max_ind =>
          match img !! max_ind, list_remove max_ind [0; 1; 2; 3]%nat with
          | Some b0_img, Some (first :: _) =>
              match img !! first with
              | Some dwi_img => Some (b0_img, dwi_img)
              | None => None
              end
          | _, _ => None
          end
      | None => None
      end
  end.

(** ** Normalisation of the voxels *)









(** ** Concrete collaborators and inputs used to exercise the model *)

(** Tools that succeed when their input files exist and then create their
    output. *)
Definition ideal_run (c : command) (fs : gset string) : bool * gset string :=
  match c with
  | Registration i =>
      if bool_decide (fixed_image i ∈ fs) && bool_decide (moving_image i ∈ fs)
      then (true, {[output_transform_prefix i +:+ "Composite.h5"]} ∪ fs)
      else (false, fs)
  | ApplyTransforms inp (PStr r) out _ _ _ =>
      if bool_decide (inp ∈ fs) && bool_decide (r ∈ fs) then (true, {[out]} ∪ fs)
      else (false, fs)
  | ApplyMask inp mask out =>
      if bool_decide (inp ∈ fs) && bool_decide (mask ∈ fs) then (true, {[out]} ∪ fs)
      else (false, fs)
  | N4BiasFieldCorrection inp mask out bias =>
      if bool_decide (inp ∈ fs) && bool_decide (mask ∈ fs) then (true, {[out; bias]} ∪ fs)
      else (false, fs)
  | _ => (false, fs)
  end.

Definition ideal_tools : Tools :=
  {| run_command := ideal_run; command_output := fun _ _ => PNone |}.

(** Patterns without special characters: a search is a substring test. *)
Definition literal_regex : Regex := {| re_search := contains |}.

Definition no_post : PostProcessors := {| post_process := fun sd _ => ret sd |}.

(** Times written with digits only, compared as integers. *)
Fixpoint digits_value (l : list ascii) (acc : Z) : option Z :=
  match l with
  | [] => Some acc
  | c :: l' =>
      let n := nat_of_ascii c in
      if ((48 <=? n) && (n <=? 57))%nat
      then digits_value l' (10 * acc + Z.of_nat (n - 48))
      else None
  end.

Definition digits_float : PyFloat := {|
  pyfloat := Z;
  float_of_str := fun s => match s with
                           | EmptyString => None
                           | _ => digits_value (list_ascii_of_string s) 0
                           end;
  float_gt := Z.gtb
|}.

Definition role (l : list (string * pyval)) : gmap string pyval := list_to_map l.

Definition info_entry : string * gmap string pyval :=
  ("info", role [("filename", PStr "None"); ("dcmdir", PStr "/data/7/dicom"); ("id", PStr "7")]).

(** ** Statements of the specification and concrete inputs *)

(** The ordering as the specification words it, for a bundle whose atlas
    targets were replaced by the path [reg_atlas]: roles that target the atlas
    first, roles flagged [reg_last] last, the other roles in the insertion
    order of the bundle. *)
Definition before (l : list string) (a b : string) : Prop :=
  exists i j, l !! i = Some a /\ l !! j = Some b /\ (i < j)%nat.

Definition targets_path (reg_atlas : string) (sd : list (string * gmap string pyval))
    (key : string) : bool :=
  match sd_get sd key with
  | Some d => match d !! "reg_target" with Some v => eq_str v reg_atlas | None => false end
  | None => false
  end.

Definition spec_order (reg_atlas : string) (sd : list (string * gmap string pyval))
    (l : list string) : Prop :=
  (forall a b, In a l -> In b l ->
     targets_path reg_atlas sd a = true -> targets_path reg_atlas sd b = false ->
     before l a b)
  /\ (forall a b, In a l -> In b l ->
        flagged_last sd a = false -> flagged_last sd b = true -> before l a b)
  /\ List.filter (fun k => negb (targets_path reg_atlas sd k) && negb (flagged_last sd k)) l
     = List.filter (fun k => negb (targets_path reg_atlas sd k) && negb (flagged_last sd k))
         (keys sd).

(** A parameter file with the roles T1, T2FS, DWI and ADC, in this order. *)
Definition order_config : list (string * gmap string pyval) :=
  [("T1", role [("or", PList [PList [PStr "T1"]]); ("not", PList []);
                ("reg", PStr "affine"); ("reg_target", PStr "atlas")]);
   ("T2FS", role [("or", PList [PList [PStr "T2"]]); ("not", PList []);
                  ("reg", PStr "affine"); ("reg_target", PStr "T1")]);
   ("DWI", role [("or", PList [PList [PStr "DWI"]]); ("not", PList []);
                 ("reg", PStr "affine"); ("reg_target", PStr "T1")]);
   ("ADC", role [("or", PList [PList [PStr "ADC"]]); ("not", PList []);
                 ("reg", PStr "DWI"); ("reg_last", PBool true)])].

Definition order_bundle : list (string * gmap string pyval) :=
  make_serdict "/support/atlas.nii.gz" "/data/7/dicom" order_config.

(** The same roles entered in another order. *)
Definition swap_first_two {A} (l : list A) : list A :=
  match l with
  | a :: b :: rest => b :: a :: rest
  | _ => l
  end.

Definition order_bundle_permuted : list (string * gmap string pyval) :=
  swap_first_two order_bundle.

(** [ensures m P]: whenever [m] returns, its result satisfies [P]. *)
Definition ensures {A} (m : M A) (P : A -> Prop) : Prop :=
  forall fs a fs' ev, m fs = (Ok a, fs', ev) -> P a.

(** A role without converted file, or without a request for registration. *)
Definition unregistered (d : gmap string pyval) : Prop :=
  d !! "filename" = None
  \/ d !! "filename" = Some (PStr "None")
  \/ d !! "reg" = None
  \/ (exists v, d !! "reg" = Some v /\ truthy v = false).




(** The value of the entry [f] of role [k] in the bundle that a stage
    returns: [None] when the stage raises or the role is missing,
    [Some None] when the role has no such entry. *)
Definition field_after {S} (r : res (list (string * gmap string pyval)) * S * list event)
    (k f : string) : option (option pyval) :=
  match r with
  | (Ok sd, _, _) => match sd_get sd k with Some d => Some (d !! f) | None => None end
  | (Raise _, _, _) => None
  end.

Definition bundle_after {S} (r : res (list (string * gmap string pyval)) * S * list event)
    : list (string * gmap string pyval) :=
  match r with
  | (Ok sd, _, _) => sd
  | (Raise _, _, _) => []
  end.

Definition raised {A S} (r : res A * S * list event) : option exn :=
  match r with
  | (Ok _, _, _) => None
  | (Raise e, _, _) => Some e
  end.

Definition events_of {A S} (r : res A * S * list event) : list event := snd r.
Definition files_of {A} (r : res A * gset string * list event) : gset string := snd (fst r).



(** The same case with the rigid routine requested for T1. *)
Definition rigid_bundle : list (string * gmap string pyval) :=
  [("T1", role [("filename", PStr "/data/7/7_T1.nii.gz");
                ("reg", PStr "rigid"); ("reg_target", PStr "T2FS")]);
   ("T2FS", role [("reg", PStr "affine"); ("reg_target", PStr "T1")]);
   ("T1FS", role [("filename", PStr "/data/7/7_T1FS.nii.gz");
                  ("reg", PStr "affine"); ("reg_target", PStr "T1")]);
   info_entry].

Definition rigid_files : gset string :=
  {[ "/data/7/7_T1.nii.gz"; "/data/7/7_T1FS.nii.gz" ]}.

(** A case in which ADC borrows the transform of DWI, and DWI that of T2FS,
    which is registered to T1. *)
Definition chain_bundle : list (string * gmap string pyval) :=
  [("T1", role [("filename", PStr "/data/7/7_T1.nii.gz"); ("reg", PBool false)]);
   ("T2FS", role [("filename", PStr "/data/7/7_T2FS.nii.gz");
                  ("reg", PStr "affine"); ("reg_target", PStr "T1")]);
   ("DWI", role [("filename", PStr "/data/7/7_DWI.nii.gz"); ("reg", PStr "T2FS")]);
   ("ADC", role [("filename", PStr "/data/7/7_ADC.nii.gz"); ("reg", PStr "DWI")]);
   info_entry].

Definition chain_files : gset string :=
  {[ "/data/7/7_T1.nii.gz"; "/data/7/7_T2FS.nii.gz"; "/data/7/7_DWI.nii.gz";
     "/data/7/7_ADC.nii.gz" ]}.

(** Python's [transform_list] of [ants_apply]: a value that is not a list is
    wrapped in one. *)
Definition as_list (v : pyval) : list pyval :=
  match v with PList l => l | v => [v] end.


Definition interp_of (d : gmap string pyval) : pyval :=
  match d !! "interp" with Some i => i | None => PStr "Linear" end.

(** The tie-break rule as the specification words it: a candidate replaces
    the keeper when it has strictly more images, or as many images and a
    strictly later acquisition time, both times being numbers. *)
Definition later_than `{PyFloat} (hi hk : header) : bool :=
  match AcquisitionTime hi, AcquisitionTime hk with
  | Some ti, Some tk =>
      match float_of_str ti, float_of_str tk with
      | Some fi, Some fk => float_gt fi fk
      | _, _ => false
      end
  | _, _ => false
  end.

Definition replaces `{PyFloat} (hk hi : header) : bool :=
  match ImagesInAcquisition hi, ImagesInAcquisition hk with
  | Some ci, Some ck => (ci >? ck) || ((ci =? ck) && later_than hi hk)
  | _, _ => false
  end.

Definition spec_step `{PyFloat} (hdrs : list header) (keeper i : nat) : nat :=
  match hdrs !! keeper, hdrs !! i with
  | Some hk, Some hi => if replaces hk hi then i else keeper
  | _, _ => keeper
  end.



(** A catalogue with one T2 series, and a parameter file that asks for a
    post-contrast T1. *)
Definition t2_series : list string := ["AX T2 FS [dir=00001]"].
Definition t2_dicoms : list (list string) := [["/data/7/dicom/00001/1.dcm"]].
Definition t2_headers : list header := [mk_header (Some "AX T2 FS") (Some 40) (Some "093000")].
Definition t2_dirs : list string := ["/data/7/dicom/00001"].

Definition t1_only_bundle : list (string * gmap string pyval) :=
  make_serdict "/support/atlas.nii.gz" "/data/7/dicom"
    [("T1", role [("or", PList [PList [PStr "T1"; PStr "POST"]]);
                  ("not", PList [PStr "SCREEN"]);
                  ("reg", PBool false)])].

(** A role that asks for bias correction and has no bias-corrected file. *)
Definition bias_pending (d : gmap string pyval) : Prop :=
  wants_bias d = true /\ d !! "filename_bias" = None.

(** A case after masking: T1 asks for bias correction, its masked file exists,
    and the mask that the bias stage looks for does not. *)
Definition masked_bundle : list (string * gmap string pyval) :=
  [("T1", role [("filename", PStr "/data/7/7_T1.nii.gz");
                ("filename_reg", PStr "/data/7/7_T1_w.nii.gz");
                ("filename_masked", PStr "/data/7/7_T1_wm.nii.gz");
                ("reg", PBool false); ("bias", PBool true)]);
   ("T2FS", role [("filename", PStr "/data/7/7_T2FS.nii.gz");
                  ("filename_reg", PStr "/data/7/7_T2FS_w.nii.gz");
                  ("reg", PBool false); ("bias", PBool false)]);
   info_entry].

Definition masked_files : gset string :=
  {[ "/data/7/7_T1.nii.gz"; "/data/7/7_T1_w.nii.gz"; "/data/7/7_T1_wm.nii.gz";
     "/data/7/7_T2FS.nii.gz"; "/data/7/7_T2FS_w.nii.gz"; "/data/7/7_breast_mask.nii.gz" ]}.






(** Volumes of a single voxel, with rational intensities. *)
Definition Qmean (l : list Q) : Q :=
  (fold_right Qplus 0 l / inject_Z (Z.of_nat (length l)))%Q.

Definition voxel_volumes : Volumes Q :=
  {| mean_last := Qmean; squeeze := fun v => v; mean_intensity := fun v => v |}.

(** The mode strings that the six geometric loops of [reg_series] test. *)
Definition mode_names : list string :=
  ["trans"; "rigid"; "affine"; "fast_affine"; "diffeo"; "fast_diffeo"].

(** The [reg] entry of a role of the bundle. *)
Definition reg_of (sd : list (string * gmap string pyval)) (k : string) : option (option pyval) :=
  (fun d : gmap string pyval => d !! "reg") <$> sd_get sd k.

(** A role that does not borrow: its [reg] entry is not the name of a role. *)
Definition no_borrower (ks : list string) (sd : list (string * gmap string pyval))
    (k : string) : Prop :=
  exists v, reg_of sd k = Some (Some v) /\ in_strs v ks = false.

(** The transform of the borrower is absent or is that of the source. *)
Definition borrowed (da db : gmap string pyval) : Prop :=
  db !! "transform" = None
  \/ (is_Some (da !! "transform") /\ db !! "transform" = da !! "transform").

(** ** Further statements about the stages *)

(** What a computation emits, and whether it leaves the files alone. *)
Definition emits {A} (m : M A) (P : event -> Prop) : Prop :=
  forall fs r fs' ev, m fs = (r, fs', ev) -> Forall P ev.

Definition keeps_files {A} (m : M A) : Prop :=
  forall fs r fs' ev, m fs = (r, fs', ev) -> fs' = fs.

(** A line of the log. *)
Definition is_log (e : event) : Prop :=
  match e with
  | Info _ | Warning _ => True
  | _ => False
  end.

(** A description matches the search terms of a role: every pattern of one of
    the AND-groups, and none of the NOT patterns. *)
Definition matches `{Regex} (substrs : list (list string)) (substrnot : list string)
    (str : string) : bool :=
  existsb (fun substrlist => forallb (fun item => re_search item str) substrlist) substrs
  && negb (existsb (fun item2 => re_search item2 str) substrnot).


(** The number of images of the series at an index, when its header has
    one. *)
Definition image_count (hdrs : list header) (i : nat) : option Z :=
  match hdrs !! i with
  | Some h => ImagesInAcquisition h
  | None => None
  end.

(** The bundle [sd'] has the roles of [sd], in the same order, and differs
    from it at most in the entries [fields] of the roles. *)
Definition writes_only (fields : list string)
    (sd sd' : list (string * gmap string pyval)) : Prop :=
  keys sd' = keys sd
  /\ forall k d', sd_get sd' k = Some d' ->
       exists d, sd_get sd k = Some d /\ forall f, ~ In f fields -> d' !! f = d !! f.

(** What the registration stage may emit: lines of the log, runs of the
    registration engine, and runs of the transform application whose invert
    flags all equal [flag]. *)
Definition registration_event (flag : bool) (e : event) : Prop :=
  match e with
  | Info _ | Warning _ => True
  | Run (Registration _) => True
  | Run (ApplyTransforms _ _ _ _ transform_list invert_transform_flags) =>
      invert_transform_flags = map (fun _ => flag) transform_list
  | _ => False
  end.

(** A case in which T1 has a converted file and asks for the mode
    "translation", which is none of the strings that the stage tests. *)
Definition translation_bundle : list (string * gmap string pyval) :=
  [("T1", role [("filename", PStr "/data/7/7_T1.nii.gz"); ("reg", PStr "translation");
                ("reg_target", PStr "T2FS")]);
   ("T2FS", role [("filename", PStr "/data/7/7_T2FS.nii.gz"); ("reg", PBool false)]);
   info_entry].

Definition translation_files : gset string :=
  {[ "/data/7/7_T1.nii.gz"; "/data/7/7_T2FS.nii.gz" ]}.



(** The name of the warped image of a moving image, as [ants_apply] builds
    it. *)
Definition warped_name (work_dir moving : string) : string :=
  path_join work_dir (split_first ".nii" (basename moving) +:+ "_w.nii.gz").


(** A parameter file with two roles, one of them registered to the atlas. *)
Definition atlas_config : list (string * gmap string pyval) :=
  [("T2FS", role [("reg", PStr "affine"); ("reg_target", PStr "T1")]);
   ("T1", role [("reg", PStr "affine"); ("reg_target", PStr "atlas")])].

(** Three candidate series with 20, 60 and 40 images; the description of the
    third says that it is a repeat. *)
Definition count_headers : list header :=
  [mk_header (Some "AX T1") (Some 20) (Some "091500");
   mk_header (Some "AX T1") (Some 60) (Some "092000");
   mk_header (Some "AX T1 REPEAT") (Some 40) (Some "093000")].


(** What a computation that returns gives back, and the files it leaves, when
    it is started on the files [fs]. *)
Definition yields {A} (m : M A) (fs : gset string) (Q : A -> gset string -> Prop) : Prop :=
  forall a fs' ev, m fs = (Ok a, fs', ev) -> Q a fs'.

(** A converter that writes its output under the expected name and reports
    it; the other tools are those of [ideal_tools]. *)
Definition converting_tools : Tools :=
  {| run_command := fun c fs =>
       match c with
       | Dcm2niix _ out_filename output_dir =>
           (true, {[ path_join output_dir (out_filename +:+ ".nii.gz") ]} ∪ fs)
       | _ => ideal_run c fs
       end;
     command_output := fun c _ =>
       match c with
       | Dcm2niix _ out_filename output_dir =>
           PStr (path_join output_dir (out_filename +:+ ".nii.gz"))
       | _ => PNone
       end |}.

(** A case in which a series matched T1 and T1 was converted before. *)
Definition converted_bundle : list (string * gmap string pyval) :=
  [("T1", role [("or", PList [PList [PStr "T1"]]); ("not", PList []);
                ("dicoms", PList [PStr "/data/7/dicom/00001/1.dcm"]);
                ("series", PStr "AX T1 [dir=00001]"); ("dirs", PStr "/data/7/dicom/00001")]);
   info_entry].

Definition converted_files : gset string :=
  {[ "/data/7/dicom/00001/1.dcm"; "/data/7/7_T1.nii.gz" ]}.

(** ** The series catalogue: [dcm_find] and [get_series] *)

(** The header of a DICOM file: the fields that the matcher reads, and the
    two attributes from which [get_series] builds the description of a
    series.  [ImageType] is multi-valued. *)
Record dcm_header := mk_dcm_header {
  matcher_fields : header;
  ContrastBolusAgent : option string;
  ImageType : option (list string)
}.

(** The DICOM directory and the reader: [walk] lists, for the directories
    that [os.walk] visits, the directory and the names of its files;
    [read_file] is [dicom.read_file], which raises on a file that is not a
    DICOM file. *)
Class Dicom := {
  walk : string -> list (string * list string);
  read_file : string -> res dcm_header
}.

Section Catalogue.
Context {dicom : Dicom}.

(** [dcm_find]: the files with the extension [.dcm], and the files without
    any extension, other than [DICOMDIR], that the reader accepts. *)
Definition dcm_find (parent_dir : string) : list string :=
  flat_map
    (fun '(root, filenames) =>
       flat_map
         (fun filename =>
            if endswith filename ".dcm" then [path_join root filename]
            else if negb (contains "." filename)
                    && negb (String.eqb (lower filename) "dicomdir") then
              match read_file (path_join root filename) with
              | Ok _ => [path_join root filename]
              | Raise _ => []
              end
            else [])
         filenames)
    (walk parent_dir).

(** [s.replace(' ', '')] and [s[-n:]] *)
Definition remove_spaces (s : string) : string :=
  string_of_list_ascii
    (List.filter (fun c => negb (Ascii.eqb c " "%char)) (list_ascii_of_string s)).

Definition last_chars (n : nat) (s : string) : string :=
  String.substring (String.length s - n) n s.

(** The text that [get_series] puts after the description: " postcon " when a
    contrast agent is named, "ref " for a reformatted series. *)
Definition con_str (h : dcm_header) : string :=
  let con_str :=
    match ContrastBolusAgent h with
    | Some agent =>
        if negb (existsb (String.eqb (remove_spaces (lower agent))) [""; "no"; "none"; "off"])
        then " postcon " else " "
    | None => " "
    end in
  match ImageType h with
  | Some image_type =>
      if existsb (String.eqb "REFORMATTED") image_type then con_str +:+ "ref " else con_str
  | None => con_str
  end.

(** The entry of the list [series] for a directory: none when the header has
    an empty description. *)
Definition series_label (h : dcm_header) (direc : string) : option string :=
  match SeriesDescription (matcher_fields h) with
  | Some description =>
      if negb (String.eqb description "")
      then Some (description +:+ con_str h +:+ "[dir=" +:+ last_chars 5 direc +:+ "]")
      else None
  | None => Some ("none" +:+ con_str h +:+ "[dir=" +:+ last_chars 5 direc +:+ "]")
  end.

(** The body of the loop of [get_series] over the directories; the state is
    [(dicoms, hdrs, series)]. *)
Definition series_step (dcm_list : list string)
    (st : list (list string) * list dcm_header * list string) (id : nat * string)
    : M (list (list string) * list dcm_header * list string) :=
  let '(dicoms, hdrs, series) := st in
  let '(ind, direc) := id in
  let group := List.filter (String.prefix direc) dcm_list in
  let dicoms := dicoms ++ [group] in
  let* first := index_list group 0 in
  let* h := (fun fs => (read_file first, fs, [])) in
  let hdrs := hdrs ++ [h] in
  match SeriesDescription (matcher_fields h) with
  | Some description =>
      if negb (String.eqb description "")
      then ret (dicoms, hdrs,
                series ++ [description +:+ con_str h +:+ "[dir=" +:+ last_chars 5 direc +:+ "]"])
      else ret (dicoms, hdrs, series)
  | None =>
      info ("- Skipping series " +:+ pretty (S ind) +:+ " without series description");;
      ret (dicoms, hdrs,
           series ++ ["none" +:+ con_str h +:+ "[dir=" +:+ last_chars 5 direc +:+ "]"])
  end.

(** [get_series]: the lists [(dicoms, hdrs, series, dirs)]; the manifest is
    written at the end. *)
Definition get_series (dicom_dir : string) (repeat : bool)
    : M (list (list string) * list dcm_header * list string * list string) :=
  info "GETTING SERIES LIST:";;
  info ("- DICOM directory = " +:+ dicom_dir);;
  let dcm_list := dcm_find dicom_dir in
  let dirs := py_sorted (remove_dups (map dirname dcm_list)) in
  let* st := for_each (enumerate_from 0 dirs) (series_step dcm_list) ([], [], []) in
  let '(dicoms, hdrs, series) := st in
  get_series_manifest dicom_dir repeat;;
  ret (dicoms, hdrs, series, dirs).

End Catalogue.

(** The header has a description, and it is empty. *)
Definition empty_description (h : dcm_header) : bool :=
  match SeriesDescription (matcher_fields h) with
  | Some description => String.eqb description ""
  | None => false
  end.

(** A directory with three series; the header of the second has an empty
    description. *)
Definition example_dicom : Dicom :=
  {| walk := fun _ =>
       [("/data/7/dicom/00001", ["1.dcm"; "2.dcm"]);
        ("/data/7/dicom/00002", ["1.dcm"]);
        ("/data/7/dicom/00003", ["1.dcm"; "DICOMDIR"; "notes.txt"])];
     read_file := fun p =>
       Ok (mk_dcm_header
             (mk_header (if String.prefix "/data/7/dicom/00002" p then Some "" else Some "AX T1")
                (Some 60) (Some "093000"))
             None None) |}.

(** ** The post-processors of the conversion stage *)

(** [s.rsplit(sep, 1)[1]]: the part after the last [sep], which does not exist
    when [sep] does not occur. *)
Definition rsplit_last (sep s : string) : option string :=
  match rfind_from sep s 0 None with
  | Some p =>
      Some (String.substring (p + String.length sep)
              (String.length s - (p + String.length sep)) s)
  | None => None
  end.

(** [split_asl].  What the function reads from the images it loads is given:
    [perf_brighter] says that the mean of the perfusion image is greater than
    the mean of the image with the suffix [a]; [phases] is the length of the
    fourth axis of the perfusion image, [None] when the image has at most
    three dimensions. *)
Definition split_asl (perf_brighter : bool) (phases : option nat) (sd : ser_dict)
    : M ser_dict :=
  info "- Splitting ASL using split_asl function";;
  let* d := getitem sd "ASL" in
  let* fn := getfield d "filename" in
  let* aslperf := as_str fn in
  let aslperfa := rsplit_first ".nii" aslperf +:+ "a.nii.gz" in
  let anat_outname := rsplit_first ".nii" aslperf +:+ "_anat.nii.gz" in
  let* two_files := isfile aslperfa in
  (if two_files then
     nib_load aslperf;;
     nib_load aslperfa;;
     if perf_brighter then
       rename aslperf anat_outname;;
       rename aslperfa aslperf
     else rename aslperfa anat_outname
   else ret tt);;
  let* present := isfile aslperf in
  if present then
    let* anat_present := isfile anat_outname in
    (if negb anat_present then
       nib_load aslperf;;
       match phases with
       | Some n =>
           (if (n <? 2)%nat then raise IndexError else ret tt);;
           write_file aslperf;;
           write_file anat_outname
       | None => ret tt
       end
     else ret tt);;
    ret (sd_update sd "ASL" "reg_moving" (PStr anat_outname))
  else
    ret (sd_set sd "ASL" (<["filename" := PStr "None"]> (<["reg" := PBool false]> ∅))).

(** The exceptions of the image selection of [split_dwi]: an index or a mask
    that does not fit the axis is an [IndexError], the greatest element of an
    empty array and the removal of an absent element are a [ValueError]. *)
Definition split_dwi_select {V} `{Volumes V} (img : list V) (bvals : option (list Q))
    : res (V * V) :=
  match bvals with
  | Some bvals =>
      let b0_inds := nonzero_inds (map (fun b => Qeq_bool b 0) bvals) in
      match take_inds img b0_inds with
      | Some b0_vols =>
          match np_max bvals with
          | Some bmax =>
              match take_mask img (map (fun b => Qeq_bool b bmax) bvals) with
              | Some dwi_vols =>
                  Ok (squeeze (mean_last b0_vols), squeeze (mean_last dwi_vols))
              | None => Raise IndexError
              end
          | None => Raise ValueError
          end
      | None => Raise IndexError
      end
  | None =>
      match np_argmax (map mean_intensity img) with
      | Some max_ind =>
          match img !! max_ind with
          | Some b0_img =>
              match list_remove max_ind [0; 1; 2; 3]%nat with
              | Some (first :: _) =>
                  match img !! first with
                  | Some dwi_img => Ok (b0_img, dwi_img)
                  | None => Raise IndexError
                  end
              | Some [] => Raise IndexError
              | None => Raise ValueError
              end
          | None => Raise IndexError
          end
      | None => Raise ValueError
      end
  end.

(** The role that [split_dwi] adds for the B0 image. *)
Definition b0_role (b0 : string) : dict :=
  <["filename" := PStr b0]>
    (<["reg" := PStr "fast_affine"]>
       (<["reg_last" := PBool true]>
          (<["reg_target" := PStr "T2FS"]>
             (<["reg_option" := PDict [("reg_com", PInt 0)]]>
                (<["bias" := PBool false]> ∅))))).

(** [split_dwi].  The data that the function reads is given: [volumes] are
    the volumes of the image when it has four dimensions, [bvals] is what the
    reading of the first row of the file of b-values gives: the values, or
    the exception of a file without rows or of a value that is no number. *)
Definition split_dwi {V} `{Volumes V} (volumes : option (list V)) (bvals : res (list Q))
    (sd : ser_dict) : M ser_dict :=
  let* d := getitem sd "DWI" in
  let* fn := getfield d "filename" in
  let* dwi := as_str fn in
  let dwi_bvals := rsplit_first ".nii" dwi +:+ ".bval" in
  let dwi_bvecs := rsplit_first ".nii" dwi +:+ ".bvec" in
  let b0 := rsplit_first "DWI.nii" dwi +:+ "B0.nii.gz" in
  nib_load dwi;;
  let* sd :=
    match volumes with
    | Some img =>
        let* has_bvals := isfile dwi_bvals in
        let* images :=
          if has_bvals then
            info "- Splitting DWI/B0 based on bvals file";;
            match bvals with
            | Ok bvals => (fun fs => (split_dwi_select img (Some bvals), fs, []))
            | Raise e => raise e
            end
          else
            info "- Splitting DWI/B0 based on average image intensity";;
            (fun fs => (split_dwi_select img None, fs, [])) in
        write_file dwi;;
        write_file b0;;
        ret (sd_set sd "B0" (b0_role b0))
    | None =>
        info "- DWI is not 4D, so splitting was not performed";;
        ret sd
    end in
  for_each [dwi_bvals; dwi_bvecs]
    (fun _ f =>
       let* present := isfile f in
       if present then remove f else ret tt) tt;;
  ret sd.

(** [split_multiphase].  [phases] is the length of the fourth axis of the
    image, [None] when the image has fewer than four dimensions; the options
    give, for each new series, the index of its phase. *)
Definition phase_in_range (phases : nat) (phase : Z) : bool :=
  (- Z.of_nat phases <=? phase) && (phase <? Z.of_nat phases).

Definition split_multiphase (phases : option nat) (nii_in : string)
    (options : list (string * Z)) (series : string) (repeat : bool)
    : M (list (string * string)) :=
  let* basepath :=
    match rsplit_last "_" nii_in with
    | Some b => ret b
    | None => raise IndexError
    end in
  let* all_present :=
    if negb repeat then
      for_each options
        (fun present '(ser, _) =>
           let* p := isfile (path_join basepath (ser +:+ ".nii.gz")) in
           ret (present && p)) true
    else ret false in
  if all_present : bool then
    info ("- Split option was specified for " +:+ series +:+
          " but split outputs already exist");;
    ret (map (fun '(k, _) => (k, path_join basepath (k +:+ ".nii.gz"))) options)
  else
    nib_load nii_in;;
    match phases with
    | Some n =>
        if (n <? 2)%nat then
          info ("- Split option was specified for " +:+ series +:+
                ", and split outputs do not exist, but data is not 4D");;
          ret []
        else
          for_each options
            (fun outnames '(k, phase) =>
               let outname :=
                 path_join (dirname nii_in)
                   (split_first "_" (basename nii_in) +:+ "_" +:+ k +:+ ".nii.gz") in
               info ("- Splitting " +:+ series +:+ " phase " +:+ pretty phase +:+ " as " +:+ k);;
               (if phase_in_range n phase then ret tt else raise IndexError);;
               write_file outname;;
               ret (outnames ++ [(k, outname)])) []
    | None =>
        info ("- Split option was specified for " +:+ series +:+
              ", and split outputs do not exist, but data is not 4D");;
        ret []
    end.

(** [bvec_convert].  [bvecs_rows] and [bvals_rows] are the rows that the
    reader of tab-separated values finds in the two files.  The result is
    [None] or the list of the four paths. *)
Definition open_read (p : string) : M unit :=
  let* present := isfile p in
  if present then ret tt else raise (FileNotFoundError p).

Definition bvec_convert (bvecs_rows bvals_rows : list (list string)) (bvals bvecs : string)
    : M (option (list string)) :=
  let* has_bvals := isfile bvals in
  let* has_bvecs := isfile bvecs in
  if negb (has_bvals || has_bvecs) then ret None
  else
    let path_stem := rsplit_first ".bval" bvals in
    let acqp := path_stem +:+ "_acqp.txt" in
    let index := path_stem +:+ "_index.txt" in
    let* all_present :=
      for_each [bvals; bvecs; acqp; index]
        (fun present f => let* p := isfile f in ret (present && p)) true in
    if all_present : bool then ret (Some [bvals; bvecs; acqp; index])
    else
      info "- Generating param files for FSL eddy using bval and bvec files from dicom conversion";;
      open_read bvecs;;
      let* bvecs_row := index_list bvecs_rows 0 in
      (if (1 <? length bvecs_row)%nat then write_file bvecs else ret tt);;
      open_read bvals;;
      let* bvals_row := index_list bvals_rows 0 in
      (if (1 <? length bvals_row)%nat then write_file bvals else ret tt);;
      write_file acqp;;
      (if (1 <? length bvals_row)%nat then ret tt
       else let* first := index_list bvals_row 0 in ret tt);;
      write_file index;;
      ret (Some [bvals; bvecs; acqp; index]).

(** The name under which [split_multiphase] saves the phase of the series
    [k], and the name under which it looks for it before it does any work. *)
Definition split_outname (nii_in k : string) : string :=
  path_join (dirname nii_in) (split_first "_" (basename nii_in) +:+ "_" +:+ k +:+ ".nii.gz").

Definition split_expected (basepath k : string) : string :=
  path_join basepath (k +:+ ".nii.gz").

(** The four files of [bvec_convert]. *)
Definition eddy_files (bvals bvecs : string) : list string :=
  [bvals; bvecs; rsplit_first ".bval" bvals +:+ "_acqp.txt";
   rsplit_first ".bval" bvals +:+ "_index.txt"].

(** Example cases of the post-processors. *)
Definition asl_bundle : list (string * gmap string pyval) :=
  [("ASL", role [("filename", PStr "/data/7/7_ASL.nii.gz"); ("reg", PStr "affine")])].

Definition asl_files : gset string := {["/data/7/7_ASL.nii.gz"]}.

Definition dwi_bundle : list (string * gmap string pyval) :=
  [("DWI", role [("filename", PStr "/data/7/7_DWI.nii.gz")])].

Definition dwi_files : gset string := {["/data/7/7_DWI.nii.gz"; "/data/7/7_DWI.bvec"]}.

Definition dce_options : list (string * Z) := [("DCE1", 0); ("DCE2", 1)].

Definition dce_files : gset string := {["/data/7/7_DCE.nii.gz"]}.

Definition dti_files : gset string := {["/data/7/7_DTI.bval"; "/data/7/7_DTI.bvec"]}.

(** The outcome of a run: the value, when the run returned. *)
Definition value_of {A} (r : res A * gset string * list event) : option A :=
  match r with
  | (Ok a, _, _) => Some a
  | (Raise _, _, _) => None
  end.

(** * Properties *)

(** ** The order on role names *)

Lemma ascii_compare_N (a b : ascii) :
  Ascii.compare a b = N.compare (N_of_ascii a) (N_of_ascii b).
Proof. reflexivity. Qed.

Lemma ascii_compare_lt_trans (a b c : ascii) :
  Ascii.compare a b = Lt -> Ascii.compare b c = Lt -> Ascii.compare a c = Lt.
Proof.
  rewrite !ascii_compare_N, !N.compare_lt_iff. apply N.lt_trans.
Qed.

Lemma string_compare_lt_trans (a b c : string) :
  String.compare a b = Lt -> String.compare b c = Lt -> String.compare a c = Lt.
Proof.
  revert b c. induction a as [|x a IH]; intros [|y b] [|z c]; simpl; try congruence.
  destruct (Ascii.compare x y) eqn:Hxy; try discriminate.
  - apply Ascii.compare_eq_iff in Hxy. subst y.
    destruct (Ascii.compare x z) eqn:Hxz; try congruence. apply IH.
  - intros _. destruct (Ascii.compare y z) eqn:Hyz; try discriminate.
    + apply Ascii.compare_eq_iff in Hyz. subst z. now rewrite Hxy.
    + intros _. now rewrite (ascii_compare_lt_trans x y z).
Qed.

Lemma str_le_cases (a b : string) : str_le a b <-> String.compare a b = Lt \/ a = b.
Proof.
  unfold str_le, String.leb. split.
  - destruct (String.compare a b) eqn:H; try discriminate; intros _.
    + right. now apply String.compare_eq_iff.
    + now left.
  - intros [-> | ->]; [reflexivity|].
    destruct (String.compare b b) eqn:H; try reflexivity.
    pose proof (String.compare_antisym b b) as Ha. rewrite H in Ha. discriminate.
Qed.

#[global] Instance str_le_trans : Transitive str_le.
Proof.
  intros a b c Hab Hbc. apply str_le_cases in Hab, Hbc. apply str_le_cases.
  destruct Hab as [Hab | ->]; destruct Hbc as [Hbc | ->]; auto.
  left. eapply string_compare_lt_trans; eauto.
Qed.

#[global] Instance str_le_total : Total str_le.
Proof. intros a b. apply String.leb_total. Qed.

#[global] Instance str_le_antisym : AntiSymm eq str_le.
Proof. intros a b. apply String.leb_antisym. Qed.

Lemma py_sorted_perm (l : list string) : py_sorted l ≡ₚ l.
Proof. apply merge_sort_Permutation. Qed.

Lemma py_sorted_strongly (l : list string) : StronglySorted str_le (py_sorted l).
Proof. apply StronglySorted_merge_sort; apply _. Qed.

(** Sorting forgets the order of its input. *)
Lemma py_sorted_order_free (l1 l2 : list string) :
  l1 ≡ₚ l2 -> py_sorted l1 = py_sorted l2.
Proof.
  intros Hp. apply (Sorted_unique str_le).
  - apply Sorted_merge_sort; apply _.
  - apply Sorted_merge_sort; apply _.
  - now rewrite !py_sorted_perm.
Qed.

Lemma strongly_sorted_filter {A} (R : relation A) (f : A -> bool) (l : list A) :
  StronglySorted R l -> StronglySorted R (List.filter f l).
Proof.
  induction 1 as [|x l Hs IH Hall]; simpl; [constructor|].
  destruct (f x); [|assumption].
  constructor; [assumption|].
  apply List.Forall_forall. intros y Hy. apply List.filter_In in Hy as [Hy _].
  rewrite List.Forall_forall in Hall. now apply Hall.
Qed.

(** ** The role ordering of the registration stage *)

Lemma atlas_first_fold (f : string -> bool) (l acc : list string) :
  fold_left (fun sorted_keys key => if f key then key :: sorted_keys else sorted_keys ++ [key])
            l acc
  = rev (List.filter f l) ++ acc ++ List.filter (fun k => negb (f k)) l.
Proof.
  revert acc. induction l as [|x l IH]; intros acc; simpl.
  - now rewrite app_nil_r.
  - rewrite IH. destruct (f x); simpl.
    + now rewrite <- app_assoc.
    + now rewrite <- app_assoc.
Qed.

Lemma atlas_first_eq (sd : list (string * gmap string pyval)) :
  atlas_first sd
  = rev (List.filter (targets_atlas sd) (py_sorted (keys sd)))
    ++ List.filter (fun k => negb (targets_atlas sd k)) (py_sorted (keys sd)).
Proof. unfold atlas_first. now rewrite atlas_first_fold. Qed.

Lemma last_tmp_fold (f : string -> bool) (l last tmp : list string) :
  fold_left (fun '(last, tmp) key =>
               if f key then (last ++ [key], tmp) else (last, tmp ++ [key]))
            l (last, tmp)
  = (last ++ List.filter f l, tmp ++ List.filter (fun k => negb (f k)) l).
Proof.
  revert last tmp. induction l as [|x l IH]; intros last tmp; simpl.
  - now rewrite !app_nil_r.
  - destruct (f x); simpl; rewrite IH; now rewrite <- app_assoc.
Qed.

Lemma append_each (l tmp : list string) :
  fold_left (fun tmp key => tmp ++ [key]) l tmp = tmp ++ l.
Proof.
  revert tmp. induction l as [|x l IH]; intros tmp; simpl.
  - now rewrite app_nil_r.
  - rewrite IH. now rewrite <- app_assoc.
Qed.

(** The order that [reg_series] computes, in closed form. *)
Lemma sorted_keys_eq (sd : list (string * gmap string pyval)) :
  sorted_keys sd
  = List.filter (fun k => negb (flagged_last sd k)) (atlas_first sd)
    ++ List.filter (flagged_last sd) (atlas_first sd).
Proof.
  unfold sorted_keys, last_tmp. rewrite last_tmp_fold. simpl. now rewrite append_each.
Qed.

Lemma filter_partition_perm {A} (f : A -> bool) (l : list A) :
  List.filter (fun k => negb (f k)) l ++ List.filter f l ≡ₚ l.
Proof.
  induction l as [|x l IH]; simpl; [reflexivity|].
  destruct (f x); simpl.
  - rewrite <- Permutation_middle. now constructor.
  - now constructor.
Qed.

Lemma sorted_keys_perm (sd : list (string * gmap string pyval)) :
  sorted_keys sd ≡ₚ keys sd.
Proof.
  rewrite sorted_keys_eq, filter_partition_perm, atlas_first_eq.
  rewrite <- Permutation_rev, Permutation_app_comm, filter_partition_perm.
  apply py_sorted_perm.
Qed.

(** ** The case bundle as an association list *)

Lemma sd_get_In (sd : list (string * gmap string pyval)) k d :
  sd_get sd k = Some d -> In (k, d) sd.
Proof.
  induction sd as [|[k' d'] sd IH]; simpl; [discriminate|].
  destruct (String.eqb_spec k' k) as [->|Hne].
  - intros [= ->]. now left.
  - intros H. right. now apply IH.
Qed.

Lemma sd_get_None (sd : list (string * gmap string pyval)) k :
  sd_get sd k = None <-> ~ In k (keys sd).
Proof.
  induction sd as [|[k' d'] sd IH]; simpl; [tauto|].
  destruct (String.eqb_spec k' k) as [->|Hne].
  - split; [discriminate|]. intros H. exfalso. apply H. now left.
  - rewrite IH. tauto.
Qed.

Lemma sd_get_is_Some (sd : list (string * gmap string pyval)) k :
  In k (keys sd) -> exists d, sd_get sd k = Some d.
Proof.
  intros Hin. destruct (sd_get sd k) eqn:H; [eauto|].
  apply sd_get_None in H. contradiction.
Qed.

Lemma In_sd_get (sd : list (string * gmap string pyval)) k d :
  List.NoDup (keys sd) -> In (k, d) sd -> sd_get sd k = Some d.
Proof.
  induction sd as [|[k' d'] sd IH]; simpl; [tauto|].
  intros Hnd [Heq | Hin].
  - injection Heq as -> ->. now rewrite String.eqb_refl.
  - inversion Hnd as [|? ? Hnotin Hnd']; subst.
    destruct (String.eqb_spec k' k) as [->|Hne].
    + exfalso. apply Hnotin. change k with (fst (k, d)). now apply in_map.
    + now apply IH.
Qed.

Lemma sd_get_perm (sd sd' : list (string * gmap string pyval)) k :
  List.NoDup (keys sd) -> sd' ≡ₚ sd -> sd_get sd' k = sd_get sd k.
Proof.
  intros Hnd Hp.
  assert (Hnd' : List.NoDup (keys sd')).
  { eapply Permutation_NoDup; [|exact Hnd]. unfold keys. apply Permutation_map.
    now symmetry. }
  destruct (sd_get sd k) as [d|] eqn:Hg.
  - apply In_sd_get; [assumption|]. apply sd_get_In in Hg.
    eapply Permutation_in; [symmetry; exact Hp | exact Hg].
  - apply sd_get_None. apply sd_get_None in Hg. intros Hin. apply Hg.
    eapply Permutation_in; [|exact Hin]. unfold keys. now apply Permutation_map.
Qed.

Lemma sd_get_set (sd : list (string * gmap string pyval)) k k' d :
  sd_get (sd_set sd k d) k' = if String.eqb k k' then Some d else sd_get sd k'.
Proof.
  induction sd as [|[k0 d0] sd IH]; simpl.
  - destruct (String.eqb_spec k k'); reflexivity.
  - destruct (String.eqb_spec k0 k) as [->|Hne]; simpl.
    + destruct (String.eqb_spec k k'); reflexivity.
    + rewrite IH. destruct (String.eqb_spec k0 k') as [->|Hne'].
      * destruct (String.eqb_spec k k'); [congruence|reflexivity].
      * reflexivity.
Qed.

Lemma keys_sd_set_present (sd : list (string * gmap string pyval)) k d :
  In k (keys sd) -> keys (sd_set sd k d) = keys sd.
Proof.
  induction sd as [|[k0 d0] sd IH]; simpl; [tauto|].
  intros Hin. destruct (String.eqb_spec k0 k) as [->|Hne]; simpl; [reflexivity|].
  f_equal. apply IH. destruct Hin; [congruence|assumption].
Qed.

Lemma sd_get_update (sd : list (string * gmap string pyval)) k f v k' :
  sd_get (sd_update sd k f v) k'
  = if String.eqb k k' then (fun d => <[f := v]> d) <$> sd_get sd k' else sd_get sd k'.
Proof.
  unfold sd_update. destruct (sd_get sd k) as [d|] eqn:Hg.
  - rewrite sd_get_set. destruct (String.eqb_spec k k') as [->|]; [|reflexivity].
    now rewrite Hg.
  - destruct (String.eqb_spec k k') as [->|]; [|reflexivity]. now rewrite Hg.
Qed.

Lemma sd_get_update_ne (sd : list (string * gmap string pyval)) k f v k' :
  k <> k' -> sd_get (sd_update sd k f v) k' = sd_get sd k'.
Proof.
  intros Hne. rewrite sd_get_update. destruct (String.eqb_spec k k'); congruence.
Qed.

Lemma sd_get_update_eq (sd : list (string * gmap string pyval)) k f v d :
  sd_get sd k = Some d -> sd_get (sd_update sd k f v) k = Some (<[f := v]> d).
Proof.
  intros Hg. rewrite sd_get_update, String.eqb_refl, Hg. reflexivity.
Qed.

Lemma keys_sd_update (sd : list (string * gmap string pyval)) k f v :
  keys (sd_update sd k f v) = keys sd.
Proof.
  unfold sd_update. destruct (sd_get sd k) as [d|] eqn:Hg; [|reflexivity].
  apply keys_sd_set_present. destruct (in_dec string_dec k (keys sd)) as [|Hn]; [assumption|].
  apply sd_get_None in Hn. congruence.
Qed.

(** ** [C2] The ordering of the roles *)

Lemma filter_sorted_nonatlas (f g : string -> bool) (l : list string) :
  StronglySorted str_le l ->
  StronglySorted str_le
    (List.filter (fun k => negb (f k))
       (List.filter g (rev (List.filter f l) ++ List.filter (fun k => negb (f k)) l))).
Proof.
  intros Hs. rewrite !List.filter_app.
  assert (Hnil : List.filter (fun k => negb (f k)) (List.filter g (rev (List.filter f l))) = []).
  { clear Hs. induction (rev (List.filter f l)) as [|x r IH] eqn:Hr in l |- *.
    - reflexivity.
    - assert (Hx : f x = true).
      { assert (Hin : In x (rev (List.filter f l))) by (rewrite Hr; now left).
        apply in_rev, List.filter_In in Hin. tauto. }
      assert (Hall : forall y, In y r -> f y = true).
      { intros y Hy. assert (Hin : In y (rev (List.filter f l))) by (rewrite Hr; now right).
        apply in_rev, List.filter_In in Hin. tauto. }
      clear IH Hr. simpl. destruct (g x); simpl; [rewrite Hx; simpl|].
      all: induction r as [|y r IHr]; simpl; [reflexivity|].
      all: destruct (g y); simpl; [rewrite (Hall y) by now left|]; simpl.
      all: apply IHr; intros z Hz; apply Hall; now right. }
  rewrite Hnil. simpl. now do 3 apply strongly_sorted_filter.
Qed.

(** [C2], as stated, fails: for the parameter file [order_config] (roles T1,
    T2FS, DWI and ADC in this order) the computed order is DWI, T1, T2FS,
    info, ADC; the roles that are neither atlas-targeted nor flagged
    [reg_last] are in sorted order, not in their insertion order. *)
Lemma reg_order_not_catalog_order :
  keys order_bundle = ["T1"; "T2FS"; "DWI"; "ADC"; "info"]
  /\ sorted_keys order_bundle = ["DWI"; "T1"; "T2FS"; "info"; "ADC"]
  /\ ~ spec_order "/support/atlas.nii.gz" order_bundle (sorted_keys order_bundle).
Proof.
  split; [vm_compute; reflexivity|]. split; [vm_compute; reflexivity|].
  intros (_ & _ & Hcatalog). vm_compute in Hcatalog. discriminate.
Qed.

(** [C2], amended: the order computed by [reg_series] is a permutation of the
    role names in which every role flagged [reg_last] comes after every role
    that is not, and in which, among the roles that are not flagged and among
    the roles that are, those whose target is not the literal string "atlas"
    are in ascending order of their names; the order does not depend on the
    insertion order of the bundle. *)
Theorem reg_order_sorted (sd sd' : list (string * gmap string pyval)) :
  List.NoDup (keys sd) ->
  sd' ≡ₚ sd ->
  sorted_keys sd ≡ₚ keys sd
  /\ (exists front back,
        sorted_keys sd = front ++ back
        /\ Forall (fun k => flagged_last sd k = false) front
        /\ Forall (fun k => flagged_last sd k = true) back
        /\ StronglySorted str_le (List.filter (fun k => negb (targets_atlas sd k)) front)
        /\ StronglySorted str_le (List.filter (fun k => negb (targets_atlas sd k)) back))
  /\ sorted_keys sd' = sorted_keys sd.
Proof.
  intros Hnd Hperm. split; [apply sorted_keys_perm|]. split.
  - exists (List.filter (fun k => negb (flagged_last sd k)) (atlas_first sd)),
           (List.filter (flagged_last sd) (atlas_first sd)).
    split; [apply sorted_keys_eq|].
    split; [|split; [|split]].
    + apply List.Forall_forall. intros k Hk. apply List.filter_In in Hk as [_ Hk].
      now apply negb_true_iff.
    + apply List.Forall_forall. intros k Hk. now apply List.filter_In in Hk as [_ Hk].
    + rewrite atlas_first_eq. apply filter_sorted_nonatlas, py_sorted_strongly.
    + rewrite atlas_first_eq. apply filter_sorted_nonatlas, py_sorted_strongly.
  - assert (Hget : forall k, sd_get sd' k = sd_get sd k).
    { intros k. now apply sd_get_perm. }
    assert (Hat : forall k, targets_atlas sd' k = targets_atlas sd k).
    { intros k. unfold targets_atlas. now rewrite Hget. }
    assert (Hla : forall k, flagged_last sd' k = flagged_last sd k).
    { intros k. unfold flagged_last. now rewrite Hget. }
    assert (Hks : py_sorted (keys sd') = py_sorted (keys sd)).
    { apply py_sorted_order_free. unfold keys. now apply Permutation_map. }
    assert (Haf : atlas_first sd' = atlas_first sd).
    { rewrite !atlas_first_eq, Hks.
      rewrite (List.filter_ext _ _ Hat).
      now rewrite (List.filter_ext (fun k => negb (targets_atlas sd' k))
                     (fun k => negb (targets_atlas sd k))) by (intros; now rewrite Hat). }
    rewrite !sorted_keys_eq, Haf.
    rewrite (List.filter_ext _ _ Hla).
    now rewrite (List.filter_ext (fun k => negb (flagged_last sd' k))
                   (fun k => negb (flagged_last sd k))) by (intros; now rewrite Hla).
Qed.

Lemma swap_first_two_perm {A} (l : list A) : swap_first_two l ≡ₚ l.
Proof. destruct l as [|a [|b rest]]; simpl; [reflexivity | reflexivity | apply perm_swap]. Qed.

Lemma reg_order_sorted_witness :
  List.NoDup (keys order_bundle)
  /\ order_bundle_permuted ≡ₚ order_bundle
  /\ sorted_keys order_bundle_permuted = sorted_keys order_bundle.
Proof.
  assert (Hnd : List.NoDup (keys order_bundle)).
  { vm_compute. repeat constructor; simpl; intuition congruence. }
  assert (Hp : order_bundle_permuted ≡ₚ order_bundle) by apply swap_first_two_perm.
  split; [exact Hnd|]. split; [exact Hp|].
  exact (proj2 (proj2 (reg_order_sorted order_bundle order_bundle_permuted Hnd Hp))).
Defined.

(** ** Reasoning about computations *)


Lemma bind_ok {A B} (m : M A) (k : A -> M B) fs b fs' ev :
  bind m k fs = (Ok b, fs', ev) ->
  exists a fs1 ev1 ev2,
    m fs = (Ok a, fs1, ev1) /\ k a fs1 = (Ok b, fs', ev2) /\ ev = ev1 ++ ev2.
Proof.
  unfold bind. destruct (m fs) as [[[a|e] fs1] ev1]; [|discriminate].
  destruct (k a fs1) as [[r fs2] ev2] eqn:Hk. intros [= -> -> <-].
  now exists a, fs1, ev1, ev2.
Qed.

Lemma bind_ret_l {A B} (a : A) (k : A -> M B) fs : bind (ret a) k fs = k a fs.
Proof. unfold bind, ret. now destruct (k a fs) as [[r fs2] ev2]. Qed.

Lemma bind_isfile {B} (p : string) (k : bool -> M B) fs :
  bind (isfile p) k fs = k (bool_decide (p ∈ fs)) fs.
Proof. unfold bind, isfile. now destruct (k _ fs) as [[r fs2] ev2]. Qed.

Lemma bind_assoc {A B C} (m : M A) (k : A -> M B) (h : B -> M C) fs :
  bind (bind m k) h fs = bind m (fun a => bind (k a) h) fs.
Proof.
  unfold bind. destruct (m fs) as [[[a|e] fs1] ev1]; [|reflexivity].
  destruct (k a fs1) as [[[b|e] fs2] ev2]; [|reflexivity].
  destruct (h b fs2) as [[r fs3] ev3]. now rewrite app_assoc.
Qed.

Lemma ensures_ret {A} (a : A) (P : A -> Prop) : P a -> ensures (ret a) P.
Proof. intros H fs a' fs' ev [= <- _ _]. exact H. Qed.

Lemma ensures_bind {A B} (m : M A) (k : A -> M B) (Q : A -> Prop) (P : B -> Prop) :
  ensures m Q -> (forall a, Q a -> ensures (k a) P) -> ensures (bind m k) P.
Proof.
  intros Hm Hk fs b fs' ev Hb.
  apply bind_ok in Hb as (a & fs1 & ev1 & ev2 & Hma & Hka & _).
  eapply Hk; [eapply Hm; exact Hma | exact Hka].
Qed.

Lemma ensures_any {A} (m : M A) : ensures m (fun _ => True).
Proof. now intros fs a fs' ev _. Qed.

Lemma ensures_weaken {A} (m : M A) (P Q : A -> Prop) :
  ensures m P -> (forall a, P a -> Q a) -> ensures m Q.
Proof. intros Hm HPQ fs a fs' ev H. eapply HPQ, Hm, H. Qed.

Lemma ensures_raise {A} (e : exn) (P : A -> Prop) : ensures (raise e) P.
Proof. intros fs a fs' ev H. discriminate H. Qed.

Lemma ensures_seq {A B} (m : M A) (k : M B) (P : B -> Prop) :
  ensures k P -> ensures (bind m (fun _ => k)) P.
Proof. intros Hk. eapply ensures_bind; [apply ensures_any | intros _ _; exact Hk]. Qed.

Lemma ensures_try {A} (body handler : M A) (P : A -> Prop) :
  ensures body P -> ensures handler P -> ensures (try_except body handler) P.
Proof.
  intros Hb Hh fs a fs' ev. unfold try_except.
  destruct (body fs) as [[[a0|e] fs1] ev1] eqn:Hbody.
  - intros [= <- _ _]. eapply Hb, Hbody.
  - destruct (handler fs1) as [[r fs2] ev2] eqn:Hhandler. intros [= -> _ _].
    eapply Hh, Hhandler.
Qed.

Lemma ensures_getitem (sd : list (string * gmap string pyval)) k :
  ensures (getitem sd k) (fun d => sd_get sd k = Some d).
Proof.
  unfold getitem. destruct (sd_get sd k); [now apply ensures_ret | apply ensures_raise].
Qed.

Lemma ensures_getfield (d : gmap string pyval) f :
  ensures (getfield d f) (fun v => d !! f = Some v).
Proof.
  unfold getfield. destruct (d !! f); [now apply ensures_ret | apply ensures_raise].
Qed.

Lemma ensures_as_str (v : pyval) : ensures (as_str v) (fun s => v = PStr s).
Proof. destruct v; simpl; try apply ensures_raise. now apply ensures_ret. Qed.

(** An invariant of the accumulator of a loop. *)
Lemma ensures_for_each {A S} (I : S -> Prop) (f : S -> A -> M S) (l : list A) :
  (forall s x, In x l -> I s -> ensures (f s x) I) ->
  forall s, I s -> ensures (for_each l f s) I.
Proof.
  induction l as [|x l IH]; intros Hstep s Hs; simpl.
  - now apply ensures_ret.
  - eapply ensures_bind.
    + apply Hstep; [now left | exact Hs].
    + intros s' Hs'. apply IH; [|exact Hs'].
      intros s0 y Hy. apply Hstep. now right.
Qed.

Lemma classic_or_in {A} (x0 x : A) (l : list A) :
  In x0 (x :: l) -> x0 = x \/ In x0 l.
Proof. intros [H|H]; [left; now symmetry | now right]. Qed.

(** A loop that passes over [x0] while [I] holds establishes [P], when the
    step at [x0] turns [I] into [P] and every step keeps [I] and keeps [P]. *)
Lemma ensures_for_each_reach {A S} (I P : S -> Prop) (f : S -> A -> M S)
    (l : list A) (x0 : A) :
  In x0 l ->
  (forall s x, I s -> ensures (f s x) I) ->
  (forall s x, P s -> ensures (f s x) P) ->
  (forall s, I s -> ensures (f s x0) P) ->
  forall s, I s -> ensures (for_each l f s) P.
Proof.
  intros Hin HI HP Hx0. induction l as [|x l IH]; [destruct Hin|].
  intros s Hs. simpl. destruct (classic_or_in x0 x l Hin) as [-> | Hin'].
  - eapply ensures_bind; [apply Hx0, Hs|].
    intros s' Hs'. apply (ensures_for_each P); [|exact Hs'].
    intros s0 y _. apply HP.
  - eapply ensures_bind; [apply HI, Hs|].
    intros s' Hs'. now apply IH.
Qed.

(** ** The registration stage *)

Section Registration.
Context {tools : Tools}.


Lemma init_role_other (sd : list (string * gmap string pyval)) ser k :
  k <> ser -> ensures (init_role sd ser) (fun sd' => sd_get sd' k = sd_get sd k).
Proof.
  intros Hne. unfold init_role.
  eapply ensures_bind; [apply ensures_getitem|]. intros d Hd.
  set (sd1 := if negb (has_key d "filename") then _ else sd).
  assert (H1 : sd_get sd1 k = sd_get sd k).
  { subst sd1. destruct (negb _); [|reflexivity]. apply sd_get_update_ne. congruence. }
  eapply ensures_bind; [apply ensures_getitem|]. intros d1 Hd1.
  eapply ensures_bind; [apply ensures_getfield|]. intros fn Hfn.
  eapply ensures_bind; [apply ensures_any|]. intros [|] _.
  - apply ensures_ret. rewrite !sd_get_update_ne by congruence. exact H1.
  - apply ensures_ret. exact H1.
Qed.



Ltac skip_binds :=
  repeat (eapply ensures_bind; [apply ensures_any|]; intros ? _).

(** A loop over a geometric mode changes only roles whose [reg] entry is that
    mode. *)
Lemma geometric_role_frame mode guarded st dcm_dir repeat
    (sd : list (string * gmap string pyval)) ser k :
  k <> ser \/ (exists d v, sd_get sd k = Some d /\ d !! "reg" = Some v /\ eq_str v mode = false) ->
  ensures (geometric_role mode guarded st dcm_dir repeat sd ser)
    (fun sd' => sd_get sd' k = sd_get sd k).
Proof.
  intros Hk. unfold geometric_role.
  eapply ensures_bind; [apply ensures_getitem|]. intros d Hd.
  eapply ensures_bind; [apply ensures_getfield|]. intros reg Hreg.
  destruct (eq_str reg mode) eqn:Hmode; [|now apply ensures_ret].
  assert (Hne : k <> ser).
  { destruct Hk as [Hne | (d' & v & Hd' & Hv & Hfalse)]; [exact Hne|].
    intros ->. congruence. }
  do 5 (eapply ensures_bind; [apply ensures_any|]; intros ? _).
  eapply ensures_bind; [apply ensures_any|]. intros proceed _.
  destruct proceed.
  - skip_binds. apply ensures_ret. rewrite !sd_get_update_ne by congruence. reflexivity.
  - now apply ensures_ret.
Qed.

(** The last loop changes only roles whose [reg] entry names a role. *)
Lemma borrow_role_frame ks dcm_dir repeat (sd : list (string * gmap string pyval)) ser k :
  k <> ser \/ (exists d v, sd_get sd k = Some d /\ d !! "reg" = Some v /\ in_strs v ks = false) ->
  ensures (borrow_role ks dcm_dir repeat sd ser)
    (fun sd' => sd_get sd' k = sd_get sd k).
Proof.
  intros Hk. unfold borrow_role.
  eapply ensures_bind; [apply ensures_getitem|]. intros d Hd.
  eapply ensures_bind; [apply ensures_getfield|]. intros reg Hreg.
  destruct (in_strs reg ks) eqn:Hin; [|now apply ensures_ret].
  assert (Hne : k <> ser).
  { destruct Hk as [Hne | (d' & v & Hd' & Hv & Hfalse)]; [exact Hne|].
    intros ->. congruence. }
  apply ensures_try.
  - skip_binds. apply ensures_ret. rewrite !sd_get_update_ne by congruence. reflexivity.
  - apply ensures_seq. now apply ensures_ret.
Qed.




Lemma sd_get_key (sd : list (string * gmap string pyval)) k d :
  sd_get sd k = Some d -> In k (keys sd).
Proof.
  intros H. destruct (in_dec string_dec k (keys sd)) as [|Hn]; [assumption|].
  apply sd_get_None in Hn. congruence.
Qed.



End Registration.


Lemma returned_eta (r : res (list (string * gmap string pyval)) * gset string * list event) :
  raised r = None -> r = (Ok (bundle_after r), files_of r, events_of r).
Proof. destruct r as [[[sd|e] fs] ev]; [reflexivity | discriminate]. Qed.


(** ** [C3] Reuse of a transform *)

Section Borrow.
Context {tools : Tools}.





Lemma in_strs_In (s : string) (ks : list string) : In s ks -> in_strs (PStr s) ks = true.
Proof.
  intros Hin. simpl. apply existsb_exists. exists s. split; [exact Hin|].
  apply String.eqb_refl.
Qed.


(** When [other] has no recorded transform, the [KeyError] is caught and the
    bundle is left as it was. *)
Lemma borrow_without_transform ks dcm_dir repeat
    (sd : list (string * gmap string pyval)) ser other d dother fs :
  sd_get sd ser = Some d ->
  d !! "reg" = Some (PStr other) ->
  In other ks ->
  sd_get sd other = Some dother ->
  dother !! "transform" = None ->
  borrow_role ks dcm_dir repeat sd ser fs
  = (Ok sd, fs, [Info ("- Error attempting to apply existing transform to seies " +:+ ser)]).
Proof.
  intros Hd Hreg Hin Hother Ht.
  unfold borrow_role, bind, getitem, getfield, try_except, as_str, ret, info, emit, raise.
  rewrite Hd, Hreg, (in_strs_In _ _ Hin), Hother, Ht. reflexivity.
Qed.

End Borrow.



(** ** [C4] Missing files in the geometric modes *)

(** [C4] at a concrete case: the rigid loop does not check the files.  For a
    role whose template "None" is not a file the registration engine is run
    on it, and when the engine raises, the stage raises and the roles after
    it (T1FS here) are not registered.  The loops for the affine and
    diffeomorphic modes skip such a role ([guarded_role_skips]). *)
Lemma rigid_role_not_skipped :
  let r := reg_series (tools := ideal_tools) rigid_bundle false rigid_files in
  let engine_call :=
    Registration
      (mk_antsreg "None" "/data/7/7_T1.nii.gz" "/data/7/7_T1_2_None_" ["Rigid"]
         [[6; 4; 1; 0]] [[4; 3; 2; 1]] [[1000; 500; 250; 50]] (PInt 1)) in
  raised r = Some (ToolError engine_call)
  /\ events_of r = [Info "REGISTERING IMAGES:";
                    Info "- Registering image /data/7/7_T1.nii.gz to None";
                    Run engine_call].
Proof. vm_compute. split; reflexivity. Qed.

(** The body of a guarded loop leaves the bundle and the files as they are,
    without a line in the log, when the moving file or the template is not a
    file. *)
Lemma guarded_role_skips (tools : Tools) mode st dcm_dir repeat
    (sd : list (string * gmap string pyval)) ser d tgt dt template moving fs :
  sd_get sd ser = Some d ->
  d !! "reg" = Some (PStr mode) ->
  d !! "reg_target" = Some (PStr tgt) ->
  tgt ∉ fs ->
  sd_get sd tgt = Some dt ->
  dt !! "filename_reg" = Some (PStr template) ->
  d !! "reg_moving" = None ->
  d !! "filename" = Some (PStr moving) ->
  moving ∉ fs \/ template ∉ fs ->
  geometric_role mode true st dcm_dir repeat sd ser fs = (Ok sd, fs, []).
Proof.
  intros Hd Hreg Htgt Hmissing Hdt Htemplate Hrm Hmoving Hnone.
  unfold geometric_role, isfile_v.
  unfold bind, getitem, getfield, has_key, as_str, isfile, ret, eq_str.
  rewrite Hd, Hreg, String.eqb_refl, Htgt, Hrm, Hmoving.
  rewrite (bool_decide_eq_false_2 (is_Some None)) by (intros [? ?]; discriminate).
  repeat (rewrite ?(bool_decide_eq_false_2 _ Hmissing), ?Hdt, ?Htemplate;
          cbv beta iota zeta).
  destruct (bool_decide (moving ∈ fs)) eqn:Hm; cbv beta iota zeta; [|reflexivity].
  destruct Hnone as [Hn | Hn]; [apply bool_decide_eq_true_1 in Hm; contradiction|].
  rewrite (bool_decide_eq_false_2 _ Hn). reflexivity.
Qed.

(** In general: the body of an unguarded loop runs the engine on the template
    that the target resolves to, whether or not that file exists, and raises
    when the engine does. *)
Lemma unguarded_role_runs_engine (tools : Tools) mode st dcm_dir
    (sd : list (string * gmap string pyval)) ser d tgt dt template moving fs :
  sd_get sd ser = Some d ->
  d !! "reg" = Some (PStr mode) ->
  d !! "reg_target" = Some (PStr tgt) ->
  tgt ∉ fs ->
  sd_get sd tgt = Some dt ->
  dt !! "filename_reg" = Some (PStr template) ->
  d !! "reg_moving" = None ->
  d !! "filename" = Some (PStr moving) ->
  let outprefix :=
    path_join (dirname dcm_dir)
      (split_first "." (basename moving) +:+ "_2_" +:+ split_first "." (basename template) +:+ "_") in
  let engine_call :=
    Registration
      (mk_antsreg template moving outprefix (rs_transforms st) (rs_smoothing_sigmas st)
         (rs_shrink_factors st) (rs_number_of_iterations st)
         (reg_com (match d !! "reg_option" with Some o => o | None => PNone end))) in
  outprefix +:+ "Composite.h5" ∉ fs ->
  In (Run engine_call) (events_of (geometric_role mode false st dcm_dir false sd ser fs))
  /\ (fst (run_command engine_call fs) = false ->
      raised (geometric_role mode false st dcm_dir false sd ser fs)
      = Some (ToolError engine_call)).
Proof.
  intros Hd Hreg Htgt Hmissing Hdt Htemplate Hrm Hmoving outprefix engine_call Hcache.
  assert (Hr : geometric_role mode false st dcm_dir false sd ser fs
               = bind (info ("- Registering image " +:+ moving +:+ " to " +:+ template))
                   (fun _ => bind (run engine_call)
                      (fun _ => bind (ants_apply (PStr moving) (PStr template) (interp_of d)
                                        (PStr (outprefix +:+ "Composite.h5"))
                                        (dirname dcm_dir) false false)
                         (fun niiout =>
                            ret (sd_update (sd_update sd ser "filename_reg" niiout) ser
                                   "transform" (PStr (outprefix +:+ "Composite.h5")))))) fs).
  { unfold geometric_role.
    unfold getitem at 1. rewrite Hd, bind_ret_l.
    unfold getfield at 1. rewrite Hreg, bind_ret_l.
    unfold eq_str. rewrite String.eqb_refl.
    unfold getfield at 1. rewrite Htgt, bind_ret_l.
    unfold isfile_v. rewrite bind_assoc. unfold as_str at 1. rewrite bind_ret_l, bind_isfile.
    rewrite (bool_decide_eq_false_2 _ Hmissing).
    rewrite bind_assoc. unfold as_str at 1. rewrite bind_ret_l.
    rewrite bind_assoc. unfold getitem at 1. rewrite Hdt, bind_ret_l.
    unfold getfield at 1. rewrite Htemplate, bind_ret_l.
    unfold has_key. rewrite Hrm.
    rewrite bool_decide_eq_false_2 by (intros [? ?]; discriminate).
    unfold getfield at 1. rewrite Hmoving, bind_ret_l.
    unfold getfield at 1. rewrite Hmoving, bind_ret_l.
    rewrite bind_ret_l.
    unfold registration. rewrite bind_assoc. unfold as_str at 1. rewrite bind_ret_l.
    rewrite bind_assoc. unfold as_str at 1. rewrite bind_ret_l.
    fold outprefix. rewrite bind_assoc, bind_isfile.
    rewrite (bool_decide_eq_false_2 _ Hcache). simpl negb. simpl orb. cbv iota.
    fold engine_call. fold (interp_of d).
    unfold bind, info, emit, ret.
    destruct (run engine_call fs) as [[[u|e] fs1] ev1]; [|reflexivity].
    destruct (ants_apply _ _ _ _ _ _ _ fs1) as [[[r|e0] fs2] ev2];
      simpl; now rewrite ?app_nil_r, <- ?app_assoc. }
  rewrite Hr. unfold bind, info, emit, run.
  destruct (run_command engine_call fs) as [[|] fs1] eqn:Hrun.
  - split; [|intros H; discriminate H].
    destruct (ants_apply _ _ _ _ _ _ _ fs1) as [[[r|e0] fs2] ev2];
      unfold events_of; simpl; right; left; reflexivity.
  - split; [|intros _; reflexivity].
    unfold events_of. simpl. right. left. reflexivity.
Qed.

(** ** [C5] The tie-break of the matcher *)

Section TieBreak.
Context {floats : PyFloat}.

Lemma keeper_step_first (hdrs : list header) st i h fs :
  hdrs !! i = Some h ->
  keeper_step hdrs st (1%nat, i) fs = (Ok (i, 1%nat), fs, []).
Proof.
  intros Hi. unfold keeper_step. change (1 =? 1)%nat with true. cbv beta iota zeta.
  unfold index_list. rewrite Hi. cbv iota. rewrite !bind_ret_l.
  destruct (ImagesInAcquisition h) as [c|]; [|reflexivity].
  rewrite Z.gtb_ltb, Z.ltb_irrefl, Z.eqb_refl.
  destruct (AcquisitionTime h) as [t|]; [|reflexivity].
  destruct (float_of_str t) as [f|]; [|reflexivity].
  now destruct (float_gt f f).
Qed.

Lemma keeper_step_next (hdrs : list header) keeper number n i hk hi fs :
  n <> 1%nat ->
  hdrs !! keeper = Some hk ->
  hdrs !! i = Some hi ->
  keeper_step hdrs (keeper, number) (n, i) fs
  = (Ok (if replaces hk hi then (i, n) else (keeper, number)), fs, []).
Proof.
  intros Hn Hk Hi. unfold keeper_step.
  destruct (Nat.eqb_spec n 1) as [|_]; [contradiction|]. cbv beta iota zeta.
  unfold index_list. rewrite Hi, Hk. cbv iota. rewrite !bind_ret_l.
  unfold replaces, later_than.
  destruct (ImagesInAcquisition hi) as [ci|]; [|reflexivity].
  destruct (ImagesInAcquisition hk) as [ck|]; [|reflexivity].
  destruct (ci >? ck); [reflexivity|]. simpl orb.
  destruct (ci =? ck); [|reflexivity]. simpl andb.
  destruct (AcquisitionTime hi) as [ti|]; [|reflexivity].
  destruct (AcquisitionTime hk) as [tk|]; [|reflexivity].
  destruct (float_of_str ti) as [fi|]; [|reflexivity].
  destruct (float_of_str tk) as [fk|]; [|reflexivity].
  now destruct (float_gt fi fk).
Qed.

Lemma spec_step_in_range (hdrs : list header) keeper i :
  is_Some (hdrs !! keeper) -> is_Some (hdrs !! i) -> is_Some (hdrs !! spec_step hdrs keeper i).
Proof.
  intros [hk Hk] [hi Hi]. unfold spec_step. rewrite Hk, Hi.
  destruct (replaces hk hi); eauto.
Qed.

Lemma tie_break_loop (hdrs : list header) others :
  forall n keeper number fs,
    (2 <= n)%nat ->
    is_Some (hdrs !! keeper) ->
    Forall (fun i => is_Some (hdrs !! i)) others ->
    exists number',
      for_each (enumerate_from n others) (keeper_step hdrs) (keeper, number) fs
      = (Ok (fold_left (spec_step hdrs) others keeper, number'), fs, []).
Proof.
  induction others as [|i others IH]; intros n keeper number fs Hn Hk Hall; simpl.
  - now exists number.
  - inversion Hall as [|? ? Hi Hothers]; subst.
    destruct Hk as [hk Hk]. destruct Hi as [hi Hi].
    unfold bind at 1. rewrite (keeper_step_next hdrs keeper number n i hk hi) by (auto; lia).
    assert (Hstep : spec_step hdrs keeper i = if replaces hk hi then i else keeper).
    { unfold spec_step. now rewrite Hk, Hi. }
    rewrite Hstep.
    destruct (replaces hk hi).
    + destruct (IH (S n) i n fs) as [number' Hloop]; [lia | eauto | assumption|].
      rewrite Hloop. now exists number'.
    + destruct (IH (S n) keeper number fs) as [number' Hloop]; [lia | eauto | assumption|].
      rewrite Hloop. now exists number'.
Qed.


End TieBreak.


(** ** [C6] A role without matching series *)

Section NoMatch.
Context {regex : Regex} {floats : PyFloat}.

Lemma as_strs_strings (l : list string) fs :
  as_strs (map PStr l) fs = (Ok l, fs, []).
Proof.
  induction l as [|s l IH]; [reflexivity|].
  cbn [map as_strs as_str]. rewrite bind_ret_l. unfold bind. now rewrite IH.
Qed.

Lemma as_str_lists_strings (l : list (list string)) fs :
  as_str_lists (map (fun g => PList (map PStr g)) l) fs = (Ok l, fs, []).
Proof.
  induction l as [|g l IH]; [reflexivity|].
  cbn [map as_str_lists as_str_list]. unfold bind.
  now rewrite as_strs_strings, IH.
Qed.

(** When no description matches, the role is recorded with empty [dicoms]
    and [hdrs], the series "None" and the empty list as [dirs]; nothing is
    raised. *)
Lemma filter_role_no_match dicoms hdrs series dirs
    (sd : list (string * gmap string pyval)) srs d substrs substrnot fs :
  sd_get sd srs = Some d ->
  d !! "or" = Some (PList (map (fun g => PList (map PStr g)) substrs)) ->
  d !! "not" = Some (PList (map PStr substrnot)) ->
  substr_list series substrs substrnot = [] ->
  filter_role dicoms hdrs series dirs sd srs fs
  = (Ok (sd_update
           (sd_update
              (sd_update (sd_update sd srs "dicoms" (PList [])) srs "hdrs" (PList []))
              srs "series" (PStr "None"))
           srs "dirs" (PList [])),
     fs, [Info ("FINDING SERIES: " +:+ srs); Info "- No matching series found!"]).
Proof.
  intros Hd Hor Hnot Hnone. unfold filter_role.
  unfold getitem at 1. rewrite Hd, bind_ret_l.
  unfold has_key. rewrite !bool_decide_eq_true_2 by eauto. cbn [andb].
  unfold getfield. rewrite Hor, Hnot.
  unfold bind, info, emit, ret, as_str_list.
  rewrite as_str_lists_strings, as_strs_strings, Hnone. reflexivity.
Qed.

End NoMatch.

(** [C6] at a concrete catalogue: the role T1 finds no series and is recorded
    without error; its [dirs] entry is the empty list, not "None". *)
Lemma no_match_records_empty_dirs :
  let r := filter_series (regex := literal_regex) (floats := digits_float)
             t2_dicoms t2_headers t2_series t2_dirs t1_only_bundle ∅ in
  raised r = None
  /\ field_after r "T1" "dicoms" = Some (Some (PList []))
  /\ field_after r "T1" "hdrs" = Some (Some (PList []))
  /\ field_after r "T1" "series" = Some (Some (PStr "None"))
  /\ field_after r "T1" "dirs" = Some (Some (PList []))
  /\ field_after r "T1" "dirs" <> Some (Some (PStr "None")).
Proof. vm_compute. repeat split; discriminate. Qed.

(** ** [C10] Normalisation of a role that was not bias corrected *)

Lemma for_each_must_raise {A S} (P : S -> Prop) (f : S -> A -> M S) (l : list A) (x0 : A) :
  In x0 l ->
  (forall s x, P s -> ensures (f s x) P) ->
  (forall s fs, P s -> exists e fs' ev, f s x0 fs = (Raise e, fs', ev)) ->
  forall s fs, P s -> exists e fs' ev, for_each l f s fs = (Raise e, fs', ev).
Proof.
  intros Hin Hkeep Hraise. induction l as [|x l IH]; [destruct Hin|].
  intros s fs Hs. cbn [for_each]. unfold bind.
  destruct (f s x fs) as [[[s1|e] fs1] ev1] eqn:Hstep; [|eauto].
  assert (Hs1 : P s1) by (eapply Hkeep; eauto).
  destruct Hin as [-> | Hin].
  - destruct (Hraise s fs Hs) as (e & fs' & ev & He). congruence.
  - destruct (IH Hin s1 fs1 Hs1) as (e & fs' & ev & He). rewrite He. eauto.
Qed.

Lemma for_each_unchanged {A S} (f : S -> A -> M S) (l : list A) (s : S) fs :
  (forall x, In x l -> f s x fs = (Ok s, fs, [])) ->
  for_each l f s fs = (Ok s, fs, []).
Proof.
  induction l as [|x l IH]; intros Hl; [reflexivity|].
  cbn [for_each]. unfold bind. rewrite Hl by now left.
  rewrite IH by (intros y Hy; apply Hl; now right). reflexivity.
Qed.

Lemma for_each_app {A S} (f : S -> A -> M S) (l1 l2 : list A) (s : S) fs :
  for_each (l1 ++ l2) f s fs = bind (for_each l1 f s) (for_each l2 f) fs.
Proof.
  revert s fs. induction l1 as [|x l1 IH]; intros s fs; cbn [app for_each].
  - now rewrite bind_ret_l.
  - unfold bind. destruct (f s x fs) as [[[s1|e] fs1] ev1]; [|reflexivity].
    rewrite IH. unfold bind.
    destruct (for_each l1 f s1 fs1) as [[[s2|e] fs2] ev2]; [|reflexivity].
    destruct (for_each l2 f s2 fs2) as [[r fs3] ev3]. now rewrite app_assoc.
Qed.

Lemma norm_role_other repeat (sd : list (string * gmap string pyval)) srs k :
  k <> srs -> ensures (norm_role repeat sd srs) (fun sd' => sd_get sd' k = sd_get sd k).
Proof.
  intros Hne. unfold norm_role.
  eapply ensures_bind; [apply ensures_any|]. intros d _.
  destruct (wants_bias d); [|now apply ensures_ret].
  do 3 (eapply ensures_bind; [apply ensures_any|]; intros ? _).
  destruct (negb _ || repeat).
  - do 3 apply ensures_seq. apply ensures_ret. apply sd_get_update_ne. congruence.
  - apply ensures_seq. apply ensures_ret. apply sd_get_update_ne. congruence.
Qed.

Lemma norm_role_key_error repeat (sd : list (string * gmap string pyval)) srs d fs :
  sd_get sd srs = Some d ->
  bias_pending d ->
  norm_role repeat sd srs fs = (Raise (KeyError "filename_bias"), fs, []).
Proof.
  intros Hd [Hbias Hnone]. unfold norm_role.
  unfold getitem. rewrite Hd, bind_ret_l, Hbias.
  unfold getfield. rewrite Hnone. reflexivity.
Qed.

Lemma norm_role_skips repeat (sd : list (string * gmap string pyval)) srs d fs :
  sd_get sd srs = Some d ->
  wants_bias d = false ->
  norm_role repeat sd srs fs = (Ok sd, fs, []).
Proof.
  intros Hd Hbias. unfold norm_role.
  unfold getitem. now rewrite Hd, bind_ret_l, Hbias.
Qed.

(** [C10]: a role that asks for bias correction and has no [filename_bias]
    entry makes the normalisation stage raise: the loop body raises
    [KeyError] at that role, the stage never returns, and when the roles
    before it do not ask for bias correction the stage raises this
    [KeyError] before any file is read or written. *)
Theorem norm_niis_key_error (sd : list (string * gmap string pyval)) repeat srs d :
  sd_get sd srs = Some d ->
  bias_pending d ->
  (forall fs, norm_role repeat sd srs fs = (Raise (KeyError "filename_bias"), fs, []))
  /\ (forall fs, exists e fs' ev, norm_niis sd repeat fs = (Raise e, fs', ev))
  /\ (forall before after fs,
        keys sd = before ++ srs :: after ->
        (forall k dk, In k before -> sd_get sd k = Some dk -> wants_bias dk = false) ->
        norm_niis sd repeat fs
        = (Raise (KeyError "filename_bias"), fs, [Info "NORMALIZING NIIs:"])).
Proof.
  intros Hd Hpending. split; [|split].
  - intros fs. now apply (norm_role_key_error repeat sd srs d).
  - intros fs. unfold norm_niis, bind at 1, info, emit.
    destruct (for_each_must_raise
                (fun s => exists d', sd_get s srs = Some d' /\ bias_pending d')
                (norm_role repeat) (keys sd) srs) with (s := sd) (fs := fs)
      as (e & fs' & ev & He).
    + eapply sd_get_key, Hd.
    + intros s x (d' & Hd' & Hp'). destruct (string_dec srs x) as [<- | Hne].
      * intros fs0 a fs1 ev1 Hrun.
        rewrite (norm_role_key_error repeat s srs d' fs0 Hd' Hp') in Hrun. discriminate.
      * eapply ensures_weaken; [apply (norm_role_other repeat s x srs Hne)|].
        intros s' Heq. exists d'. now rewrite Heq.
    + intros s fs0 (d' & Hd' & Hp'). eexists _, _, _.
      now apply (norm_role_key_error repeat s srs d').
    + eauto.
    + rewrite He. eauto.
  - intros before after fs Hkeys Hbefore.
    unfold norm_niis, bind at 1, info, emit. rewrite Hkeys, for_each_app.
    unfold bind. rewrite for_each_unchanged.
    + cbn [for_each]. unfold bind.
      now rewrite (norm_role_key_error repeat sd srs d fs Hd Hpending).
    + intros k Hk.
      destruct (sd_get_is_Some sd k) as [dk Hdk].
      { rewrite Hkeys. apply in_or_app. now left. }
      apply (norm_role_skips repeat sd k dk); [exact Hdk|]. eapply Hbefore; eauto.
Qed.

(** The bias stage skips a role whose masked file or mask does not exist, and
    records nothing for it. *)
Lemma bias_role_skips (tools : Tools) idno dcm_dir repeat (sd : list (string * gmap string pyval)) srs d fs :
  sd_get sd srs = Some d ->
  wants_bias d = true ->
  path_join (dirname dcm_dir) (idno +:+ "_" +:+ srs +:+ "_wm.nii.gz") ∉ fs
  \/ path_join (dirname dcm_dir) (idno +:+ "_combined_brain_mask.nii.gz") ∉ fs ->
  exists msg, bias_role idno dcm_dir repeat sd srs fs = (Ok sd, fs, [Info msg]).
Proof.
  intros Hd Hbias Hmissing. unfold bias_role.
  unfold getitem. rewrite Hd, bind_ret_l, Hbias. rewrite bind_isfile.
  destruct (bool_decide (path_join (dirname dcm_dir) (idno +:+ "_" +:+ srs +:+ "_wm.nii.gz") ∈ fs))
    eqn:Hf; cbn [negb].
  - rewrite bind_isfile.
    destruct Hmissing as [Hm | Hm]; [apply bool_decide_eq_true_1 in Hf; contradiction|].
    rewrite (bool_decide_eq_false_2 _ Hm). cbn [negb]. eexists. reflexivity.
  - eexists. reflexivity.
Qed.

Lemma norm_niis_key_error_witness :
  field_after (bias_correct (tools := ideal_tools) masked_bundle false masked_files)
    "T1" "filename_bias" = Some None
  /\ norm_niis masked_bundle false masked_files
     = (Raise (KeyError "filename_bias"), masked_files, [Info "NORMALIZING NIIs:"]).
Proof.
  split; [vm_compute; reflexivity|].
  refine (proj2 (proj2 (norm_niis_key_error masked_bundle false "T1"
                          (role [("filename", PStr "/data/7/7_T1.nii.gz");
                                 ("filename_reg", PStr "/data/7/7_T1_w.nii.gz");
                                 ("filename_masked", PStr "/data/7/7_T1_wm.nii.gz");
                                 ("reg", PBool false); ("bias", PBool true)]) _ _))
            [] [ "T2FS"; "info" ] masked_files _ _).
  - reflexivity.
  - split; vm_compute; reflexivity.
  - reflexivity.
  - intros k dk [].
Defined.

(** ** [C9] Idempotence of the stages *)

Lemma bind_info {B} (msg : string) (k : unit -> M B) fs :
  bind (info msg) k fs
  = match k tt fs with (r, fs', ev) => (r, fs', Info msg :: ev) end.
Proof. reflexivity. Qed.

Ltac run_pure :=
  repeat (first [ rewrite bind_ret_l | rewrite bind_isfile | rewrite bind_assoc
                | rewrite bind_info ];
          cbn [negb andb orb fst snd]).

Section Idempotence.
Context {tools : Tools} {post : PostProcessors}.












End Idempotence.


(** A second run of the registration stage on the files that the first run
    left: nothing is raised, the files are the same, and the log has only
    lines. *)
Lemma second_registration_run_quiet :
  let first := reg_series (tools := ideal_tools) chain_bundle false chain_files in
  let second := reg_series (tools := ideal_tools) chain_bundle false (files_of first) in
  raised second = None
  /\ elements (files_of second) = elements (files_of first)
  /\ events_of second
     = [Info "REGISTERING IMAGES:";
        Info "- Warp file already exists at /data/7/7_T2FS_2_7_T1_Composite.h5";
        Info "- Transformed image already exists at /data/7/7_T2FS_w.nii.gz";
        Info "- Error attempting to apply existing transform to seies ADC";
        Info "- Transformed image already exists at /data/7/7_DWI_w.nii.gz"].
Proof. vm_compute. repeat split. Qed.

(** ** [C8] The DWI splitter *)





(** ** [C7] Normalisation *)



Open Scope R_scope.









Close Scope R_scope.

(** ** [C3] The transform of a borrower after the whole stage *)

Section BorrowStage.
Context {tools : Tools}.

Lemma reg_of_update (sd : list (string * gmap string pyval)) k f v k' :
  f <> "reg" -> reg_of (sd_update sd k f v) k' = reg_of sd k'.
Proof.
  intros Hf. unfold reg_of. rewrite sd_get_update.
  destruct (String.eqb k k'); [|reflexivity].
  destruct (sd_get sd k') as [d|]; [|reflexivity].
  cbn. now rewrite lookup_insert_ne.
Qed.

Lemma geometric_role_reg mode guarded st dcm_dir repeat
    (sd : list (string * gmap string pyval)) ser :
  ensures (geometric_role mode guarded st dcm_dir repeat sd ser)
    (fun sd' => forall k, reg_of sd' k = reg_of sd k).
Proof.
  unfold geometric_role.
  do 2 (eapply ensures_bind; [apply ensures_any|]; intros ? _).
  destruct (eq_str _ mode); [|now apply ensures_ret].
  do 5 (eapply ensures_bind; [apply ensures_any|]; intros ? _).
  eapply ensures_bind; [apply ensures_any|]. intros proceed _.
  destruct proceed; [|now apply ensures_ret].
  do 2 (eapply ensures_bind; [apply ensures_any|]; intros ? _).
  apply ensures_ret. intros k. now rewrite !reg_of_update by discriminate.
Qed.

Lemma borrow_role_reg ks dcm_dir repeat (sd : list (string * gmap string pyval)) ser :
  ensures (borrow_role ks dcm_dir repeat sd ser)
    (fun sd' => forall k, reg_of sd' k = reg_of sd k).
Proof.
  unfold borrow_role.
  do 2 (eapply ensures_bind; [apply ensures_any|]; intros ? _).
  destruct (in_strs _ ks); [|now apply ensures_ret].
  apply ensures_try.
  - do 6 (eapply ensures_bind; [apply ensures_any|]; intros ? _).
    apply ensures_ret. intros k. now rewrite !reg_of_update by discriminate.
  - apply ensures_seq. now apply ensures_ret.
Qed.

(** The third loop leaves a role with a converted file and a true [reg]
    entry as it is. *)
Lemma init_role_keeps (sd : list (string * gmap string pyval)) ser d fn v fs :
  sd_get sd ser = Some d ->
  d !! "filename" = Some fn -> eq_str fn "None" = false ->
  d !! "reg" = Some v -> truthy v = true ->
  init_role sd ser fs = (Ok sd, fs, []).
Proof.
  intros Hd Hfn Hnone Hreg Htrue.
  unfold init_role, bind, getitem, getfield, has_key, ret.
  rewrite Hd, Hfn, (bool_decide_eq_true_2 (is_Some (Some fn))) by eauto.
  cbn [negb]. rewrite Hd, Hfn, Hnone, Hreg.
  rewrite (bool_decide_eq_true_2 (is_Some (Some v))) by eauto.
  cbn [negb]. now rewrite Htrue.
Qed.

(** After the third loop has passed over a role, its [reg] entry is [False]
    or is the true entry that it had. *)
Lemma init_role_reg (sd : list (string * gmap string pyval)) ser d :
  sd_get sd ser = Some d ->
  ensures (init_role sd ser)
    (fun sd' => reg_of sd' ser = Some (Some (PBool false))
                \/ (exists v, d !! "reg" = Some v /\ reg_of sd' ser = Some (Some v))).
Proof.
  intros Hd. unfold init_role.
  eapply ensures_bind; [apply ensures_getitem|]. intros d0 Hd0.
  assert (d0 = d) by congruence. subst d0.
  set (sd1 := if negb (has_key d "filename") then _ else sd).
  assert (Hreg1 : reg_of sd1 ser = Some (d !! "reg")).
  { subst sd1. destruct (negb _).
    - rewrite reg_of_update by discriminate. unfold reg_of. now rewrite Hd.
    - unfold reg_of. now rewrite Hd. }
  eapply ensures_bind; [apply ensures_getitem|]. intros d1 Hd1.
  eapply ensures_bind; [apply ensures_any|]. intros fn _.
  assert (Hd1reg : d1 !! "reg" = d !! "reg").
  { unfold reg_of in Hreg1. rewrite Hd1 in Hreg1. cbn in Hreg1. congruence. }
  eapply ensures_bind with
    (Q := fun b : bool => b = true \/ exists v, d !! "reg" = Some v).
  { destruct (eq_str fn "None"); [apply ensures_ret; now left|].
    unfold has_key. destruct (d1 !! "reg") as [v|] eqn:Hv.
    - rewrite bool_decide_eq_true_2 by eauto. cbn [negb].
      eapply ensures_bind; [apply ensures_any|]. intros ? _.
      apply ensures_ret. right. exists v. congruence.
    - rewrite bool_decide_eq_false_2 by (intros [? ?]; discriminate).
      apply ensures_ret. now left. }
  intros b Hb. destruct b.
  - apply ensures_ret. left. unfold reg_of.
    erewrite sd_get_update_eq; [|erewrite sd_get_update_eq; [reflexivity|];
                                  erewrite sd_get_update_eq; [reflexivity|exact Hd1]].
    cbn. now rewrite lookup_insert_eq.
  - destruct Hb as [Hb | (v & Hv)]; [discriminate|].
    apply ensures_ret. right. exists v. split; [exact Hv|]. now rewrite Hreg1, Hv.
Qed.

Lemma init_role_reg_other (sd : list (string * gmap string pyval)) ser k :
  k <> ser -> ensures (init_role sd ser) (fun sd' => reg_of sd' k = reg_of sd k).
Proof.
  intros Hne. eapply ensures_weaken; [apply (init_role_other sd ser k Hne)|].
  intros sd' Heq. unfold reg_of. now rewrite Heq.
Qed.

Lemma ensures_conj {A} (m : M A) (P Q : A -> Prop) :
  ensures m P -> ensures m Q -> ensures m (fun a => P a /\ Q a).
Proof. intros HP HQ fs a fs' ev Hrun. split; [eapply HP | eapply HQ]; exact Hrun. Qed.

Lemma no_borrower_get ks (sd : list (string * gmap string pyval)) k :
  no_borrower ks sd k ->
  exists d v, sd_get sd k = Some d /\ d !! "reg" = Some v /\ in_strs v ks = false.
Proof.
  intros (v & Hv & Hin). unfold reg_of in Hv.
  destruct (sd_get sd k) as [d|]; [|discriminate]. cbn in Hv.
  exists d, v. split; [reflexivity|]. split; [congruence | exact Hin].
Qed.

Lemma init_role_first ks (sd : list (string * gmap string pyval)) k d :
  sd_get sd k = Some d ->
  (forall v, d !! "reg" = Some v -> in_strs v ks = false) ->
  ensures (init_role sd k) (fun sd' => no_borrower ks sd' k).
Proof.
  intros Hd Hv. eapply ensures_weaken; [apply (init_role_reg sd k d Hd)|].
  intros sd' [Hf | (v & Hreg & Hr)].
  - exists (PBool false). now split.
  - exists v. split; [exact Hr | now apply Hv].
Qed.

Lemma init_role_no_borrower ks (sd : list (string * gmap string pyval)) k x :
  no_borrower ks sd k ->
  ensures (init_role sd x) (fun sd' => no_borrower ks sd' k).
Proof.
  intros Hn. destruct (string_dec k x) as [<- | Hne].
  - destruct (no_borrower_get _ _ _ Hn) as (d & v & Hd & Hreg & Hin).
    apply (init_role_first ks sd k d Hd). intros v' Hv'. congruence.
  - eapply ensures_weaken; [apply (init_role_reg_other sd x k Hne)|].
    intros sd' Heq. destruct Hn as (v & Hv & Hin). exists v. now rewrite Heq.
Qed.

Lemma init_role_keeps_role (sd : list (string * gmap string pyval)) x k d fn v :
  sd_get sd k = Some d ->
  d !! "filename" = Some fn -> eq_str fn "None" = false ->
  d !! "reg" = Some v -> truthy v = true ->
  ensures (init_role sd x) (fun sd' => sd_get sd' k = Some d).
Proof.
  intros Hd Hfn Hnone Hreg Htrue. destruct (string_dec k x) as [<- | Hne].
  - intros fs a fs' ev Hrun.
    rewrite (init_role_keeps sd k d fn v fs Hd Hfn Hnone Hreg Htrue) in Hrun.
    now inversion Hrun; subst.
  - eapply ensures_weaken; [apply (init_role_other sd x k Hne)|].
    intros sd' Heq. now rewrite Heq.
Qed.

(** After the third loop the source role does not borrow, and the borrower is
    as it was. *)
Lemma init_loop_prepares ks0 ks a b da db fn
    (sd : list (string * gmap string pyval)) :
  In a ks ->
  sd_get sd a = Some da ->
  (forall v, da !! "reg" = Some v -> in_strs v ks0 = false) ->
  sd_get sd b = Some db ->
  db !! "filename" = Some fn -> eq_str fn "None" = false ->
  db !! "reg" = Some (PStr a) -> a <> "" ->
  ensures (for_each ks init_role sd)
    (fun sd' => no_borrower ks0 sd' a /\ sd_get sd' b = Some db).
Proof.
  intros Hin Ha Hva Hb Hfn Hnone Hreg Hne.
  assert (Htrue : truthy (PStr a) = true) by (destruct a; [congruence | reflexivity]).
  apply (ensures_for_each_reach
           (fun s => (sd_get s a = Some da \/ no_borrower ks0 s a) /\ sd_get s b = Some db)
           (fun s => no_borrower ks0 s a /\ sd_get s b = Some db)
           init_role ks a Hin).
  - intros s x [Hs Hsb]. apply ensures_conj.
    + destruct Hs as [Hs | Hs].
      * destruct (string_dec a x) as [<- | Hax].
        -- eapply ensures_weaken; [apply (init_role_first ks0 s a da Hs Hva)|].
           intros sd' H. now right.
        -- eapply ensures_weaken; [apply (init_role_other s x a Hax)|].
           intros sd' Heq. left. now rewrite Heq.
      * eapply ensures_weaken; [apply (init_role_no_borrower ks0 s a x Hs)|].
        intros sd' H. now right.
    + eapply init_role_keeps_role; eassumption.
  - intros s x [Hs Hsb]. apply ensures_conj.
    + now apply init_role_no_borrower.
    + eapply init_role_keeps_role; eassumption.
  - intros s [Hs Hsb]. apply ensures_conj.
    + destruct Hs as [Hs | Hs].
      * now apply (init_role_first ks0 s a da).
      * now apply init_role_no_borrower.
    + eapply init_role_keeps_role; eassumption.
  - split; [now left | exact Hb].
Qed.

(** A geometric loop changes neither: the borrower's [reg] entry is no mode
    string, and the loop writes no [reg] entry. *)
Lemma geometric_loop_keeps mode guarded st dcm_dir repeat ks0 ks a b db
    (sd : list (string * gmap string pyval)) :
  In mode mode_names -> ~ In a mode_names ->
  db !! "reg" = Some (PStr a) ->
  no_borrower ks0 sd a /\ sd_get sd b = Some db ->
  ensures (for_each ks (geometric_role mode guarded st dcm_dir repeat) sd)
    (fun sd' => no_borrower ks0 sd' a /\ sd_get sd' b = Some db).
Proof.
  intros Hm Hna Hreg.
  apply (ensures_for_each
           (fun s => no_borrower ks0 s a /\ sd_get s b = Some db)).
  intros s x _ [(v & Hv & Hin) Hb]. apply ensures_conj.
  - eapply ensures_weaken; [apply geometric_role_reg|].
    intros sd' Heq. exists v. now rewrite Heq.
  - eapply ensures_weaken.
    + apply (geometric_role_frame mode guarded st dcm_dir repeat s x b).
      right. exists db, (PStr a). split; [exact Hb|]. split; [exact Hreg|].
      cbn. apply String.eqb_neq. intros ->. contradiction.
    + intros sd' Heq. now rewrite Heq.
Qed.

(** One pass of the last loop over the borrower: its transform becomes the
    one of the source, or the role stays as it is. *)
Lemma borrow_role_at ks dcm_dir repeat (sd : list (string * gmap string pyval))
    a b da db :
  sd_get sd a = Some da -> sd_get sd b = Some db ->
  db !! "reg" = Some (PStr a) ->
  ensures (borrow_role ks dcm_dir repeat sd b)
    (fun sd' => exists db', sd_get sd' b = Some db'
                  /\ db' !! "reg" = Some (PStr a)
                  /\ (db' = db \/ (is_Some (da !! "transform")
                                   /\ db' !! "transform" = da !! "transform"))).
Proof.
  intros Ha Hb Hreg. unfold borrow_role.
  eapply ensures_bind; [apply ensures_getitem|]. intros d Hd.
  assert (d = db) by congruence. subst d.
  eapply ensures_bind; [apply ensures_getfield|]. intros reg Hr.
  assert (reg = PStr a) by congruence. subst reg.
  destruct (in_strs (PStr a) ks).
  2:{ apply ensures_ret. exists db. auto. }
  apply ensures_try.
  - eapply ensures_bind; [apply ensures_as_str|]. intros other Ho.
    assert (other = a) by congruence. subst other.
    eapply ensures_bind; [apply ensures_getitem|]. intros dother Hdo.
    assert (dother = da) by congruence. subst dother.
    eapply ensures_bind; [apply ensures_getfield|]. intros t Ht.
    do 3 (eapply ensures_bind; [apply ensures_any|]; intros ? _).
    apply ensures_ret. eexists. split.
    { erewrite sd_get_update_eq; [reflexivity|].
      erewrite sd_get_update_eq; [reflexivity | exact Hb]. }
    split.
    + rewrite !lookup_insert_ne by discriminate. exact Hreg.
    + right. split; [now exists t|]. rewrite lookup_insert_eq. now rewrite Ht.
  - apply ensures_seq. apply ensures_ret. exists db. auto.
Qed.

Lemma borrow_loop_borrows ks0 ks dcm_dir repeat a b da db
    (sd : list (string * gmap string pyval)) :
  a <> b ->
  sd_get sd a = Some da ->
  (exists v, da !! "reg" = Some v /\ in_strs v ks0 = false) ->
  sd_get sd b = Some db ->
  db !! "reg" = Some (PStr a) ->
  db !! "transform" = None ->
  ensures (for_each ks (borrow_role ks0 dcm_dir repeat) sd)
    (fun sd' => sd_get sd' a = Some da
                /\ exists db', sd_get sd' b = Some db' /\ borrowed da db').
Proof.
  intros Hab Ha (v & Hv & Hin) Hb Hreg Hnone.
  eapply ensures_weaken.
  - apply (ensures_for_each
             (fun s => sd_get s a = Some da
                       /\ exists db', sd_get s b = Some db'
                                      /\ db' !! "reg" = Some (PStr a)
                                      /\ borrowed da db')).
    + intros s x _ (Hsa & db' & Hsb & Hr & Hbor). apply ensures_conj.
      * eapply ensures_weaken.
        -- apply (borrow_role_frame ks0 dcm_dir repeat s x a).
           right. exists da, v. auto.
        -- intros sd' Heq. now rewrite Heq.
      * destruct (string_dec b x) as [<- | Hbx].
        -- eapply ensures_weaken; [apply (borrow_role_at _ _ _ s a b da db' Hsa Hsb Hr)|].
           intros sd' (db2 & Hg & Hr2 & [-> | Hnew]).
           ++ exists db'. auto.
           ++ exists db2. split; [exact Hg|]. split; [exact Hr2|]. now right.
        -- eapply ensures_weaken.
           ++ apply (borrow_role_frame ks0 dcm_dir repeat s x b). now left.
           ++ intros sd' Heq. exists db'. rewrite Heq. auto.
    + split; [exact Ha|]. exists db. split; [exact Hb|]. split; [exact Hreg|]. now left.
  - intros sd' (Hsa & db' & Hsb & _ & Hbor). split; [exact Hsa|]. exists db'. auto.
Qed.

(** When the registration stage completes, a role [b] with a converted file
    whose [reg] entry is the name of another role [a] -- a name that is no
    mode string, of a role that does not itself borrow -- has no transform, or
    has exactly the transform of [a]. *)
Lemma reg_series_borrowed_transform
    (sd sd' : list (string * gmap string pyval)) repeat fs fs' ev a b da db fn :
  a <> b -> a <> "" -> ~ In a mode_names ->
  sd_get sd a = Some da ->
  (forall v, da !! "reg" = Some v -> in_strs v (sorted_keys sd) = false) ->
  sd_get sd b = Some db ->
  db !! "filename" = Some fn -> eq_str fn "None" = false ->
  db !! "reg" = Some (PStr a) ->
  db !! "transform" = None ->
  reg_series sd repeat fs = (Ok sd', fs', ev) ->
  exists da' db', sd_get sd' a = Some da' /\ sd_get sd' b = Some db'
                  /\ borrowed da' db'.
Proof.
  intros Hab Hne Hmode Ha Hva Hb Hfn Hnone Hreg Htr Hrun.
  revert fs sd' fs' ev Hrun.
  change (ensures (reg_series sd repeat)
            (fun sd' => exists da' db', sd_get sd' a = Some da'
                          /\ sd_get sd' b = Some db' /\ borrowed da' db')).
  unfold reg_series. apply ensures_seq.
  do 2 (eapply ensures_bind; [apply ensures_any|]; intros ? _).
  eapply ensures_bind; [apply ensures_any|]. intros dcm_dir _.
  eapply ensures_bind.
  { apply (init_loop_prepares (sorted_keys sd) (sorted_keys sd) a b da db fn sd);
      try assumption.
    eapply Permutation_in; [symmetry; apply sorted_keys_perm|].
    eapply sd_get_key, Ha. }
  intros sd1 H1.
  eapply ensures_bind;
    [eapply geometric_loop_keeps; [| exact Hmode | exact Hreg | exact H1]; cbn; tauto|].
  intros sd2 H2.
  eapply ensures_bind;
    [eapply geometric_loop_keeps; [| exact Hmode | exact Hreg | exact H2]; cbn; tauto|].
  intros sd3 H3.
  eapply ensures_bind;
    [eapply geometric_loop_keeps; [| exact Hmode | exact Hreg | exact H3]; cbn; tauto|].
  intros sd4 H4.
  eapply ensures_bind;
    [eapply geometric_loop_keeps; [| exact Hmode | exact Hreg | exact H4]; cbn; tauto|].
  intros sd5 H5.
  eapply ensures_bind;
    [eapply geometric_loop_keeps; [| exact Hmode | exact Hreg | exact H5]; cbn; tauto|].
  intros sd6 H6.
  eapply ensures_bind;
    [eapply geometric_loop_keeps; [| exact Hmode | exact Hreg | exact H6]; cbn; tauto|].
  intros sd7 [Hn7 Hb7].
  destruct (no_borrower_get _ _ _ Hn7) as (da7 & v & Ha7 & Hv7 & Hin7).
  eapply ensures_weaken.
  - apply (borrow_loop_borrows (sorted_keys sd) (sorted_keys sd) dcm_dir repeat a b da7 db sd7);
      eauto.
  - intros s (Hsa & db' & Hsb & Hbor). exists da7, db'. auto.
Qed.

End BorrowStage.

(** * Further properties of the stages *)

(** ** Events and files of a computation *)

Lemma emits_ret {A} (a : A) P : emits (ret a) P.
Proof. intros fs r fs' ev [= _ _ <-]. constructor. Qed.

Lemma emits_raise {A} (e : exn) P : emits (raise (A := A) e) P.
Proof. intros fs r fs' ev [= _ _ <-]. constructor. Qed.

Lemma emits_bind {A B} (m : M A) (k : A -> M B) P :
  emits m P -> (forall a, emits (k a) P) -> emits (bind m k) P.
Proof.
  intros Hm Hk fs r fs' ev. unfold bind.
  destruct (m fs) as [[[a|e] fs1] ev1] eqn:Hrun.
  - destruct (k a fs1) as [[r2 fs2] ev2] eqn:Hrun2. intros [= _ _ <-].
    apply Forall_app. split; [eapply Hm, Hrun | eapply Hk, Hrun2].
  - intros [= _ _ <-]. eapply Hm, Hrun.
Qed.

Lemma emits_try {A} (body handler : M A) P :
  emits body P -> emits handler P -> emits (try_except body handler) P.
Proof.
  intros Hb Hh fs r fs' ev. unfold try_except.
  destruct (body fs) as [[[a|e] fs1] ev1] eqn:Hrun.
  - intros [= _ _ <-]. eapply Hb, Hrun.
  - destruct (handler fs1) as [[r2 fs2] ev2] eqn:Hrun2. intros [= _ _ <-].
    apply Forall_app. split; [eapply Hb, Hrun | eapply Hh, Hrun2].
Qed.

Lemma emits_for_each {A S} (l : list A) (f : S -> A -> M S) P :
  (forall s x, emits (f s x) P) -> forall s, emits (for_each l f s) P.
Proof.
  intros Hf. induction l as [|x l IH]; intros s; cbn [for_each].
  - apply emits_ret.
  - apply emits_bind; [apply Hf | exact IH].
Qed.

Lemma emits_emit (e : event) (P : event -> Prop) : P e -> emits (emit e) P.
Proof. intros He fs r fs' ev [= _ _ <-]. now constructor. Qed.

Lemma emits_isfile p P : emits (isfile p) P.
Proof. intros fs r fs' ev [= _ _ <-]. constructor. Qed.

Lemma emits_getitem (sd : list (string * gmap string pyval)) k P : emits (getitem sd k) P.
Proof. unfold getitem. destruct (sd_get sd k); [apply emits_ret | apply emits_raise]. Qed.

Lemma emits_getfield (d : gmap string pyval) f P : emits (getfield d f) P.
Proof. unfold getfield. destruct (d !! f); [apply emits_ret | apply emits_raise]. Qed.

Lemma emits_as_str v P : emits (as_str v) P.
Proof. destruct v; simpl; first [apply emits_ret | apply emits_raise]. Qed.

Lemma emits_index_list {A} (l : list A) i P : emits (index_list l i) P.
Proof. unfold index_list. destruct (l !! i); [apply emits_ret | apply emits_raise]. Qed.

Lemma emits_run `{Tools} c (P : event -> Prop) : P (Run c) -> emits (run c) P.
Proof.
  intros Hc fs r fs' ev. unfold run.
  destruct (run_command c fs) as [[|] fs1]; intros [= _ _ <-]; now constructor.
Qed.

Lemma emits_run_output `{Tools} c (P : event -> Prop) : P (Run c) -> emits (run_output c) P.
Proof.
  intros Hc fs r fs' ev. unfold run_output.
  destruct (run_command c fs) as [[|] fs1]; intros [= _ _ <-]; now constructor.
Qed.

Lemma emits_weaken {A} (m : M A) (P Q : event -> Prop) :
  emits m P -> (forall e, P e -> Q e) -> emits m Q.
Proof. intros Hm HPQ fs r fs' ev Hrun. eapply Forall_impl; [eapply Hm, Hrun | exact HPQ]. Qed.

Lemma keeps_ret {A} (a : A) : keeps_files (ret a).
Proof. now intros fs r fs' ev [= _ <- _]. Qed.

Lemma keeps_raise {A} (e : exn) : keeps_files (raise (A := A) e).
Proof. now intros fs r fs' ev [= _ <- _]. Qed.

Lemma keeps_bind {A B} (m : M A) (k : A -> M B) :
  keeps_files m -> (forall a, keeps_files (k a)) -> keeps_files (bind m k).
Proof.
  intros Hm Hk fs r fs' ev. unfold bind.
  destruct (m fs) as [[[a|e] fs1] ev1] eqn:Hrun.
  - destruct (k a fs1) as [[r2 fs2] ev2] eqn:Hrun2. intros [= _ <- _].
    apply Hm in Hrun. apply Hk in Hrun2. congruence.
  - intros [= _ <- _]. eapply Hm, Hrun.
Qed.

Lemma keeps_try {A} (body handler : M A) :
  keeps_files body -> keeps_files handler -> keeps_files (try_except body handler).
Proof.
  intros Hb Hh fs r fs' ev. unfold try_except.
  destruct (body fs) as [[[a|e] fs1] ev1] eqn:Hrun.
  - intros [= _ <- _]. eapply Hb, Hrun.
  - destruct (handler fs1) as [[r2 fs2] ev2] eqn:Hrun2. intros [= _ <- _].
    apply Hb in Hrun. apply Hh in Hrun2. congruence.
Qed.

Lemma keeps_for_each {A S} (l : list A) (f : S -> A -> M S) :
  (forall s x, keeps_files (f s x)) -> forall s, keeps_files (for_each l f s).
Proof.
  intros Hf. induction l as [|x l IH]; intros s; cbn [for_each].
  - apply keeps_ret.
  - apply keeps_bind; [apply Hf | exact IH].
Qed.

Lemma keeps_emit (e : event) : keeps_files (emit e).
Proof. now intros fs r fs' ev [= _ <- _]. Qed.

Lemma keeps_isfile p : keeps_files (isfile p).
Proof. now intros fs r fs' ev [= _ <- _]. Qed.

Lemma keeps_getitem (sd : list (string * gmap string pyval)) k : keeps_files (getitem sd k).
Proof. unfold getitem. destruct (sd_get sd k); [apply keeps_ret | apply keeps_raise]. Qed.

Lemma keeps_getfield (d : gmap string pyval) f : keeps_files (getfield d f).
Proof. unfold getfield. destruct (d !! f); [apply keeps_ret | apply keeps_raise]. Qed.

Lemma keeps_as_str v : keeps_files (as_str v).
Proof. destruct v; simpl; first [apply keeps_ret | apply keeps_raise]. Qed.

Lemma keeps_index_list {A} (l : list A) i : keeps_files (index_list l i).
Proof. unfold index_list. destruct (l !! i); [apply keeps_ret | apply keeps_raise]. Qed.

(** One step through a computation for [emits] and for [keeps_files]. *)
Ltac emits_step :=
  first
    [ apply emits_ret | apply emits_raise | apply emits_isfile | apply emits_getitem
    | apply emits_getfield | apply emits_as_str | apply emits_index_list
    | apply emits_emit; simpl; tauto
    | apply emits_run; simpl; tauto
    | apply emits_run_output; simpl; tauto
    | apply emits_bind; [|intros ?]
    | apply emits_try
    | apply emits_for_each; intros ? ? ].

Ltac keeps_step :=
  first
    [ apply keeps_ret | apply keeps_raise | apply keeps_isfile | apply keeps_getitem
    | apply keeps_getfield | apply keeps_as_str | apply keeps_index_list
    | apply keeps_emit
    | apply keeps_bind; [|intros ?]
    | apply keeps_try
    | apply keeps_for_each; intros ? ? ].

Ltac split_cases :=
  match goal with
  | |- context [if ?b then _ else _] => destruct b
  | |- context [match ?x with _ => _ end] => destruct x
  end.

(** ** The series matcher *)

Section Matcher.
Context {regex : Regex}.

(** The loop of [substr_list] over the AND-groups, for one description. *)
Lemma substr_groups_seen (all_match : list string -> bool) (none_excluded : bool) (ind : nat)
    (substrs : list (list string)) (inds : list nat) :
  ind ∈ inds ->
  fold_left
    (fun inds substrlist =>
       if all_match substrlist then
         if none_excluded then
           if negb (bool_decide (ind ∈ inds)) then inds ++ [ind] else inds
         else inds
       else inds)
    substrs inds = inds.
Proof.
  intros Hin. induction substrs as [|g substrs IH]; [reflexivity|].
  cbn [fold_left]. rewrite (bool_decide_eq_true_2 _ Hin). cbn [negb].
  destruct (all_match g); [destruct none_excluded|]; exact IH.
Qed.

Lemma substr_groups_new (all_match : list string -> bool) (none_excluded : bool) (ind : nat)
    (substrs : list (list string)) (inds : list nat) :
  ind ∉ inds ->
  fold_left
    (fun inds substrlist =>
       if all_match substrlist then
         if none_excluded then
           if negb (bool_decide (ind ∈ inds)) then inds ++ [ind] else inds
         else inds
       else inds)
    substrs inds
  = if existsb all_match substrs && none_excluded then inds ++ [ind] else inds.
Proof.
  intros Hnin. induction substrs as [|g substrs IH]; [reflexivity|].
  cbn [fold_left existsb]. rewrite (bool_decide_eq_false_2 _ Hnin). cbn [negb].
  destruct (all_match g); cbn [orb].
  - destruct none_excluded; cbn [andb].
    + apply (substr_groups_seen all_match true). set_solver.
    + rewrite IH. now rewrite andb_false_r.
  - exact IH.
Qed.

Lemma substr_list_from (substrs : list (list string)) (substrnot : list string)
    (strings : list string) :
  forall (n : nat) (inds : list nat),
    Forall (fun i => (i < n)%nat) inds ->
    fold_left
      (fun inds '(ind, str) =>
         fold_left
           (fun inds substrlist =>
              if forallb (fun item => re_search item str) substrlist then
                if negb (existsb (fun item2 => re_search item2 str) substrnot) then
                  if negb (bool_decide (ind ∈ inds)) then inds ++ [ind] else inds
                else inds
              else inds)
           substrs inds)
      (enumerate_from n strings) inds
    = inds ++ map fst (List.filter (fun p => matches substrs substrnot (snd p))
                         (enumerate_from n strings)).
Proof.
  induction strings as [|str strings IH]; intros n inds Hlt.
  - cbn. now rewrite app_nil_r.
  - cbn [enumerate_from fold_left List.filter snd].
    rewrite (substr_groups_new (fun substrlist => forallb (fun item => re_search item str) substrlist)
               (negb (existsb (fun item2 => re_search item2 str) substrnot))).
    2:{ intros Hin. rewrite Forall_forall in Hlt.
        specialize (Hlt n Hin). lia. }
    fold (matches substrs substrnot str). destruct (matches substrs substrnot str).
    + rewrite IH.
      * cbn [map fst]. now rewrite <- app_assoc.
      * apply Forall_app. split; [|repeat constructor].
        eapply Forall_impl; [exact Hlt|]. cbn. lia.
    + apply IH. eapply Forall_impl; [exact Hlt|]. cbn. lia.
Qed.

(** [substr_list] returns the indices of the descriptions that match, in
    ascending order and each of them once: it is a filter of the enumerated
    descriptions. *)
Theorem substr_list_filter (strings : list string) (substrs : list (list string))
    (substrnot : list string) :
  substr_list strings substrs substrnot
  = map fst (List.filter (fun p => matches substrs substrnot (snd p))
               (enumerate_from 0 strings)).
Proof.
  unfold substr_list. now rewrite substr_list_from by constructor.
Qed.

End Matcher.

Section Keeper.
Context {floats : PyFloat}.

Lemma tie_break_runs (hdrs : list header) first others fs :
  Forall (fun i => is_Some (hdrs !! i)) (first :: others) ->
  exists number,
    tie_break hdrs (first :: others) fs
    = (Ok (fold_left (spec_step hdrs) others first, number), fs, []).
Proof.
  intros Hall. inversion Hall as [|? ? [h Hfirst] Hothers]; subst.
  unfold tie_break. cbn [enumerate_from for_each].
  unfold bind at 1. rewrite (keeper_step_first hdrs (0%nat, 0%nat) first h fs Hfirst).
  destruct (tie_break_loop hdrs others 2 first 1%nat fs) as [number Hloop];
    [lia | eauto | assumption|].
  rewrite Hloop. now exists number.
Qed.

Lemma spec_step_choice (hdrs : list header) keeper i :
  spec_step hdrs keeper i = keeper \/ spec_step hdrs keeper i = i.
Proof.
  unfold spec_step. destruct (hdrs !! keeper); [|now left].
  destruct (hdrs !! i); [|now left]. destruct (replaces _ _); auto.
Qed.

Lemma spec_fold_among (hdrs : list header) others :
  forall first, In (fold_left (spec_step hdrs) others first) (first :: others).
Proof.
  induction others as [|i others IH]; intros first; cbn [fold_left].
  - now left.
  - destruct (IH (spec_step hdrs first i)) as [H | H].
    + rewrite <- H. destruct (spec_step_choice hdrs first i) as [-> | ->];
        [now left | right; now left].
    + right. now right.
Qed.

Lemma spec_step_count (hdrs : list header) keeper i ck ci :
  image_count hdrs keeper = Some ck ->
  image_count hdrs i = Some ci ->
  image_count hdrs (spec_step hdrs keeper i) = Some (Z.max ck ci).
Proof.
  unfold image_count, spec_step.
  destruct (hdrs !! keeper) as [hk|] eqn:Hk; [|discriminate].
  destruct (hdrs !! i) as [hi|] eqn:Hi; [|discriminate].
  intros Hck Hci. unfold replaces. rewrite Hck, Hci.
  destruct (ci >? ck) eqn:Hgt; cbn [orb].
  - rewrite Hi, Hci. f_equal. apply Z.gtb_gt in Hgt. lia.
  - destruct (ci =? ck) eqn:Heq; cbn [andb].
    + apply Z.eqb_eq in Heq. subst ci. rewrite Z.max_id.
      destruct (later_than hi hk); [now rewrite Hi | now rewrite Hk].
    + rewrite Hk, Hck. f_equal. rewrite Z.gtb_ltb in Hgt. apply Z.ltb_ge in Hgt. lia.
Qed.

Lemma spec_fold_count (hdrs : list header) others :
  forall keeper ck,
    image_count hdrs keeper = Some ck ->
    Forall (fun i => is_Some (image_count hdrs i)) others ->
    exists c,
      image_count hdrs (fold_left (spec_step hdrs) others keeper) = Some c
      /\ ck <= c
      /\ Forall (fun i => exists ci, image_count hdrs i = Some ci /\ ci <= c) others.
Proof.
  induction others as [|i others IH]; intros keeper ck Hk Hall; cbn [fold_left].
  - exists ck. split; [exact Hk|]. split; [lia | constructor].
  - inversion Hall as [|? ? [ci Hi] Hothers]; subst.
    destruct (IH (spec_step hdrs keeper i) (Z.max ck ci)) as (c & Hc & Hle & Hrest);
      [now apply spec_step_count | assumption|].
    exists c. split; [exact Hc|]. split; [lia|].
    constructor; [|exact Hrest]. exists ci. split; [exact Hi | lia].
Qed.

Lemma image_count_header (hdrs : list header) i :
  is_Some (image_count hdrs i) -> is_Some (hdrs !! i).
Proof. unfold image_count. destruct (hdrs !! i); [eauto | intros [? ?]; discriminate]. Qed.

(** When every candidate has a header with a number of images, the tie-break
    keeps a candidate with the greatest number of images. *)
Theorem keeper_has_most_images (hdrs : list header) (inds : list nat) fs :
  inds <> [] ->
  Forall (fun i => is_Some (image_count hdrs i)) inds ->
  exists keeper number c,
    tie_break hdrs inds fs = (Ok (keeper, number), fs, [])
    /\ In keeper inds
    /\ image_count hdrs keeper = Some c
    /\ Forall (fun i => exists ci, image_count hdrs i = Some ci /\ ci <= c) inds.
Proof.
  intros Hne Hall. destruct inds as [|first others]; [contradiction|].
  destruct (tie_break_runs hdrs first others fs) as [number Hrun].
  { eapply Forall_impl; [exact Hall|]. intros i. apply image_count_header. }
  inversion Hall as [|? ? [cf Hfirst] Hothers]; subst.
  destruct (spec_fold_count hdrs others first cf Hfirst Hothers) as (c & Hc & Hle & Hrest).
  exists (fold_left (spec_step hdrs) others first), number, c.
  split; [exact Hrun|]. split; [apply spec_fold_among|]. split; [exact Hc|].
  constructor; [|exact Hrest]. exists cf. split; [exact Hfirst | exact Hle].
Qed.



End Keeper.

(** ** Which entries of the bundle a stage writes *)

Lemma writes_only_refl fields (sd : list (string * gmap string pyval)) :
  writes_only fields sd sd.
Proof. split; [reflexivity|]. intros k d' Hd'. exists d'. auto. Qed.

Lemma writes_only_trans fields (sd1 sd2 sd3 : list (string * gmap string pyval)) :
  writes_only fields sd1 sd2 -> writes_only fields sd2 sd3 -> writes_only fields sd1 sd3.
Proof.
  intros [Hk12 H12] [Hk23 H23]. split; [congruence|].
  intros k d3 Hd3. destruct (H23 k d3 Hd3) as (d2 & Hd2 & Heq23).
  destruct (H12 k d2 Hd2) as (d1 & Hd1 & Heq12).
  exists d1. split; [exact Hd1|]. intros f Hf. rewrite Heq23, Heq12 by assumption. reflexivity.
Qed.

Lemma writes_only_update fields (sd : list (string * gmap string pyval)) k f v :
  In f fields -> writes_only fields sd (sd_update sd k f v).
Proof.
  intros Hf. split; [apply keys_sd_update|].
  intros k' d'. rewrite sd_get_update.
  destruct (String.eqb k k').
  - destruct (sd_get sd k') as [d|]; [|discriminate]. cbn. intros [= <-].
    exists d. split; [reflexivity|]. intros f' Hf'.
    apply lookup_insert_ne. intros ->. contradiction.
  - intros Hd'. exists d'. auto.
Qed.

Ltac writes_tac :=
  repeat match goal with |- context [if ?b then _ else _] => destruct b end;
  repeat (eapply writes_only_trans; [|apply writes_only_update; simpl; tauto]);
  apply writes_only_refl.

Lemma ensures_writes_loop {A} fields (f : list (string * gmap string pyval) -> A -> M _)
    (l : list A) (sd : list (string * gmap string pyval)) :
  (forall s x, ensures (f s x) (writes_only fields s)) ->
  ensures (for_each l f sd) (writes_only fields sd).
Proof.
  intros Hf. apply (ensures_for_each (writes_only fields sd)).
  - intros s x _ Hs. eapply ensures_weaken; [apply Hf|].
    intros s' Hs'. now apply (writes_only_trans fields sd s s').
  - apply writes_only_refl.
Qed.

(** Walks through a computation whose intermediate values do not matter. *)
Ltac ensures_walk :=
  repeat first
    [ apply ensures_ret
    | apply ensures_raise
    | apply ensures_seq
    | apply ensures_try
    | eapply ensures_bind; [apply ensures_any|]; intros ? _
    | match goal with
      | |- ensures (if ?b then _ else _) _ => destruct b
      | |- ensures (match ?x with _ => _ end) _ => destruct x
      end ].

Section MatcherFrame.
Context {regex : Regex} {floats : PyFloat}.

Lemma filter_role_writes dicoms hdrs series dirs (sd : list (string * gmap string pyval)) srs :
  ensures (filter_role dicoms hdrs series dirs sd srs)
    (writes_only ["dicoms"; "hdrs"; "series"; "dirs"] sd).
Proof. unfold filter_role. ensures_walk; writes_tac. Qed.

Lemma filter_role_other dicoms hdrs series dirs (sd : list (string * gmap string pyval)) srs k :
  k <> srs ->
  ensures (filter_role dicoms hdrs series dirs sd srs) (fun sd' => sd_get sd' k = sd_get sd k).
Proof.
  intros Hne. unfold filter_role.
  ensures_walk; rewrite ?sd_get_update_ne by congruence; reflexivity.
Qed.

Lemma filter_role_no_terms dicoms hdrs series dirs (sd : list (string * gmap string pyval))
    srs d fs :
  sd_get sd srs = Some d ->
  has_key d "or" && has_key d "not" = false ->
  filter_role dicoms hdrs series dirs sd srs fs = (Ok sd, fs, []).
Proof.
  intros Hd Hno. unfold filter_role, getitem. now rewrite Hd, bind_ret_l, Hno.
Qed.

Lemma choose_keeper_quiet hdrs series inds :
  keeps_files (choose_keeper hdrs series inds)
  /\ emits (choose_keeper hdrs series inds) is_log.
Proof.
  assert (Hstep : forall st ni, keeps_files (keeper_step hdrs st ni)
                                /\ emits (keeper_step hdrs st ni) is_log).
  { intros [keeper number] [n i]. unfold keeper_step.
    destruct (n =? 1)%nat; split;
      repeat first [keeps_step | emits_step | split_cases]. }
  assert (Htie : forall l, keeps_files (tie_break hdrs l) /\ emits (tie_break hdrs l) is_log).
  { intros l. unfold tie_break. split.
    - apply keeps_for_each. intros s x. apply Hstep.
    - apply emits_for_each. intros s x. apply Hstep. }
  unfold choose_keeper. split.
  - destruct inds as [|i [|j rest]];
      repeat first [apply Htie | keeps_step | split_cases].
  - destruct inds as [|i [|j rest]];
      repeat first [apply Htie | emits_step | split_cases].
Qed.

Lemma as_strs_quiet l : keeps_files (as_strs l) /\ emits (as_strs l) is_log.
Proof.
  induction l as [|v l [IHk IHe]]; cbn [as_strs]; split;
    repeat first [assumption | keeps_step | emits_step].
Qed.

Lemma as_str_list_quiet v : keeps_files (as_str_list v) /\ emits (as_str_list v) is_log.
Proof.
  destruct v; cbn [as_str_list]; try apply as_strs_quiet; split; first [keeps_step | emits_step].
Qed.

Lemma as_str_lists_quiet l : keeps_files (as_str_lists l) /\ emits (as_str_lists l) is_log.
Proof.
  induction l as [|v l [IHk IHe]]; cbn [as_str_lists]; split;
    repeat first [assumption | apply as_str_list_quiet | keeps_step | emits_step].
Qed.

Lemma filter_role_quiet dicoms hdrs series dirs (sd : list (string * gmap string pyval)) srs :
  keeps_files (filter_role dicoms hdrs series dirs sd srs)
  /\ emits (filter_role dicoms hdrs series dirs sd srs) is_log.
Proof.
  unfold filter_role. split.
  - repeat first [ apply choose_keeper_quiet | apply as_str_lists_quiet
                 | apply as_str_list_quiet
                 | keeps_step | split_cases ].
  - repeat first [ apply choose_keeper_quiet | apply as_str_lists_quiet
                 | apply as_str_list_quiet
                 | emits_step | split_cases ].
Qed.

(** The matcher keeps the roles and their order, writes no entry of a role
    other than [dicoms], [hdrs], [series] and [dirs], leaves a role without
    both search terms as it is, touches no file and emits nothing but lines
    of the log. *)
Theorem filter_series_frame dicoms hdrs series dirs (sd : list (string * gmap string pyval)) :
  keeps_files (filter_series dicoms hdrs series dirs sd)
  /\ emits (filter_series dicoms hdrs series dirs sd) is_log
  /\ ensures (filter_series dicoms hdrs series dirs sd)
       (fun sd' =>
          writes_only ["dicoms"; "hdrs"; "series"; "dirs"] sd sd'
          /\ forall k d, sd_get sd k = Some d ->
                         has_key d "or" && has_key d "not" = false ->
                         sd_get sd' k = Some d).
Proof.
  unfold filter_series. split; [|split].
  - apply keeps_for_each. intros s x. apply filter_role_quiet.
  - apply emits_for_each. intros s x. apply filter_role_quiet.
  - apply ensures_conj.
    + apply ensures_writes_loop. intros s x. apply filter_role_writes.
    + intros fs sd' fs' ev Hrun k d Hd Hno. revert fs sd' fs' ev Hrun.
      change (ensures (for_each (keys sd) (filter_role dicoms hdrs series dirs) sd)
                (fun sd' => sd_get sd' k = Some d)).
      apply (ensures_for_each (fun s => sd_get s k = Some d)); [|exact Hd].
      intros s x _ Hs. destruct (string_dec k x) as [<- | Hne].
      * intros fs a fs' ev Hrun.
        rewrite (filter_role_no_terms dicoms hdrs series dirs s k d fs Hs Hno) in Hrun.
        now inversion Hrun; subst.
      * eapply ensures_weaken; [apply (filter_role_other _ _ _ _ s x k Hne)|].
        intros s' Heq. now rewrite Heq.
Qed.

End MatcherFrame.

(** ** The registration stage as a whole *)

Section RegistrationStage.
Context {tools : Tools}.

Lemma init_role_writes (sd : list (string * gmap string pyval)) ser :
  ensures (init_role sd ser) (writes_only ["filename"; "filename_reg"; "transform"; "reg"] sd).
Proof. unfold init_role. ensures_walk; writes_tac. Qed.

Lemma geometric_role_writes mode guarded st dcm_dir repeat
    (sd : list (string * gmap string pyval)) ser :
  ensures (geometric_role mode guarded st dcm_dir repeat sd ser)
    (writes_only ["filename"; "filename_reg"; "transform"; "reg"] sd).
Proof. unfold geometric_role. ensures_walk; writes_tac. Qed.

Lemma borrow_role_writes ks dcm_dir repeat (sd : list (string * gmap string pyval)) ser :
  ensures (borrow_role ks dcm_dir repeat sd ser)
    (writes_only ["filename"; "filename_reg"; "transform"; "reg"] sd).
Proof. unfold borrow_role. ensures_walk; writes_tac. Qed.

(** The registration stage keeps the roles and their order, and writes no
    entry of a role other than [filename], [filename_reg], [transform] and
    [reg]: the search terms, the target, the options and the flags of a role
    are those it had. *)
Theorem reg_series_frame (sd : list (string * gmap string pyval)) repeat :
  ensures (reg_series sd repeat)
    (writes_only ["filename"; "filename_reg"; "transform"; "reg"] sd).
Proof.
  unfold reg_series. apply ensures_seq.
  do 3 (eapply ensures_bind; [apply ensures_any|]; intros ? _).
  eapply ensures_bind; [apply ensures_writes_loop; intros s x; apply init_role_writes|].
  intros sd1 H1.
  do 6 (eapply ensures_bind;
        [apply ensures_writes_loop; intros s x; apply geometric_role_writes|];
        let s := fresh "sd" in let H := fresh "H" in
        intros s H; pose proof (writes_only_trans _ _ _ _ H1 H) as H'; clear H1 H;
        rename H' into H1).
  eapply ensures_weaken; [apply ensures_writes_loop; intros s x; apply borrow_role_writes|].
  intros sd' H. exact (writes_only_trans _ _ _ _ H1 H).
Qed.

Lemma registration_emits st moving template work_dir option repeat flag :
  emits (registration st moving template work_dir option repeat) (registration_event flag).
Proof. unfold registration. repeat first [emits_step | split_cases]. Qed.

Lemma ants_apply_one_emits reference interp tl work_dir invert repeat mvng :
  emits (ants_apply_one reference interp tl work_dir invert repeat mvng)
    (registration_event invert).
Proof. unfold ants_apply_one. repeat first [emits_step | split_cases]. Qed.

Lemma ants_apply_loop_emits reference interp tl work_dir invert repeat moving :
  emits (ants_apply_loop reference interp tl work_dir invert repeat moving)
    (registration_event invert).
Proof.
  induction moving as [|mvng rest IH]; cbn [ants_apply_loop].
  - apply emits_ret.
  - repeat first [apply ants_apply_one_emits | exact IH | emits_step].
Qed.

Lemma ants_apply_emits moving reference interp t work_dir invert repeat :
  emits (ants_apply moving reference interp t work_dir invert repeat)
    (registration_event invert).
Proof.
  unfold ants_apply. apply emits_bind; [apply ants_apply_loop_emits|].
  intros outs. destruct outs as [|out [|out' outs]]; apply emits_ret.
Qed.

Lemma isfile_v_emits v P : emits (isfile_v v) P.
Proof. unfold isfile_v. repeat emits_step. Qed.

(** The registration stage emits lines of the log and runs of the
    registration engine and of the transform application, nothing else: it
    writes, renames and removes no file itself.  Every transform application
    is run with all its invert flags equal to [repeat], which the stage
    passes to [ants_apply] in the position of [invert_bool]. *)
Theorem reg_series_applies_with_repeat_as_invert
    (sd : list (string * gmap string pyval)) repeat :
  emits (reg_series sd repeat) (registration_event repeat).
Proof.
  unfold reg_series, init_role, geometric_role, borrow_role.
  repeat first [ apply registration_emits | apply ants_apply_emits | apply isfile_v_emits
               | emits_step | split_cases ].
Qed.

Lemma in_strs_perm v (l l' : list string) : l ≡ₚ l' -> in_strs v l = in_strs v l'.
Proof.
  intros Hp. destruct v; try reflexivity. cbn.
  apply eq_true_iff_eq. rewrite !existsb_exists.
  split; intros (x & Hx & Heq); exists x; (split; [|exact Heq]).
  - eapply Permutation_in; [exact Hp | exact Hx].
  - eapply Permutation_in; [symmetry; exact Hp | exact Hx].
Qed.

(** A role with a converted file whose [reg] entry is true, is none of the six
    mode strings and is no name of a role is left as it is by the whole
    stage: no registered filename is recorded for it, and nothing is
    reported. *)
Theorem reg_series_ignores_unknown_mode (sd : list (string * gmap string pyval))
    repeat k d fn v :
  sd_get sd k = Some d ->
  d !! "filename" = Some fn -> eq_str fn "None" = false ->
  d !! "reg" = Some v -> truthy v = true ->
  Forall (fun mode => eq_str v mode = false) mode_names ->
  in_strs v (keys sd) = false ->
  ensures (reg_series sd repeat) (fun sd' => sd_get sd' k = Some d).
Proof.
  intros Hd Hfn Hnone Hreg Htrue Hmodes Hkeys.
  assert (Hks : in_strs v (sorted_keys sd) = false).
  { rewrite (in_strs_perm v _ _ (sorted_keys_perm sd)). exact Hkeys. }
  assert (Hgeo : forall mode guarded st dcm_dir s,
             In mode mode_names -> sd_get s k = Some d ->
             ensures (for_each (sorted_keys sd) (geometric_role mode guarded st dcm_dir repeat) s)
               (fun sd' => sd_get sd' k = Some d)).
  { intros mode guarded st dcm_dir s Hmode Hs.
    apply (ensures_for_each (fun s => sd_get s k = Some d)); [|exact Hs].
    intros s0 x _ Hs0. eapply ensures_weaken.
    - apply (geometric_role_frame mode guarded st dcm_dir repeat s0 x k).
      right. exists d, v. split; [exact Hs0|]. split; [exact Hreg|].
      rewrite Forall_forall in Hmodes. apply Hmodes. now apply list_elem_of_In.
    - intros sd' Heq. now rewrite Heq. }
  unfold reg_series. apply ensures_seq.
  do 2 (eapply ensures_bind; [apply ensures_any|]; intros ? _).
  eapply ensures_bind; [apply ensures_any|]. intros dcm_dir _.
  eapply ensures_bind.
  { apply (ensures_for_each (fun s => sd_get s k = Some d)); [|exact Hd].
    intros s x _ Hs. eapply init_role_keeps_role; eassumption. }
  intros sd1 H1.
  eapply ensures_bind; [apply Hgeo; [cbn; tauto | exact H1]|]. intros sd2 H2.
  eapply ensures_bind; [apply Hgeo; [cbn; tauto | exact H2]|]. intros sd3 H3.
  eapply ensures_bind; [apply Hgeo; [cbn; tauto | exact H3]|]. intros sd4 H4.
  eapply ensures_bind; [apply Hgeo; [cbn; tauto | exact H4]|]. intros sd5 H5.
  eapply ensures_bind; [apply Hgeo; [cbn; tauto | exact H5]|]. intros sd6 H6.
  eapply ensures_bind; [apply Hgeo; [cbn; tauto | exact H6]|]. intros sd7 H7.
  apply (ensures_for_each (fun s => sd_get s k = Some d)); [|exact H7].
  intros s x _ Hs. eapply ensures_weaken.
  - apply (borrow_role_frame (sorted_keys sd) dcm_dir repeat s x k).
    right. exists d, v. auto.
  - intros sd' Heq. now rewrite Heq.
Qed.

End RegistrationStage.

Lemma reg_series_ignores_unknown_mode_witness :
  sd_get (bundle_after (reg_series (tools := ideal_tools) translation_bundle false
                          translation_files)) "T1"
  = Some (role [("filename", PStr "/data/7/7_T1.nii.gz"); ("reg", PStr "translation");
                ("reg_target", PStr "T2FS")]).
Proof.
  refine (reg_series_ignores_unknown_mode (tools := ideal_tools) translation_bundle false "T1"
            (role [("filename", PStr "/data/7/7_T1.nii.gz"); ("reg", PStr "translation");
                   ("reg_target", PStr "T2FS")])
            (PStr "/data/7/7_T1.nii.gz") (PStr "translation") _ _ _ _ _ _ _
            translation_files _
            (files_of (reg_series (tools := ideal_tools) translation_bundle false
                         translation_files))
            (events_of (reg_series (tools := ideal_tools) translation_bundle false
                          translation_files)) _).
  - reflexivity.
  - reflexivity.
  - reflexivity.
  - reflexivity.
  - reflexivity.
  - repeat constructor.
  - reflexivity.
  - apply returned_eta. vm_compute. reflexivity.
Defined.

(** ** The case bundle that [make_serdict] builds *)

Lemma sd_get_map (g : gmap string pyval -> gmap string pyval)
    (sd : list (string * gmap string pyval)) k :
  sd_get (map (fun '(key, d) => (key, g d)) sd) k = g <$> sd_get sd k.
Proof.
  induction sd as [|[k' d'] sd IH]; [reflexivity|].
  cbn [map sd_get]. destruct (String.eqb k' k); [reflexivity | exact IH].
Qed.

Lemma substitute_atlas_target reg_atlas (d : gmap string pyval) v :
  reg_atlas <> "atlas" ->
  substitute_atlas reg_atlas d !! "reg_target" = Some v -> eq_str v "atlas" = false.
Proof.
  intros Hne. unfold substitute_atlas.
  destruct (d !! "reg_target") as [t|] eqn:Ht.
  - destruct (eq_str t "atlas") eqn:Heq.
    + rewrite lookup_insert_eq. intros [= <-]. cbn. now apply String.eqb_neq.
    + rewrite Ht. now intros [= <-].
  - rewrite Ht. discriminate.
Qed.

(** Every bundle that [make_serdict] returns has the entry ["info"] with the
    filename "None", the DICOM directory and, as id, the name of the directory
    above it; a role ["info"] of the parameter file is replaced by it.  Every
    other role is the configured one, with the target "atlas" replaced by the
    path of the atlas. *)
Theorem make_serdict_lookup reg_atlas dcm_dir (sdict : list (string * gmap string pyval)) k :
  sd_get (make_serdict reg_atlas dcm_dir sdict) k
  = if String.eqb k "info"
    then Some (<["filename" := PStr "None"]>
                 (<["dcmdir" := PStr dcm_dir]>
                    (<["id" := PStr (basename (dirname dcm_dir))]> ∅)))
    else substitute_atlas reg_atlas <$> sd_get sdict k.
Proof.
  unfold make_serdict. rewrite sd_get_set, String.eqb_sym.
  destruct (String.eqb k "info"); [reflexivity|]. apply sd_get_map.
Qed.

(** When the path of the atlas is not the word "atlas" itself, no role of the
    bundle of [make_serdict] has the target "atlas" any more, so the rule of
    the registration stage that puts such roles first moves no role: the
    order of the stage is the sorted order of the names, with the roles
    flagged [reg_last] moved to the end. *)
Theorem make_serdict_hides_atlas reg_atlas dcm_dir (sdict : list (string * gmap string pyval)) :
  reg_atlas <> "atlas" ->
  (forall k, targets_atlas (make_serdict reg_atlas dcm_dir sdict) k = false)
  /\ atlas_first (make_serdict reg_atlas dcm_dir sdict)
     = py_sorted (keys (make_serdict reg_atlas dcm_dir sdict))
  /\ sorted_keys (make_serdict reg_atlas dcm_dir sdict)
     = List.filter (fun k => negb (flagged_last (make_serdict reg_atlas dcm_dir sdict) k))
         (py_sorted (keys (make_serdict reg_atlas dcm_dir sdict)))
       ++ List.filter (flagged_last (make_serdict reg_atlas dcm_dir sdict))
            (py_sorted (keys (make_serdict reg_atlas dcm_dir sdict))).
Proof.
  intros Hne.
  assert (Hno : forall k, targets_atlas (make_serdict reg_atlas dcm_dir sdict) k = false).
  { intros k. unfold targets_atlas, make_serdict. rewrite sd_get_set, String.eqb_sym.
    destruct (String.eqb k "info"); [reflexivity|]. rewrite sd_get_map.
    destruct (sd_get sdict k) as [d|]; [|reflexivity]. cbn.
    destruct (substitute_atlas reg_atlas d !! "reg_target") as [v|] eqn:Hv; [|reflexivity].
    eapply substitute_atlas_target; eassumption. }
  assert (Hfirst : atlas_first (make_serdict reg_atlas dcm_dir sdict)
                   = py_sorted (keys (make_serdict reg_atlas dcm_dir sdict))).
  { rewrite atlas_first_eq.
    set (l := py_sorted _). clearbody l.
    induction l as [|x l IH]; [reflexivity|].
    cbn [List.filter]. rewrite Hno. cbn [negb]. cbn [List.filter] in IH.
    destruct (List.filter _ l) eqn:Hf in IH |- *.
    - cbn [rev app] in IH |- *. now rewrite IH.
    - exfalso. assert (Hin : In s (List.filter (targets_atlas (make_serdict reg_atlas dcm_dir sdict)) l))
        by (rewrite Hf; now left).
      apply filter_In in Hin as [_ Hin]. rewrite Hno in Hin. discriminate. }
  split; [exact Hno|]. split; [exact Hfirst|].
  now rewrite sorted_keys_eq, Hfirst.
Qed.

Lemma make_serdict_hides_atlas_witness :
  atlas_first (make_serdict "/atlas/breast.nii.gz" "/data/7/dicom" atlas_config)
  = py_sorted (keys (make_serdict "/atlas/breast.nii.gz" "/data/7/dicom" atlas_config)).
Proof.
  exact (proj1 (proj2 (make_serdict_hides_atlas "/atlas/breast.nii.gz" "/data/7/dicom"
                         atlas_config ltac:(discriminate)))).
Defined.

(** ** Masking, bias correction, normalisation and the 4D volume *)

Lemma for_each_quiet {A S} (P : event -> Prop) (f : S -> A -> M S) (l : list A) (s : S) fs :
  (forall x, In x l -> exists ev, f s x fs = (Ok s, fs, ev) /\ Forall P ev) ->
  exists ev, for_each l f s fs = (Ok s, fs, ev) /\ Forall P ev.
Proof.
  induction l as [|x l IH]; intros Hl; cbn [for_each].
  - exists []. split; [reflexivity | constructor].
  - destruct (Hl x) as (ev1 & Hx & Hev1); [now left|].
    destruct IH as (ev2 & Hrest & Hev2); [intros y Hy; apply Hl; now right|].
    exists (ev1 ++ ev2). unfold bind. rewrite Hx, Hrest.
    split; [reflexivity | now apply Forall_app].
Qed.

Section LateStages.
Context {tools : Tools}.

(** Without the file [<id>_combined_brain_mask.nii.gz] beside the DICOM
    directory -- the masking stage writes [<id>_breast_mask.nii.gz], not this
    file -- the bias stage returns the bundle as it was, touches no file and
    runs no tool, also with [repeat]. *)
Theorem bias_correct_without_mask (sd : list (string * gmap string pyval)) repeat
    info_d idno dcm_dir fs :
  sd_get sd "info" = Some info_d ->
  info_d !! "id" = Some (PStr idno) ->
  info_d !! "dcmdir" = Some (PStr dcm_dir) ->
  path_join (dirname dcm_dir) (idno +:+ "_combined_brain_mask.nii.gz") ∉ fs ->
  exists ev, bias_correct sd repeat fs = (Ok sd, fs, ev) /\ Forall is_log ev.
Proof.
  intros Hinfo Hid Hdir Hmask.
  destruct (for_each_quiet is_log (bias_role idno dcm_dir repeat) (keys sd) sd fs)
    as (ev & Hloop & Hev).
  { intros x Hx. destruct (sd_get_is_Some sd x Hx) as [d Hd].
    destruct (wants_bias d) eqn:Hbias.
    - destruct (bias_role_skips tools idno dcm_dir repeat sd x d fs Hd Hbias) as [msg Hmsg];
        [now right|].
      exists [Info msg]. split; [exact Hmsg | repeat constructor].
    - exists []. split; [|constructor].
      unfold bias_role, getitem. now rewrite Hd, bind_ret_l, Hbias. }
  exists (Info "BIAS CORRECTING IMAGES:" :: ev).
  split; [|constructor; [exact I | exact Hev]].
  unfold bias_correct. rewrite bind_info.
  unfold getitem. rewrite Hinfo, bind_ret_l.
  unfold getfield. rewrite Hid, bind_ret_l, Hdir, bind_ret_l.
  unfold as_str. rewrite !bind_ret_l. now rewrite Hloop.
Qed.

Lemma mask_role_writes mask_file repeat (sd : list (string * gmap string pyval)) sers :
  ensures (mask_role mask_file repeat sd sers) (writes_only ["filename_masked"] sd).
Proof. unfold mask_role. ensures_walk; writes_tac. Qed.

Lemma bias_role_writes idno dcm_dir repeat (sd : list (string * gmap string pyval)) srs :
  ensures (bias_role idno dcm_dir repeat sd srs) (writes_only ["filename_bias"] sd).
Proof. unfold bias_role. ensures_walk; writes_tac. Qed.

Lemma norm_role_writes repeat (sd : list (string * gmap string pyval)) srs :
  ensures (norm_role repeat sd srs) (writes_only ["filename_norm"] sd).
Proof. unfold norm_role. ensures_walk; writes_tac. Qed.

(** Each of the stages after the registration keeps the roles and their
    order and writes one entry only: the masking stage [filename_masked], the
    bias stage [filename_bias], the normalisation stage [filename_norm];
    [make_nii4d] and [print_series_dict] return the bundle as it was. *)
Theorem late_stages_frame script_dir (sd : list (string * gmap string pyval))
    force_cpu repeat :
  ensures (breast_mask script_dir sd force_cpu repeat) (writes_only ["filename_masked"] sd)
  /\ ensures (bias_correct sd repeat) (writes_only ["filename_bias"] sd)
  /\ ensures (norm_niis sd repeat) (writes_only ["filename_norm"] sd)
  /\ ensures (make_nii4d sd repeat) (fun sd' => sd' = sd)
  /\ ensures (print_series_dict sd repeat) (fun sd' => sd' = sd).
Proof.
  split; [|split; [|split; [|split]]].
  - unfold breast_mask.
    repeat first
      [ apply ensures_writes_loop; intros s x; apply mask_role_writes
      | apply ensures_seq
      | apply ensures_ret; apply writes_only_refl
      | eapply ensures_bind; [apply ensures_any|]; intros ? _
      | match goal with |- ensures (if ?b then _ else _) _ => destruct b end ].
  - unfold bias_correct. apply ensures_seq.
    do 5 (eapply ensures_bind; [apply ensures_any|]; intros ? _).
    apply ensures_writes_loop. intros s x. apply bias_role_writes.
  - unfold norm_niis. apply ensures_seq.
    apply ensures_writes_loop. intros s x. apply norm_role_writes.
  - unfold make_nii4d. ensures_walk; reflexivity.
  - unfold print_series_dict. ensures_walk; reflexivity.
Qed.




End LateStages.

(** ** The registration routines and the transform application *)

Section Routines.
Context {tools : Tools}.

Lemma ants_apply_loop_names reference interp tl work_dir invert repeat moving :
  ensures (ants_apply_loop reference interp tl work_dir invert repeat moving)
    (fun outs => exists ms, moving = map PStr ms /\ outs = map (warped_name work_dir) ms).
Proof.
  induction moving as [|mvng rest IH]; cbn [ants_apply_loop].
  - apply ensures_ret. now exists [].
  - eapply ensures_bind with
      (Q := fun out => exists m, mvng = PStr m /\ out = warped_name work_dir m).
    + unfold ants_apply_one.
      eapply ensures_bind; [apply ensures_as_str|]. intros m ->.
      eapply ensures_bind; [apply ensures_any|]. intros present _.
      destruct (negb present || repeat); repeat apply ensures_seq;
        apply ensures_ret; now exists m.
    + intros out (m & -> & ->).
      eapply ensures_bind; [exact IH|]. intros outs (ms & -> & ->).
      apply ensures_ret. now exists (m :: ms).
Qed.

(** The transform application returns the names of the warped images, one
    for each moving image: the name is built from the work directory and from
    the basename of the moving image up to its first ".nii", and depends on
    neither the reference nor the transforms.  For exactly one moving image
    the result is a string, otherwise a list. *)
Theorem ants_apply_names moving reference interp t work_dir invert repeat :
  ensures (ants_apply moving reference interp t work_dir invert repeat)
    (fun v =>
       exists ms,
         as_list moving = map PStr ms
         /\ v = match ms with
                | [m] => PStr (warped_name work_dir m)
                | _ => PList (map (fun m => PStr (warped_name work_dir m)) ms)
                end).
Proof.
  unfold ants_apply.
  eapply ensures_bind; [apply ants_apply_loop_names|].
  intros outs (ms & Hms & ->).
  destruct ms as [|m [|m' ms]]; cbn [map]; apply ensures_ret.
  - exists []. split; [exact Hms | reflexivity].
  - exists [m]. split; [exact Hms | reflexivity].
  - exists (m :: m' :: ms). split; [exact Hms|]. cbn [map]. now rewrite map_map.
Qed.



End Routines.


Lemma keeper_has_most_images_witness :
  exists keeper number c,
    tie_break (floats := digits_float) count_headers [0; 1; 2]%nat ∅
    = (Ok (keeper, number), ∅, [])
    /\ In keeper [0; 1; 2]%nat
    /\ image_count count_headers keeper = Some c
    /\ Forall (fun i => exists ci, image_count count_headers i = Some ci /\ ci <= c)
         [0; 1; 2]%nat.
Proof.
  apply (keeper_has_most_images (floats := digits_float) count_headers [0; 1; 2]%nat ∅).
  - discriminate.
  - repeat constructor; vm_compute; eauto.
Defined.


Lemma bias_correct_without_mask_witness :
  exists ev,
    bias_correct (tools := ideal_tools) masked_bundle true masked_files
    = (Ok masked_bundle, masked_files, ev)
    /\ Forall is_log ev.
Proof.
  apply (bias_correct_without_mask (tools := ideal_tools) masked_bundle true
           (role [("filename", PStr "None"); ("dcmdir", PStr "/data/7/dicom"); ("id", PStr "7")])
           "7" "/data/7/dicom" masked_files).
  - reflexivity.
  - reflexivity.
  - reflexivity.
  - apply (bool_decide_unpack _). vm_compute. exact I.
Defined.

(** ** Strings and paths *)

Lemma append_cons (c : ascii) (a b : string) : String c a +:+ b = String c (a +:+ b).
Proof. reflexivity. Qed.

Lemma append_nil (b : string) : "" +:+ b = b.
Proof. reflexivity. Qed.

Lemma append_assoc (a b c : string) : (a +:+ b) +:+ c = a +:+ (b +:+ c).
Proof.
  induction a as [|x a IH]; rewrite ?append_cons, ?append_nil; [reflexivity | now rewrite IH].
Qed.

Lemma length_append (a b : string) :
  String.length (a +:+ b) = (String.length a + String.length b)%nat.
Proof.
  induction a as [|x a IH]; rewrite ?append_cons, ?append_nil; cbn [String.length];
    [reflexivity | now rewrite IH].
Qed.

Lemma substring_all (u : string) : String.substring 0 (String.length u) u = u.
Proof.
  induction u as [|c u IH]; cbn [String.length substring]; [reflexivity | now rewrite IH].
Qed.

Lemma substring_app_prefix (t u : string) :
  String.substring 0 (String.length t) (t +:+ u) = t.
Proof.
  induction t as [|c t IH]; rewrite ?append_cons, ?append_nil; cbn [String.length substring].
  - now destruct u.
  - now rewrite IH.
Qed.

Lemma substring_app_suffix (t u : string) :
  String.substring (String.length t) (String.length u) (t +:+ u) = u.
Proof.
  induction t as [|c t IH]; rewrite ?append_cons, ?append_nil; cbn [String.length substring];
    [apply substring_all | exact IH].
Qed.

Lemma prefix_app (t u : string) : String.prefix t (t +:+ u) = true.
Proof. apply prefix_correct, substring_app_prefix. Qed.

Lemma index_app_skip (sep t u : string) :
  String.index (String.length t) sep (t +:+ u)
  = match String.index 0 sep u with
    | Some j => Some (String.length t + j)%nat
    | None => None
    end.
Proof.
  induction t as [|c t IH]; rewrite ?append_cons, ?append_nil; cbn [String.length].
  - now destruct (String.index 0 sep u).
  - cbn [String.index]. rewrite IH. now destruct (String.index 0 sep u).
Qed.

Lemma rfind_shift (sep u : string) :
  forall pos acc,
    rfind_from sep u pos acc
    = match rfind_from sep u 0 None with
      | Some j => Some (pos + j)%nat
      | None => acc
      end.
Proof.
  induction u as [|c u IH]; intros pos acc.
  - cbn [rfind_from]. destruct (String.prefix sep ""); [now rewrite Nat.add_0_r | reflexivity].
  - cbn [rfind_from]. rewrite (IH 1%nat), (IH (S pos)).
    destruct (rfind_from sep u 0 None) as [j|].
    + f_equal. lia.
    + destruct (String.prefix sep (String c u)); [now rewrite Nat.add_0_r | reflexivity].
Qed.

Lemma rfind_app_some (sep u : string) j :
  rfind_from sep u 0 None = Some j ->
  forall t pos acc,
    rfind_from sep (t +:+ u) pos acc = Some (pos + String.length t + j)%nat.
Proof.
  intros Hu. induction t as [|c t IH]; intros pos acc.
  - rewrite append_nil. cbn [String.length]. rewrite rfind_shift, Hu. f_equal. lia.
  - rewrite append_cons. cbn [String.length rfind_from]. rewrite IH. f_equal. lia.
Qed.

Lemma prefix_empty (s : string) : String.prefix "" s = true.
Proof. now destruct s. Qed.

(** A separator of one character does not straddle the two parts. *)
Lemma rfind_char_app (c : ascii) (u : string) :
  rfind_from (String c "") u 0 None = None ->
  forall t pos acc,
    rfind_from (String c "") (t +:+ u) pos acc = rfind_from (String c "") t pos acc.
Proof.
  intros Hu. induction t as [|x t IH]; intros pos acc.
  - rewrite append_nil. rewrite rfind_shift, Hu. cbn. reflexivity.
  - rewrite append_cons. cbn [rfind_from]. rewrite IH. cbn [String.prefix].
    destruct (ascii_dec c x); [now rewrite !prefix_empty | reflexivity].
Qed.

Lemma rsplit_first_app (sep t u : string) :
  rfind_from sep u 0 None = Some 0%nat -> rsplit_first sep (t +:+ u) = t.
Proof.
  intros Hu. unfold rsplit_first. rewrite (rfind_app_some sep u 0%nat Hu).
  cbn [Nat.add]. rewrite Nat.add_0_r. apply substring_app_prefix.
Qed.

Lemma endswith_app (t u : string) : endswith (t +:+ u) u = true.
Proof.
  unfold endswith. rewrite length_append.
  replace (String.length t + String.length u - String.length u)%nat
    with (String.length t) by lia.
  rewrite substring_app_suffix, String.eqb_refl.
  rewrite andb_true_r. apply Nat.leb_le. lia.
Qed.

(** [os.path.join] puts its second argument last. *)
Lemma path_join_suffix (a b : string) : exists p, path_join a b = p +:+ b.
Proof.
  unfold path_join. destruct (String.prefix "/" b); [now exists ""|].
  destruct (_ || _); [now exists a|].
  exists (a +:+ "/"). now rewrite append_assoc.
Qed.

(** ** The conversion stage *)

Lemma yields_ret {A} (a : A) fs (Q : A -> gset string -> Prop) : Q a fs -> yields (ret a) fs Q.
Proof. intros H a' fs' ev [= <- <- _]. exact H. Qed.

Lemma yields_bind {A B} (m : M A) (k : A -> M B) fs (Q : A -> gset string -> Prop)
    (R : B -> gset string -> Prop) :
  yields m fs Q -> (forall a fs1, Q a fs1 -> yields (k a) fs1 R) -> yields (bind m k) fs R.
Proof.
  intros Hm Hk b fs' ev Hrun.
  apply bind_ok in Hrun as (a & fs1 & ev1 & ev2 & Hma & Hka & _).
  eapply Hk; [eapply Hm; exact Hma | exact Hka].
Qed.

Lemma yields_any {A} (m : M A) fs : yields m fs (fun _ _ => True).
Proof. now intros a fs' ev _. Qed.

Lemma yields_weaken {A} (m : M A) fs (Q R : A -> gset string -> Prop) :
  yields m fs Q -> (forall a fs', Q a fs' -> R a fs') -> yields m fs R.
Proof. intros Hm HQR a fs' ev Hrun. eapply HQR, Hm, Hrun. Qed.

Lemma yields_quiet {A} (m : M A) fs (P : A -> Prop) :
  keeps_files m -> ensures m P -> yields m fs (fun a fs' => P a /\ fs' = fs).
Proof.
  intros Hk Hp a fs' ev Hrun. split; [eapply Hp, Hrun | eapply Hk, Hrun].
Qed.

Lemma yields_run {A} (m : M A) fs a fs1 ev (Q : A -> gset string -> Prop) :
  m fs = (Ok a, fs1, ev) -> Q a fs1 -> yields m fs Q.
Proof. intros Hrun HQ a' fs' ev'. rewrite Hrun. now intros [= <- <- _]. Qed.

Lemma yields_isfile {B} (p : string) (k : bool -> M B) fs (Q : B -> gset string -> Prop) :
  yields (k (bool_decide (p ∈ fs))) fs Q -> yields (bind (isfile p) k) fs Q.
Proof. intros H b fs' ev. rewrite bind_isfile. apply H. Qed.

Lemma yields_info {B} (msg : string) (k : unit -> M B) fs (Q : B -> gset string -> Prop) :
  yields (k tt) fs Q -> yields (bind (info msg) k) fs Q.
Proof.
  intros H b fs' ev. rewrite bind_info.
  destruct (k tt fs) as [[r fs1] ev1] eqn:Hk. intros [= -> <- _]. eapply H, Hk.
Qed.

(** The pattern [<stem>*.nii.gz] finds the file [<stem>.nii.gz] itself. *)
Lemma glob_nii_finds (p : string) fs :
  yields (glob_nii (rsplit_first ".nii.gz" (p +:+ ".nii.gz"))) fs
    (fun found fs' => fs' = fs /\ (p +:+ ".nii.gz" ∈ fs -> p +:+ ".nii.gz" ∈ found)).
Proof.
  intros found fs' ev. unfold glob_nii. intros [= <- <- _].
  split; [reflexivity|]. intros Hin.
  apply list_elem_of_filter. split; [|now apply elem_of_elements].
  rewrite rsplit_first_app by reflexivity.
  rewrite prefix_app, endswith_app, index_app_skip, length_append.
  cbn [String.index String.prefix andb negb String.length].
  rewrite (proj2 (Nat.leb_le _ _)) by lia. exact I.
Qed.

Lemma is_Some_key (d : gmap string pyval) f : has_key d f = true -> exists v, d !! f = Some v.
Proof. unfold has_key. intros H. exact (bool_decide_eq_true_1 _ H). Qed.

Lemma cleanup_step (item : string) fs :
  exists ev,
    (let* present := isfile item in
     if present then
       info ("- Removing extra file generated during conversion: " +:+ item);;
       remove item
     else ret tt) fs
    = (Ok tt, fs ∖ {[item]}, ev).
Proof.
  rewrite bind_isfile. destruct (bool_decide (item ∈ fs)) eqn:Hpresent.
  - rewrite bind_info. unfold remove. rewrite Hpresent. eauto.
  - apply bool_decide_eq_false_1 in Hpresent.
    exists []. unfold ret. f_equal. f_equal. symmetry.
    now apply difference_disjoint_L, disjoint_singleton_r.
Qed.

(** The loop at the end of [dcm_list_2_niis] leaves none of the extra
    files. *)
Lemma cleanup_removes (extras : list string) :
  forall fs, exists ev,
    for_each extras
      (fun _ item =>
         let* present := isfile item in
         if present then
           info ("- Removing extra file generated during conversion: " +:+ item);;
           remove item
         else ret tt) tt fs
    = (Ok tt, fs ∖ list_to_set extras, ev).
Proof.
  induction extras as [|item extras IH]; intros fs; cbn [for_each list_to_set].
  - exists []. unfold ret. now rewrite difference_empty_L.
  - destruct (cleanup_step item fs) as [ev1 Hstep].
    destruct (IH (fs ∖ {[item]})) as [ev2 Hrest].
    exists (ev1 ++ ev2). unfold bind at 1. rewrite Hstep, Hrest.
    now rewrite difference_difference_l_L.
Qed.

Section Conversion.
Context {tools : Tools} {post : PostProcessors}.

Lemma convert_role_no_dicoms idno dicom_dir repeat (sd : list (string * gmap string pyval))
    extras k dk fs :
  sd_get sd k = Some dk ->
  has_key dk "dicoms" = false ->
  convert_role idno dicom_dir repeat (sd, extras) k fs = (Ok (sd, extras), fs, []).
Proof.
  intros Hd Hno. unfold convert_role, getitem. now rewrite Hd, bind_ret_l, Hno.
Qed.

(** With [repeat], the step of the conversion loop at a role that was
    converted before puts the output itself on the list of extra files. *)
Lemma convert_role_repeat idno dicom_dir (sd : list (string * gmap string pyval))
    extras series d fs :
  sd_get sd series = Some d ->
  has_key d "dicoms" = true ->
  has_key d "split" = false ->
  has_key d "split_func" = false ->
  path_join (dirname dicom_dir) ((idno +:+ "_" +:+ series) +:+ ".nii.gz") ∈ fs ->
  yields (convert_role idno dicom_dir true (sd, extras) series) fs
    (fun st fs' =>
       (path_join (dirname dicom_dir) ((idno +:+ "_" +:+ series) +:+ ".nii.gz") ∈ fs' ->
        path_join (dirname dicom_dir) ((idno +:+ "_" +:+ series) +:+ ".nii.gz") ∈ snd st)
       /\ forall k, k <> series -> sd_get (fst st) k = sd_get sd k).
Proof.
  intros Hd Hdicoms Hsplit Hfunc Hin.
  destruct (is_Some_key d "dicoms" Hdicoms) as [dv Hdv].
  destruct (path_join_suffix (dirname dicom_dir) ((idno +:+ "_" +:+ series) +:+ ".nii.gz"))
    as [p0 Hp0].
  rewrite <- (append_assoc p0 (idno +:+ "_" +:+ series) ".nii.gz") in Hp0.
  unfold convert_role. unfold getitem at 1. rewrite Hd.
  intros st fs' ev. rewrite bind_ret_l, Hdicoms.
  unfold getfield at 1. rewrite Hdv, bind_ret_l.
  rewrite bind_isfile, (bool_decide_eq_true_2 _ Hin). cbn [negb].
  rewrite bind_ret_l. cbv iota. rewrite Hsplit, Hfunc. cbn [orb].
  revert st fs' ev.
  set (out := path_join (dirname dicom_dir) ((idno +:+ "_" +:+ series) +:+ ".nii.gz")) in *.
  match goal with
  | |- forall st fs' ev, ?m fs = (Ok st, fs', ev) -> _ =>
      change (yields m fs
                (fun st fs' =>
                   (out ∈ fs' -> out ∈ snd st)
                   /\ forall k, k <> series -> sd_get (fst st) k = sd_get sd k))
  end.
  apply yields_bind with (Q := fun fe fs1 => out ∈ fs1 -> out ∈ snd fe).
  - apply yields_isfile. rewrite (bool_decide_eq_true_2 _ Hin). cbn [andb].
    apply yields_bind with (Q := fun fe fs1 => out ∈ fs1 -> out ∈ snd fe).
    + do 2 apply yields_info.
      eapply yields_bind; [apply yields_any|]. intros files fs1 _.
      eapply yields_bind; [apply yields_any|]. intros converted fs2 _.
      eapply yields_bind; [apply yields_any|]. intros u fs3 _.
      eapply yields_bind; [rewrite Hp0; apply glob_nii_finds|].
      intros found fs4 [-> Hfound]. apply yields_ret. cbn [snd]. intros Hout.
      apply elem_of_remove_dups, elem_of_app. right. rewrite Hp0. apply Hfound.
      now rewrite <- Hp0.
    + intros fe fs1 Hfe.
      eapply yields_weaken.
      * apply (yields_quiet _ fs1 (fun r => r = fe)).
        -- repeat first [keeps_step | split_cases].
        -- ensures_walk; reflexivity.
      * intros r fs2 [-> ->]. exact Hfe.
  - intros fe fs1 Hfe. rewrite andb_false_r.
    eapply yields_weaken.
    + apply (yields_quiet _ fs1
               (fun st => snd st = snd fe
                          /\ forall k, k <> series -> sd_get (fst st) k = sd_get sd k)).
      * repeat first [keeps_step | split_cases].
      * ensures_walk; (split; [reflexivity|]); intros k Hk; cbn [fst];
          rewrite ?sd_get_update_ne by congruence; reflexivity.
    + intros st fs2 [[Hsnd Hframe] ->]. split; [|exact Hframe]. now rewrite Hsnd.
Qed.

Lemma yields_for_each_app {A S} (f : S -> A -> M S) (l1 l2 : list A) (s : S) fs
    (Q : S -> gset string -> Prop) :
  yields (bind (for_each l1 f s) (for_each l2 f)) fs Q -> yields (for_each (l1 ++ l2) f s) fs Q.
Proof. intros H a fs' ev. rewrite for_each_app. apply H. Qed.

Lemma isfile_v_keeps v : keeps_files (isfile_v v).
Proof. unfold isfile_v. repeat keeps_step. Qed.

(** With [repeat], the conversion stage ends without the output of a role
    that was converted before: the pattern that collects the extra files of
    the conversion also finds the output, and the stage removes the extra
    files at its end.  (The statement is for a bundle in which one role has
    DICOM files, and this role has no post-processing.) *)
Theorem repeat_conversion_removes_output (sd : list (string * gmap string pyval))
    dicom_dir series d info_d idno fs :
  List.NoDup (keys sd) ->
  sd_get sd "info" = Some info_d ->
  info_d !! "id" = Some (PStr idno) ->
  sd_get sd series = Some d ->
  has_key d "dicoms" = true ->
  has_key d "split" = false ->
  has_key d "split_func" = false ->
  (forall k dk, k <> series -> sd_get sd k = Some dk -> has_key dk "dicoms" = false) ->
  path_join (dirname dicom_dir) ((idno +:+ "_" +:+ series) +:+ ".nii.gz") ∈ fs ->
  forall sd' fs' ev,
    dcm_list_2_niis sd dicom_dir true fs = (Ok sd', fs', ev) ->
    path_join (dirname dicom_dir) ((idno +:+ "_" +:+ series) +:+ ".nii.gz") ∉ fs'.
Proof.
  intros Hnd Hinfo Hid Hd Hdicoms Hsplit Hfunc Hothers Hin.
  set (out := path_join (dirname dicom_dir) ((idno +:+ "_" +:+ series) +:+ ".nii.gz")) in *.
  change (yields (dcm_list_2_niis sd dicom_dir true) fs (fun _ fs' => out ∉ fs')).
  unfold dcm_list_2_niis.
  eapply yields_bind; [apply yields_quiet; [apply keeps_getitem | apply ensures_getitem]|].
  intros a fs0 [Ha ->]. assert (a = info_d) by congruence. subst a.
  eapply yields_bind; [apply yields_quiet; [apply keeps_getfield | apply ensures_getfield]|].
  intros id_v fs0 [Hv ->]. assert (id_v = PStr idno) by congruence. subst id_v.
  eapply yields_bind; [apply yields_quiet; [apply keeps_as_str | apply ensures_as_str]|].
  intros idno' fs0 [Hs ->]. injection Hs as <-.
  apply yields_info.
  apply yields_bind with (Q := fun st fs1 => out ∈ fs1 -> out ∈ snd st).
  - destruct (in_split series (keys sd)) as (before & after & Hkeys);
      [eapply sd_get_key, Hd|].
    assert (Hnotin : ~ In series (before ++ after))
      by (apply NoDup_remove_2; rewrite <- Hkeys; exact Hnd).
    assert (Hskip : forall x s1 ex1 fs1,
               In x (before ++ after) ->
               (forall k, k <> series -> sd_get s1 k = sd_get sd k) ->
               convert_role idno dicom_dir true (s1, ex1) x fs1 = (Ok (s1, ex1), fs1, [])).
    { intros x s1 ex1 fs1 Hx Hframe.
      assert (Hne : x <> series) by (intros ->; contradiction).
      destruct (sd_get_is_Some sd x) as [dk Hdk].
      { rewrite Hkeys. apply in_app_or in Hx as [Hx | Hx]; apply in_or_app;
          [now left | right; now right]. }
      apply (convert_role_no_dicoms idno dicom_dir true s1 ex1 x dk).
      - now rewrite Hframe.
      - eapply Hothers; eassumption. }
    rewrite Hkeys. apply yields_for_each_app.
    eapply yields_bind.
    + eapply yields_run with (Q := fun st fs1 => st = (sd, []) /\ fs1 = fs).
      { apply for_each_unchanged. intros x Hx.
        apply Hskip; [apply in_or_app; now left | reflexivity]. }
      split; reflexivity.
    + intros st fs1 [-> ->]. cbn [for_each].
      eapply yields_bind; [apply (convert_role_repeat idno dicom_dir sd [] series d fs);
                           assumption|].
      intros [sd1 ex1] fs1 [Hout Hframe]. cbn [fst snd] in Hout, Hframe.
      eapply yields_run.
      { apply for_each_unchanged. intros x Hx.
        apply Hskip; [apply in_or_app; now right | exact Hframe]. }
      exact Hout.
  - intros [sd1 ex1] fs1 Hst. cbn [snd] in Hst. cbv beta iota zeta.
    destruct (cleanup_removes ex1 fs1) as [evc Hclean].
    eapply yields_bind;
      [eapply yields_run with (Q := fun _ fs2 => fs2 = fs1 ∖ list_to_set ex1);
         [exact Hclean | reflexivity]|].
    intros u fs2 ->.
    eapply yields_weaken.
    + apply (yields_quiet _ _ (fun _ => True)); [|apply ensures_any].
      repeat first [apply isfile_v_keeps | keeps_step | split_cases].
    + intros sd' fs2 [_ ->]. intros Hdiff.
      apply elem_of_difference in Hdiff as [Hfs Hnot].
      apply Hnot, elem_of_list_to_set, Hst, Hfs.
Qed.

(** The step of the conversion loop without [repeat] leaves the list of extra
    files empty: a first conversion resets the list, and a role that is not
    converted passes it on. *)
Lemma convert_role_no_extras idno dicom_dir (sd : list (string * gmap string pyval)) series :
  ensures (convert_role idno dicom_dir false (sd, []) series) (fun st => snd st = []).
Proof.
  unfold convert_role.
  eapply ensures_bind; [apply ensures_any|]. intros d _.
  destruct (has_key d "dicoms"); [|now apply ensures_ret].
  eapply ensures_bind; [apply ensures_any|]. intros dicoms _.
  eapply ensures_bind; [apply ensures_any|]. intros present _.
  eapply ensures_bind; [apply ensures_any|]. intros fresh _.
  eapply ensures_bind with (Q := fun fe : bool * list string => snd fe = []).
  - destruct fresh.
    + apply ensures_seq.
      eapply ensures_bind; [apply ensures_any|]. intros files _.
      eapply ensures_bind with (Q := fun ce : pyval * list string => snd ce = []).
      * destruct files; try (now apply ensures_ret).
        eapply ensures_bind; [apply ensures_any|]. intros c _. now apply ensures_ret.
      * intros ce Hce. apply ensures_seq.
        eapply ensures_bind; [apply ensures_any|]. intros found _.
        destruct (bool_decide _); [now apply ensures_ret | apply ensures_raise].
    + eapply ensures_bind; [apply ensures_any|]. intros present' _.
      rewrite andb_false_r.
      eapply ensures_bind with (Q := fun fe : bool * list string => snd fe = []);
        [now apply ensures_ret|].
      intros fe Hfe. ensures_walk; exact Hfe.
  - intros fe Hfe. ensures_walk; exact Hfe.
Qed.

(** Without [repeat] the list of the extra files is empty after the
    conversion loop, whatever the converter reports and whichever files
    exist; the loop at the end of [dcm_list_2_niis] that removes the extra
    files therefore removes nothing. *)
Theorem conversion_collects_no_extras idno dicom_dir (sd : list (string * gmap string pyval)) :
  ensures (for_each (keys sd) (convert_role idno dicom_dir false) (sd, []))
    (fun st => snd st = []).
Proof.
  apply (ensures_for_each (fun st : list (string * gmap string pyval) * list string =>
                             snd st = [])); [|reflexivity].
  intros [s ex] x _ Hex. cbn [snd] in Hex. subst ex. apply convert_role_no_extras.
Qed.

End Conversion.

Lemma repeat_conversion_removes_output_witness :
  ("/data/7/7_T1.nii.gz"
   ∉ files_of (dcm_list_2_niis (tools := converting_tools) (post := no_post)
                 converted_bundle "/data/7/dicom" true converted_files))
  /\ field_after (dcm_list_2_niis (tools := converting_tools) (post := no_post)
                    converted_bundle "/data/7/dicom" true converted_files) "T1" "filename"
     = Some (Some (PStr "/data/7/7_T1.nii.gz")).
Proof.
  split; [|vm_compute; reflexivity].
  refine (repeat_conversion_removes_output (tools := converting_tools) (post := no_post)
            converted_bundle "/data/7/dicom" "T1"
            (role [("or", PList [PList [PStr "T1"]]); ("not", PList []);
                   ("dicoms", PList [PStr "/data/7/dicom/00001/1.dcm"]);
                   ("series", PStr "AX T1 [dir=00001]");
                   ("dirs", PStr "/data/7/dicom/00001")])
            (role [("filename", PStr "None"); ("dcmdir", PStr "/data/7/dicom");
                   ("id", PStr "7")])
            "7" converted_files _ _ _ _ _ _ _ _ _ _ _ _ (returned_eta _ _)).
  - vm_compute. repeat constructor; simpl; intuition congruence.
  - reflexivity.
  - reflexivity.
  - reflexivity.
  - reflexivity.
  - reflexivity.
  - reflexivity.
  - intros k dk Hk. cbn [converted_bundle sd_get info_entry].
    destruct (String.eqb_spec "T1" k) as [<- | _]; [contradiction|].
    destruct (String.eqb "info" k); [|discriminate]. now intros [= <-].
  - apply (bool_decide_unpack _). vm_compute. exact I.
  - vm_compute. reflexivity.
Defined.

(** ** The DWI splitter without a file of b-values *)

Lemma argmax_loop (l : list Q) :
  forall (all : list Q) (n : nat) (best : nat) (m : Q),
    (forall i y, l !! i = Some y -> all !! (n + i)%nat = Some y) ->
    all !! best = Some m ->
    exists best' m',
      fold_left (fun '(best, m) '(i, y) => if Qle_bool y m then (best, m) else (i, y))
        (enumerate_from n l) (best, m) = (best', m')
      /\ all !! best' = Some m'
      /\ (m <= m')%Q
      /\ Forall (fun y => (y <= m')%Q) l.
Proof.
  induction l as [|y l IH]; intros all n best m Hall Hbest; cbn [enumerate_from fold_left].
  - exists best, m. split; [reflexivity|]. split; [exact Hbest|].
    split; [apply Qle_refl | constructor].
  - assert (Htail : forall i z, l !! i = Some z -> all !! (S n + i)%nat = Some z).
    { intros i z Hi. specialize (Hall (S i) z Hi).
      now replace (S n + i)%nat with (n + S i)%nat by lia. }
    destruct (Qle_bool y m) eqn:Hle.
    + apply Qle_bool_iff in Hle.
      destruct (IH all (S n) best m Htail Hbest) as (best' & m' & Hfold & Hb & Hm & Hrest).
      exists best', m'. split; [exact Hfold|]. split; [exact Hb|]. split; [exact Hm|].
      constructor; [|exact Hrest]. now apply Qle_trans with m.
    + assert (Hlt : (m < y)%Q).
      { apply Qnot_le_lt. intros Hc. apply Qle_bool_iff in Hc. congruence. }
      assert (Hy : all !! n = Some y).
      { specialize (Hall 0%nat y eq_refl). now rewrite Nat.add_0_r in Hall. }
      destruct (IH all (S n) n y Htail Hy) as (best' & m' & Hfold & Hb & Hm & Hrest).
      exists best', m'. split; [exact Hfold|]. split; [exact Hb|].
      split; [|constructor; assumption].
      apply Qle_trans with y; [now apply Qlt_le_weak | exact Hm].
Qed.

Lemma np_argmax_greatest (l : list Q) m :
  np_argmax l = Some m ->
  exists x, l !! m = Some x /\ Forall (fun y => (y <= x)%Q) l.
Proof.
  destruct l as [|x l]; [discriminate|]. unfold np_argmax.
  destruct (argmax_loop l (x :: l) 1 0 x) as (best & m' & Hfold & Hb & Hm & Hrest).
  { intros i y Hi. exact Hi. }
  { reflexivity. }
  rewrite Hfold. cbn [fst]. intros [= <-].
  exists m'. split; [exact Hb|]. constructor; assumption.
Qed.

(** Without a file of b-values the B0 image is a volume of greatest mean
    intensity and the DWI image is the first other volume: the first volume,
    or the second when the first is the B0 image.  When the brightest volume
    is the fifth or a later one, the splitter raises: it removes the index
    from the list of the first four. *)
Theorem split_dwi_by_intensity {V} `{Volumes V} (img : list V) :
  (forall b0 dwi,
      split_dwi_images img None = Some (b0, dwi) ->
      exists m,
        np_argmax (map mean_intensity img) = Some m
        /\ (m < 4)%nat
        /\ img !! m = Some b0
        /\ img !! (if (m =? 0)%nat then 1%nat else 0%nat) = Some dwi
        /\ Forall (fun v => (mean_intensity v <= mean_intensity b0)%Q) img)
  /\ (forall m,
        np_argmax (map mean_intensity img) = Some m -> (4 <= m)%nat ->
        split_dwi_images img None = None).
Proof.
  split.
  - intros b0 dwi. unfold split_dwi_images.
    destruct (np_argmax (map mean_intensity img)) as [m|] eqn:Hmax; [|discriminate].
    destruct (img !! m) as [v|] eqn:Hv; [|discriminate].
    intros Hsplit. exists m.
    assert (Hm : (m < 4)%nat /\ img !! (if (m =? 0)%nat then 1%nat else 0%nat) = Some dwi
                 /\ v = b0).
    { destruct m as [|[|[|[|m]]]]; cbn in Hsplit; try discriminate;
        match type of Hsplit with
        | match ?x with _ => _ end = _ => destruct x eqn:Hx; [|discriminate]
        end; injection Hsplit as <- <-; (split; [lia|]); split; auto. }
    destruct Hm as (Hlt & Hdwi & ->).
    split; [reflexivity|]. split; [exact Hlt|]. split; [exact Hv|]. split; [exact Hdwi|].
    destruct (np_argmax_greatest _ _ Hmax) as (x & Hx & Hall).
    rewrite list_lookup_fmap, Hv in Hx. injection Hx as <-.
    rewrite Forall_forall in Hall. apply Forall_forall. intros w Hw.
    apply Hall. now apply list_elem_of_fmap_2.
  - intros m Hmax Hm. unfold split_dwi_images. rewrite Hmax.
    destruct (img !! m); [|reflexivity].
    destruct m as [|[|[|[|m]]]]; try lia. reflexivity.
Qed.

Lemma split_dwi_by_intensity_witness :
  exists m,
    np_argmax (map (mean_intensity (Volumes := voxel_volumes)) [5; 9; 2; 9]%Q) = Some m
    /\ (m < 4)%nat
    /\ [5; 9; 2; 9]%Q !! m = Some 9%Q
    /\ [5; 9; 2; 9]%Q !! (if (m =? 0)%nat then 1%nat else 0%nat) = Some 5%Q
    /\ Forall (fun v => (mean_intensity (Volumes := voxel_volumes) v
                         <= mean_intensity (Volumes := voxel_volumes) 9)%Q) [5; 9; 2; 9]%Q.
Proof.
  exact (proj1 (split_dwi_by_intensity (H := voxel_volumes) [5; 9; 2; 9]%Q) 9%Q 5%Q eq_refl).
Defined.

(** ** The series catalogue *)

Lemma prefix_app_iff (a b : string) : String.prefix a b = true <-> exists x, b = a +:+ x.
Proof.
  split.
  - revert b. induction a as [|c a IH]; intros b Hp.
    + now exists b.
    + destruct b as [|c' b]; [discriminate|]. cbn [String.prefix] in Hp.
      destruct (ascii_dec c c') as [<- |]; [|discriminate].
      destruct (IH b Hp) as [x ->]. now exists x.
  - intros [x ->]. apply prefix_app.
Qed.

Lemma prefix_trans (a b c : string) :
  String.prefix a b = true -> String.prefix b c = true -> String.prefix a c = true.
Proof.
  rewrite !prefix_app_iff. intros [x ->] [y ->]. exists (x +:+ y). apply append_assoc.
Qed.

Lemma substring_is_prefix (n : nat) (s : string) :
  String.prefix (String.substring 0 n s) s = true.
Proof.
  revert s. induction n as [|n IH]; intros s.
  - destruct s; apply prefix_empty.
  - destruct s as [|c s]; [reflexivity|]. cbn [String.substring String.prefix].
    destruct (ascii_dec c c); [apply IH | contradiction].
Qed.

Lemma string_of_list_ascii_app (l1 l2 : list ascii) :
  string_of_list_ascii (l1 ++ l2) = string_of_list_ascii l1 +:+ string_of_list_ascii l2.
Proof.
  induction l1 as [|c l1 IH]; [reflexivity|].
  cbn [app string_of_list_ascii]. now rewrite append_cons, IH.
Qed.

Lemma rstrip_slash_suffix (l : list ascii) : exists k, l = k ++ rstrip_slash_rev l.
Proof.
  induction l as [|c l [k IH]]; [now exists []|].
  cbn [rstrip_slash_rev].
  destruct c as [[] [] [] [] [] [] [] []]; try (now exists []).
  exists ("/"%char :: k). cbn [app]. now rewrite <- IH.
Qed.

(** [os.path.dirname p] is a prefix of [p]. *)
Lemma dirname_prefix (p : string) : String.prefix (dirname p) p = true.
Proof.
  unfold dirname, path_split.
  destruct (rfind_from "/" p 0 None) as [i|]; cbn [fst]; [|apply prefix_empty].
  destruct (all_slashes _); [apply substring_is_prefix|].
  eapply prefix_trans; [|apply (substring_is_prefix (S i) p)].
  apply prefix_app_iff.
  destruct (rstrip_slash_suffix (rev (list_ascii_of_string (String.substring 0 (S i) p))))
    as [k Hk].
  exists (string_of_list_ascii (rev k)).
  rewrite <- string_of_list_ascii_app, <- rev_app_distr, <- Hk, rev_involutive.
  now rewrite string_of_list_ascii_of_string.
Qed.

Section CatalogueProperties.
Context {dicom : Dicom}.

Lemma series_labels_count (hdrs : list dcm_header) :
  forall dirs : list string,
    length hdrs = length dirs ->
    (length (omap (fun hd : dcm_header * string => series_label (fst hd) (snd hd))
               (zip hdrs dirs))
     + length (List.filter empty_description hdrs))%nat = length dirs.
Proof.
  induction hdrs as [|h hdrs IH]; intros [|d dirs] Hlen; try discriminate; [reflexivity|].
  injection Hlen as Hlen. specialize (IH dirs Hlen).
  cbn [zip zip_with omap list_omap List.filter fst snd].
  unfold series_label at 1, empty_description at 1.
  destruct (SeriesDescription (matcher_fields h)) as [desc|].
  - destruct (String.eqb desc ""); cbn [negb length]; lia.
  - cbn [length]. lia.
Qed.

Lemma series_loop (dcm_list : list string) (dirs : list string) :
  forall n dicoms hdrs series,
    ensures (for_each (enumerate_from n dirs) (series_step dcm_list) (dicoms, hdrs, series))
      (fun '(dicoms', hdrs', series') =>
         exists new_hdrs,
           hdrs' = hdrs ++ new_hdrs
           /\ length new_hdrs = length dirs
           /\ dicoms' = dicoms ++ map (fun d => List.filter (String.prefix d) dcm_list) dirs
           /\ series' = series ++ omap (fun hd : dcm_header * string =>
                                          series_label (fst hd) (snd hd))
                                    (zip new_hdrs dirs)).
Proof.
  induction dirs as [|d dirs IH]; intros n dicoms hdrs series; cbn [enumerate_from for_each].
  - apply ensures_ret. exists []. now rewrite !app_nil_r.
  - eapply ensures_bind with
      (Q := fun st =>
              exists h,
                st = (dicoms ++ [List.filter (String.prefix d) dcm_list], hdrs ++ [h],
                      series ++ match series_label h d with Some s => [s] | None => [] end)).
    + unfold series_step.
      eapply ensures_bind; [apply ensures_any|]. intros first _.
      eapply ensures_bind; [apply ensures_any|]. intros h _.
      destruct (SeriesDescription (matcher_fields h)) as [desc|] eqn:Hdesc.
      * destruct (negb (String.eqb desc "")) eqn:Hempty; apply ensures_ret; exists h;
          unfold series_label; rewrite Hdesc, Hempty; now rewrite ?app_nil_r.
      * apply ensures_seq. apply ensures_ret. exists h.
        unfold series_label. now rewrite Hdesc.
    + intros st [h ->]. eapply ensures_weaken; [apply IH|].
      intros [[dicoms' hdrs'] series'] (new_hdrs & -> & Hlen & -> & ->).
      exists (h :: new_hdrs). rewrite <- !app_assoc. cbn [app map length zip zip_with fst snd].
      split; [reflexivity|]. split; [now rewrite Hlen|]. split; [reflexivity|].
      cbn [omap list_omap fst snd]. now destruct (series_label h d).
Qed.

(** The four lists of [get_series]: the directories are the sorted
    directories of the DICOM files, each once; there are as many lists of
    files and as many headers as directories; the descriptions are those of
    the headers that have no description or one that is not empty, in their
    order.  A header with an empty description gets no entry, so that the list
    of descriptions is shorter than the other lists by the number of such
    headers. *)
Theorem get_series_lists (dicom_dir : string) (repeat : bool) :
  ensures (get_series dicom_dir repeat)
    (fun '(dicoms, hdrs, series, dirs) =>
       dirs = py_sorted (remove_dups (map dirname (dcm_find dicom_dir)))
       /\ dicoms = map (fun d => List.filter (String.prefix d) (dcm_find dicom_dir)) dirs
       /\ length hdrs = length dirs
       /\ series = omap (fun hd : dcm_header * string => series_label (fst hd) (snd hd))
                     (zip hdrs dirs)
       /\ (length series + length (List.filter empty_description hdrs))%nat = length dirs).
Proof.
  unfold get_series. do 2 apply ensures_seq.
  eapply ensures_bind; [apply series_loop|].
  intros [[dicoms hdrs] series] (new_hdrs & -> & Hlen & -> & ->).
  apply ensures_seq. apply ensures_ret. cbn [app].
  split; [reflexivity|]. split; [reflexivity|]. split; [exact Hlen|]. split; [reflexivity|].
  now apply series_labels_count.
Qed.

Lemma dirs_have_files (dcm_list : list string) (d : string) :
  In d (py_sorted (remove_dups (map dirname dcm_list))) ->
  exists f, In f dcm_list /\ d = dirname f.
Proof.
  intros Hd. apply list_elem_of_In in Hd.
  rewrite py_sorted_perm, elem_of_remove_dups, list_elem_of_fmap in Hd.
  destruct Hd as (f & -> & Hf). exists f.
  split; [now apply list_elem_of_In | reflexivity].
Qed.

(** When the reader accepts the first file of every directory, [get_series]
    returns: the list of files of a directory is never empty, since the
    directory of a file is a prefix of its path. *)
Theorem get_series_returns (dicom_dir : string) (repeat : bool) fs :
  (forall p, In p (dcm_find dicom_dir) -> exists h, read_file p = Ok h) ->
  exists r fs' ev, get_series dicom_dir repeat fs = (Ok r, fs', ev).
Proof.
  intros Hread.
  assert (Hloop : forall dirs n st,
             (forall d, In d dirs -> exists f, In f (dcm_find dicom_dir) /\ d = dirname f) ->
             exists st' ev,
               for_each (enumerate_from n dirs) (series_step (dcm_find dicom_dir)) st fs
               = (Ok st', fs, ev)).
  { induction dirs as [|d dirs IH]; intros n [[dicoms hdrs] series] Hdirs;
      cbn [enumerate_from for_each].
    - eexists _, _. reflexivity.
    - destruct (Hdirs d) as (f & Hf & Hd); [now left|].
      assert (Hgroup : In f (List.filter (String.prefix d) (dcm_find dicom_dir))).
      { apply filter_In. split; [exact Hf|]. rewrite Hd. apply dirname_prefix. }
      destruct (List.filter (String.prefix d) (dcm_find dicom_dir)) as [|first group] eqn:Hg;
        [destruct Hgroup|].
      assert (Hfirst : In first (dcm_find dicom_dir)).
      { assert (H : In first (List.filter (String.prefix d) (dcm_find dicom_dir)))
          by (rewrite Hg; now left).
        now apply filter_In in H. }
      destruct (Hread first Hfirst) as [h Hh].
      assert (Hstep : exists st1 ev1,
                 series_step (dcm_find dicom_dir) (dicoms, hdrs, series) (n, d) fs
                 = (Ok st1, fs, ev1)).
      { unfold series_step. rewrite Hg. unfold index_list. cbn [lookup list_lookup].
        rewrite bind_ret_l. unfold bind at 1. rewrite Hh.
        destruct (SeriesDescription (matcher_fields h)) as [desc|].
        - destruct (negb (String.eqb desc "")); eexists _, _; reflexivity.
        - rewrite bind_info. eexists _, _. reflexivity. }
      destruct Hstep as (st1 & ev1 & Hstep).
      destruct (IH (S n) st1) as (st' & ev & Hrest);
        [intros d' Hd'; apply Hdirs; now right|].
      exists st', (ev1 ++ ev). unfold bind. now rewrite Hstep, Hrest. }
  unfold get_series. rewrite !bind_info.
  destruct (Hloop (py_sorted (remove_dups (map dirname (dcm_find dicom_dir)))) 0%nat
              ([], [], [])) as ([[dicoms hdrs] series] & ev & Hrun);
    [apply dirs_have_files|].
  unfold bind at 1. rewrite Hrun. cbv iota beta.
  unfold get_series_manifest. rewrite bind_assoc, bind_isfile.
  destruct (negb _ || repeat); eexists _, _, _; reflexivity.
Qed.

(** The files of a directory are found by the beginning of their path: the
    list of a directory holds every DICOM file whose own directory begins
    with the name of that directory, so the files of [/a/10] are also listed
    for [/a/1]. *)
Theorem get_series_groups_by_prefix (dicom_dir : string) (repeat : bool) :
  ensures (get_series dicom_dir repeat)
    (fun '(dicoms, hdrs, series, dirs) =>
       forall i d group f,
         dirs !! i = Some d -> dicoms !! i = Some group ->
         In f (dcm_find dicom_dir) ->
         String.prefix d (dirname f) = true ->
         In f group).
Proof.
  unfold get_series. do 2 apply ensures_seq.
  eapply ensures_bind; [apply series_loop|].
  intros [[dicoms hdrs] series] (new_hdrs & -> & _ & -> & ->).
  apply ensures_seq. apply ensures_ret. cbn [app].
  intros i d group f Hd Hgroup Hf Hp.
  rewrite list_lookup_fmap, Hd in Hgroup. injection Hgroup as <-.
  apply filter_In. split; [exact Hf|].
  eapply prefix_trans; [exact Hp | apply dirname_prefix].
Qed.

End CatalogueProperties.

Lemma get_series_returns_witness :
  exists r fs' ev,
    get_series (dicom := example_dicom) "/data/7/dicom" false ∅ = (Ok r, fs', ev).
Proof.
  apply (get_series_returns (dicom := example_dicom) "/data/7/dicom" false ∅).
  intros p _. eexists. reflexivity.
Defined.

(** ** The post-processors of the conversion stage *)

Lemma yields_ret_l {A B} (a : A) (k : A -> M B) fs (Q : B -> gset string -> Prop) :
  yields (k a) fs Q -> yields (bind (ret a) k) fs Q.
Proof. intros H b fs' ev. rewrite bind_ret_l. apply H. Qed.

Lemma yields_raise_l {A B} (e : exn) (k : A -> M B) fs (Q : B -> gset string -> Prop) :
  yields (bind (raise e) k) fs Q.
Proof. intros b fs' ev. discriminate. Qed.

Lemma yields_raise {A} (e : exn) fs (Q : A -> gset string -> Prop) : yields (raise e) fs Q.
Proof. intros b fs' ev. discriminate. Qed.

Lemma yields_nib_load {B} (p : string) (k : unit -> M B) fs (Q : B -> gset string -> Prop) :
  (p ∈ fs -> yields (k tt) fs Q) -> yields (bind (nib_load p) k) fs Q.
Proof.
  intros H b fs' ev. unfold nib_load. rewrite bind_assoc, bind_isfile.
  destruct (bool_decide (p ∈ fs)) eqn:Hp.
  - rewrite bind_ret_l. apply H. exact (bool_decide_eq_true_1 _ Hp).
  - discriminate.
Qed.

Lemma yields_open_read {B} (p : string) (k : unit -> M B) fs (Q : B -> gset string -> Prop) :
  (p ∈ fs -> yields (k tt) fs Q) -> yields (bind (open_read p) k) fs Q.
Proof.
  intros H b fs' ev. unfold open_read. rewrite bind_assoc, bind_isfile.
  destruct (bool_decide (p ∈ fs)) eqn:Hp.
  - rewrite bind_ret_l. apply H. exact (bool_decide_eq_true_1 _ Hp).
  - discriminate.
Qed.

Lemma yields_write {B} (p : string) (k : unit -> M B) fs (Q : B -> gset string -> Prop) :
  yields (k tt) ({[p]} ∪ fs) Q -> yields (bind (write_file p) k) fs Q.
Proof.
  intros H b fs' ev. unfold bind, write_file.
  destruct (k tt ({[p]} ∪ fs)) as [[r fs1] ev1] eqn:Hk. intros [= -> <- _]. eapply H, Hk.
Qed.

Lemma yields_write_last (p : string) fs (Q : unit -> gset string -> Prop) :
  Q tt ({[p]} ∪ fs) -> yields (write_file p) fs Q.
Proof. intros H u fs' ev [= <- <- _]. exact H. Qed.

Ltac in_files :=
  repeat first
    [ assumption
    | apply elem_of_union_l, elem_of_singleton; reflexivity
    | apply elem_of_union_r ].

(** When [split_asl] returns, either the perfusion image exists and the role
    has got the anatomy image [<stem>_anat.nii.gz] as moving image of the
    registration, or the perfusion image does not exist and the role is
    replaced by [{"filename": "None", "reg": False}], which drops every other
    entry of the role. *)
Theorem split_asl_outcome perf_brighter phases (sd : list (string * gmap string pyval))
    d aslperf fs :
  sd_get sd "ASL" = Some d ->
  d !! "filename" = Some (PStr aslperf) ->
  yields (split_asl perf_brighter phases sd) fs
    (fun sd' fs' =>
       ((aslperf ∈ fs')
        /\ sd' = sd_update sd "ASL" "reg_moving"
                   (PStr (rsplit_first ".nii" aslperf +:+ "_anat.nii.gz")))
       \/ ((aslperf ∉ fs')
           /\ sd' = sd_set sd "ASL"
                      (<["filename" := PStr "None"]> (<["reg" := PBool false]> ∅)))).
Proof.
  intros Hd Hfn. unfold split_asl. apply yields_info.
  eapply yields_bind; [apply yields_quiet; [apply keeps_getitem | apply ensures_getitem]|].
  intros d0 fs0 [Hd0 ->]. assert (d0 = d) by congruence. subst d0.
  eapply yields_bind; [apply yields_quiet; [apply keeps_getfield | apply ensures_getfield]|].
  intros fn fs0 [Hfn0 ->]. assert (fn = PStr aslperf) by congruence. subst fn.
  apply yields_ret_l.
  eapply yields_bind; [apply yields_any|]. intros two_files fs1 _.
  eapply yields_bind; [apply yields_any|]. intros u fs2 _.
  apply yields_isfile. destruct (bool_decide (aslperf ∈ fs2)) eqn:Hpresent.
  - apply (bool_decide_eq_true_1 _) in Hpresent.
    apply yields_isfile.
    apply yields_bind with (Q := fun _ fs3 => aslperf ∈ fs3).
    + destruct (negb _); [|now apply yields_ret].
      apply yields_nib_load. intros _.
      destruct phases as [n|]; [|now apply yields_ret].
      destruct (n <? 2)%nat; [apply yields_raise_l|]. apply yields_ret_l.
      apply yields_write. apply yields_write_last. in_files.
    + intros _ fs3 Hin. apply yields_ret. left. now split.
  - apply (bool_decide_eq_false_1 _) in Hpresent. apply yields_ret. right. now split.
Qed.

(** For a perfusion image with at most three dimensions, without a second
    file and without an anatomy image, [split_asl] changes no file and still
    records the anatomy image -- a file that does not exist -- as the moving
    image of the registration. *)
Theorem split_asl_records_missing_anatomy perf_brighter (sd : list (string * gmap string pyval))
    d aslperf fs :
  sd_get sd "ASL" = Some d ->
  d !! "filename" = Some (PStr aslperf) ->
  aslperf ∈ fs ->
  rsplit_first ".nii" aslperf +:+ "a.nii.gz" ∉ fs ->
  rsplit_first ".nii" aslperf +:+ "_anat.nii.gz" ∉ fs ->
  split_asl perf_brighter None sd fs
  = (Ok (sd_update sd "ASL" "reg_moving"
           (PStr (rsplit_first ".nii" aslperf +:+ "_anat.nii.gz"))),
     fs, [Info "- Splitting ASL using split_asl function"]).
Proof.
  intros Hd Hfn Hperf Ha Hanat. unfold split_asl. rewrite bind_info.
  unfold getitem. rewrite Hd, bind_ret_l. unfold getfield. rewrite Hfn, bind_ret_l.
  unfold as_str. rewrite bind_ret_l.
  rewrite bind_isfile, (bool_decide_eq_false_2 _ Ha). rewrite bind_ret_l.
  rewrite bind_isfile, (bool_decide_eq_true_2 _ Hperf).
  rewrite bind_isfile, (bool_decide_eq_false_2 _ Hanat). cbn [negb].
  unfold nib_load. rewrite !bind_assoc, bind_isfile, (bool_decide_eq_true_2 _ Hperf).
  now rewrite !bind_ret_l.
Qed.

Lemma remove_if_present (f : string) fs :
  exists ev,
    (let* present := isfile f in if present then remove f else ret tt) fs
    = (Ok tt, fs ∖ {[f]}, ev).
Proof.
  rewrite bind_isfile. destruct (bool_decide (f ∈ fs)) eqn:Hpresent.
  - unfold remove. rewrite Hpresent. eauto.
  - apply (bool_decide_eq_false_1 _) in Hpresent.
    exists []. unfold ret. f_equal. f_equal. symmetry.
    now apply difference_disjoint_L, disjoint_singleton_r.
Qed.

Lemma split_dwi_select_images {V} `{Volumes V} (img : list V) (bvals : option (list Q))
    (x : V * V) :
  split_dwi_select img bvals = Ok x <-> split_dwi_images img bvals = Some x.
Proof.
  unfold split_dwi_select, split_dwi_images. destruct bvals as [bvals|].
  - destruct (take_inds _ _); [|split; discriminate].
    destruct (np_max _); [|split; discriminate].
    destruct (take_mask _ _); split; try discriminate; now intros [= <-].
  - destruct (np_argmax _) as [m|]; [|split; discriminate].
    destruct (img !! m); [|split; discriminate].
    destruct (list_remove m _) as [[|first rest]|]; try (split; discriminate).
    destruct (img !! first); split; try discriminate; now intros [= <-].
Qed.

(** When [split_dwi] returns, the files of the b-values and of the gradient
    directions are gone, whatever was done.  For an image with four
    dimensions the two images could be selected -- from the b-values when
    their file was there, from the mean intensities otherwise -- and the
    bundle has got the role ["B0"] with the fast affine registration to
    ["T2FS"], made last; a role ["B0"] of the parameter file is replaced.  For
    any other image the bundle is as it was. *)
Theorem split_dwi_outcome {V} `{Volumes V} (volumes : option (list V)) (bvals : res (list Q))
    (sd : list (string * gmap string pyval)) d dwi fs :
  sd_get sd "DWI" = Some d ->
  d !! "filename" = Some (PStr dwi) ->
  yields (split_dwi volumes bvals sd) fs
    (fun sd' fs' =>
       (rsplit_first ".nii" dwi +:+ ".bval" ∉ fs')
       /\ (rsplit_first ".nii" dwi +:+ ".bvec" ∉ fs')
       /\ match volumes with
          | Some img =>
              sd' = sd_set sd "B0" (b0_role (rsplit_first "DWI.nii" dwi +:+ "B0.nii.gz"))
              /\ (if bool_decide (rsplit_first ".nii" dwi +:+ ".bval" ∈ fs)
                  then exists b, bvals = Ok b /\ is_Some (split_dwi_images img (Some b))
                  else is_Some (split_dwi_images img None))
          | None => sd' = sd
          end).
Proof.
  intros Hd Hfn. unfold split_dwi.
  eapply yields_bind; [apply yields_quiet; [apply keeps_getitem | apply ensures_getitem]|].
  intros d0 fs0 [Hd0 ->]. assert (d0 = d) by congruence. subst d0.
  eapply yields_bind; [apply yields_quiet; [apply keeps_getfield | apply ensures_getfield]|].
  intros fn fs0 [Hfn0 ->]. assert (fn = PStr dwi) by congruence. subst fn.
  apply yields_ret_l. apply yields_nib_load. intros _.
  set (bval := rsplit_first ".nii" dwi +:+ ".bval").
  set (bvec := rsplit_first ".nii" dwi +:+ ".bvec").
  apply yields_bind with
    (Q := fun sd1 (_ : gset string) =>
            match volumes with
            | Some img =>
                sd1 = sd_set sd "B0" (b0_role (rsplit_first "DWI.nii" dwi +:+ "B0.nii.gz"))
                /\ (if bool_decide (bval ∈ fs)
                    then exists b, bvals = Ok b /\ is_Some (split_dwi_images img (Some b))
                    else is_Some (split_dwi_images img None))
            | None => sd1 = sd
            end).
  - destruct volumes as [img|].
    + apply yields_isfile.
      apply yields_bind with
        (Q := fun (_ : V * V) (_ : gset string) =>
                if bool_decide (bval ∈ fs)
                then exists b, bvals = Ok b /\ is_Some (split_dwi_images img (Some b))
                else is_Some (split_dwi_images img None)).
      * destruct (bool_decide (bval ∈ fs)); apply yields_info.
        -- destruct bvals as [b|e]; [|apply yields_raise].
           intros x fs' ev [= Hsel _ _]. exists b. split; [reflexivity|].
           exists x. now apply split_dwi_select_images.
        -- intros x fs' ev [= Hsel _ _]. exists x. now apply split_dwi_select_images.
      * intros images fs2 Hsel.
        apply yields_write. apply yields_write. now apply yields_ret.
    + apply yields_info. now apply yields_ret.
  - intros sd1 fs1 Hsd.
    apply yields_bind with (Q := fun (_ : unit) fs3 => fs3 = (fs1 ∖ {[bval]}) ∖ {[bvec]}).
    + cbn [for_each].
      apply yields_bind with (Q := fun (_ : unit) fs2 => fs2 = fs1 ∖ {[bval]}).
      * destruct (remove_if_present bval fs1) as [ev1 H1].
        eapply yields_run; [exact H1 | reflexivity].
      * intros u fs2 ->.
        apply yields_bind with (Q := fun (_ : unit) fs3 => fs3 = (fs1 ∖ {[bval]}) ∖ {[bvec]}).
        -- destruct (remove_if_present bvec (fs1 ∖ {[bval]})) as [ev2 H2].
           eapply yields_run; [exact H2 | reflexivity].
        -- intros u' fs3 ->. now apply yields_ret.
    + intros u fs3 ->. apply yields_ret. cbv beta.
      split; [|split; [|exact Hsd]].
      * intros Hin. apply elem_of_difference in Hin as [Hin _].
        apply elem_of_difference in Hin as [_ Hin]. apply Hin. now apply elem_of_singleton.
      * intros Hin. apply elem_of_difference in Hin as [_ Hin].
        apply Hin. now apply elem_of_singleton.
Qed.

Lemma split_outputs_present basepath (options : list (string * Z)) :
  forall acc fs,
    for_each options
      (fun present '(ser, _) =>
         let* p := isfile (path_join basepath (ser +:+ ".nii.gz")) in
         ret (present && p)) acc fs
    = (Ok (acc && forallb (fun o => bool_decide (split_expected basepath (fst o) ∈ fs)) options),
       fs, []).
Proof.
  induction options as [|[ser phase] l IH]; intros acc fs; cbn [for_each forallb fst].
  - now rewrite andb_true_r.
  - rewrite bind_assoc, bind_isfile, bind_ret_l, IH, andb_assoc. reflexivity.
Qed.

Lemma yields_assoc {A B C} (m : M A) (k : A -> M B) (h : B -> M C) fs
    (Q : C -> gset string -> Prop) :
  yields (let* x := m in let* y := k x in h y) fs Q -> yields (bind (bind m k) h) fs Q.
Proof. intros H c fs' ev. rewrite bind_assoc. apply H. Qed.

Lemma split_writes n nii_in series (options : list (string * Z)) :
  forall acc fs,
    yields
      (for_each options
         (fun outnames '(k, phase) =>
            let outname :=
              path_join (dirname nii_in)
                (split_first "_" (basename nii_in) +:+ "_" +:+ k +:+ ".nii.gz") in
            info ("- Splitting " +:+ series +:+ " phase " +:+ pretty phase +:+ " as " +:+ k);;
            (if phase_in_range n phase then ret tt else raise IndexError);;
            write_file outname;;
            ret (outnames ++ [(k, outname)])) acc) fs
      (fun outnames fs' =>
         outnames = acc ++ map (fun o => (fst o, split_outname nii_in (fst o))) options
         /\ fs' = list_to_set (map (fun o => split_outname nii_in (fst o)) options) ∪ fs
         /\ Forall (fun o => phase_in_range n (snd o) = true) options).
Proof.
  induction options as [|[k phase] l IH]; intros acc fs; cbn [for_each map fst snd].
  - apply yields_ret. rewrite app_nil_r, list_to_set_nil, (left_id_L ∅ (∪)). auto.
  - apply yields_assoc. apply yields_info. apply yields_assoc.
    destruct (phase_in_range n phase) eqn:Hrange; [|apply yields_raise_l].
    apply yields_ret_l. apply yields_assoc. apply yields_write. apply yields_ret_l.
    eapply yields_weaken; [apply IH|]. intros outnames fs' (-> & -> & Hall).
    split; [now rewrite <- app_assoc|]. split; [|now constructor].
    rewrite list_to_set_cons. fold (split_outname nii_in k).
    generalize (list_to_set (map (fun o : string * Z => split_outname nii_in (fst o)) l)
                : gset string).
    intros written.
    rewrite (assoc_L (∪) written), (comm_L (∪) written). reflexivity.
Qed.

(** [split_multiphase] looks for the outputs under [<basepath>/<k>.nii.gz],
    where [basepath] is the text after the last underscore of the input name,
    and, unless [repeat] is set, returns these names without any work when
    all of them exist.  Otherwise it loads the image, returns no name for an
    image without a fourth axis of two phases at least, and else saves the
    phase of each option under [<directory>/<prefix>_<k>.nii.gz], where
    [prefix] is the base name up to its first underscore: every phase index
    is then inside the axis, and the returned names are the saved ones. *)
Theorem split_multiphase_outputs phases nii_in (options : list (string * Z)) series repeat
    basepath fs :
  rsplit_last "_" nii_in = Some basepath ->
  yields (split_multiphase phases nii_in options series repeat) fs
    (fun outnames fs' =>
       if negb repeat
          && forallb (fun o => bool_decide (split_expected basepath (fst o) ∈ fs)) options
       then outnames = map (fun o => (fst o, split_expected basepath (fst o))) options
            /\ fs' = fs
       else nii_in ∈ fs
            /\ match phases with
               | Some n =>
                   if (n <? 2)%nat then outnames = [] /\ fs' = fs
                   else outnames = map (fun o => (fst o, split_outname nii_in (fst o))) options
                        /\ fs' = list_to_set
                                   (map (fun o => split_outname nii_in (fst o)) options) ∪ fs
                        /\ Forall (fun o => phase_in_range n (snd o) = true) options
               | None => outnames = [] /\ fs' = fs
               end).
Proof.
  intros Hbase. unfold split_multiphase. rewrite Hbase. apply yields_ret_l.
  apply yields_bind with
    (Q := fun all_present fs1 =>
            all_present
            = negb repeat
              && forallb (fun o => bool_decide (split_expected basepath (fst o) ∈ fs)) options
            /\ fs1 = fs).
  - destruct repeat; cbn [negb andb].
    + now apply yields_ret.
    + eapply yields_run; [apply split_outputs_present|]. now split.
  - intros all_present fs1 [-> ->].
    destruct (negb repeat && _).
    + apply yields_info. apply yields_ret. split; [|reflexivity].
      apply map_ext. now intros [k phase].
    + apply yields_nib_load. intros Hin. destruct phases as [n|].
      * destruct (n <? 2)%nat.
        -- apply yields_info. now apply yields_ret.
        -- eapply yields_weaken; [apply split_writes|].
           intros outnames fs' (-> & -> & Hall). auto.
      * apply yields_info. now apply yields_ret.
Qed.

(** ** The parameter files of the diffusion pipeline *)

Lemma all_present_loop (l : list string) :
  forall acc fs,
    for_each l (fun present f => let* p := isfile f in ret (present && p)) acc fs
    = (Ok (acc && forallb (fun f => bool_decide (f ∈ fs)) l), fs, []).
Proof.
  induction l as [|f l IH]; intros acc fs; cbn [for_each forallb].
  - now rewrite andb_true_r.
  - rewrite bind_assoc, bind_isfile, bind_ret_l, IH, andb_assoc. reflexivity.
Qed.

Lemma write_present (p : string) (fs : gset string) : p ∈ fs -> {[p]} ∪ fs = fs.
Proof. intros Hp. apply subseteq_union_1_L. now apply singleton_subseteq_l. Qed.

Lemma yields_write_present {B} (p : string) (k : unit -> M B) fs
    (Q : B -> gset string -> Prop) :
  p ∈ fs -> yields (k tt) fs Q -> yields (bind (write_file p) k) fs Q.
Proof. intros Hp H. apply yields_write. now rewrite write_present. Qed.

Lemma bvec_convert_yields bvecs_rows bvals_rows bvals bvecs fs :
  yields (bvec_convert bvecs_rows bvals_rows bvals bvecs) fs
    (fun r fs' =>
       (r = None /\ (bvals ∉ fs) /\ (bvecs ∉ fs) /\ fs' = fs)
       \/ (r = Some (eddy_files bvals bvecs)
           /\ bvals ∈ fs /\ bvecs ∈ fs
           /\ fs' = {[rsplit_first ".bval" bvals +:+ "_index.txt"]}
                    ∪ ({[rsplit_first ".bval" bvals +:+ "_acqp.txt"]} ∪ fs))).
Proof.
  unfold bvec_convert. apply yields_isfile. apply yields_isfile.
  destruct (negb _) eqn:Hany.
  - apply negb_true_iff, orb_false_iff in Hany as [Hb Hv].
    apply (bool_decide_eq_false_1 _) in Hb. apply (bool_decide_eq_false_1 _) in Hv.
    apply yields_ret. left. auto.
  - clear Hany.
    apply yields_bind with
      (Q := fun all_present fs1 =>
              all_present = forallb (fun f => bool_decide (f ∈ fs)) (eddy_files bvals bvecs)
              /\ fs1 = fs).
    + eapply yields_run; [apply all_present_loop|]. now split.
    + intros all_present fs1 [-> ->].
      destruct (forallb _ _) eqn:Hall.
      * apply yields_ret. right. cbn [eddy_files forallb] in Hall.
        apply andb_prop in Hall as [Hb Hall]. apply andb_prop in Hall as [Hv Hall].
        apply andb_prop in Hall as [Ha Hall]. apply andb_prop in Hall as [Hi _].
        apply (bool_decide_eq_true_1 _) in Hb, Hv, Ha, Hi.
        split; [reflexivity|]. split; [exact Hb|]. split; [exact Hv|].
        now rewrite (write_present _ _ Ha), (write_present _ _ Hi).
      * clear Hall. apply yields_info. apply yields_open_read. intros Hv.
        eapply yields_bind; [apply yields_quiet; [apply keeps_index_list | apply ensures_any]|].
        intros bvecs_row fs1 [_ ->].
        apply yields_bind with (Q := fun (_ : unit) fs1 => fs1 = fs).
        { destruct (1 <? length bvecs_row)%nat; [|now apply yields_ret].
          apply yields_write_last. now apply write_present. }
        intros _ fs1 ->. apply yields_open_read. intros Hb.
        eapply yields_bind; [apply yields_quiet; [apply keeps_index_list | apply ensures_any]|].
        intros bvals_row fs1 [_ ->].
        apply yields_bind with (Q := fun (_ : unit) fs1 => fs1 = fs).
        { destruct (1 <? length bvals_row)%nat; [|now apply yields_ret].
          apply yields_write_last. now apply write_present. }
        intros _ fs1 ->. apply yields_write.
        eapply yields_bind; [apply yields_quiet; [|apply ensures_any]|].
        { destruct (1 <? length bvals_row)%nat; [apply keeps_ret|].
          apply keeps_bind; [apply keeps_index_list | intros; apply keeps_ret]. }
        intros u fs1 [_ ->]. apply yields_write. apply yields_ret. right. auto.
Qed.

(** [bvec_convert] returns [None] only when neither the file of b-values nor
    the file of gradient directions exists, and then changes nothing.  It
    returns the four paths only when both files exist; the two parameter
    files [<stem>_acqp.txt] and [<stem>_index.txt] then exist, and no other
    file has been added or removed. *)
Theorem bvec_convert_needs_both_files bvecs_rows bvals_rows bvals bvecs fs r fs' ev :
  bvec_convert bvecs_rows bvals_rows bvals bvecs fs = (Ok r, fs', ev) ->
  (r = None /\ (bvals ∉ fs) /\ (bvecs ∉ fs) /\ fs' = fs)
  \/ (r = Some (eddy_files bvals bvecs)
      /\ bvals ∈ fs /\ bvecs ∈ fs
      /\ fs' = {[rsplit_first ".bval" bvals +:+ "_index.txt"]}
               ∪ ({[rsplit_first ".bval" bvals +:+ "_acqp.txt"]} ∪ fs)).
Proof. apply bvec_convert_yields. Qed.

(** With the file of b-values and without the file of gradient directions,
    [bvec_convert] does not return [None]: the check of the inputs asks for
    one of the two files only, and the reading of the missing file raises. *)
Theorem bvec_convert_missing_bvecs bvecs_rows bvals_rows bvals bvecs fs :
  bvals ∈ fs -> bvecs ∉ fs ->
  bvec_convert bvecs_rows bvals_rows bvals bvecs fs
  = (Raise (FileNotFoundError bvecs), fs,
     [Info "- Generating param files for FSL eddy using bval and bvec files from dicom conversion"]).
Proof.
  intros Hb Hv. unfold bvec_convert.
  rewrite bind_isfile, (bool_decide_eq_true_2 _ Hb).
  rewrite bind_isfile, (bool_decide_eq_false_2 _ Hv). cbn [orb negb].
  unfold bind at 1. rewrite all_present_loop. cbn [forallb andb].
  rewrite (bool_decide_eq_true_2 _ Hb), (bool_decide_eq_false_2 _ Hv). cbn [andb].
  rewrite bind_info. unfold open_read. rewrite !bind_assoc, bind_isfile.
  rewrite (bool_decide_eq_false_2 _ Hv). reflexivity.
Qed.

(** Once [bvec_convert] has returned the four paths, a second call returns
    the same paths and neither reads nor writes a file, whatever the two
    input files hold by then. *)
Theorem bvec_convert_idempotent bvecs_rows bvals_rows bvecs_rows' bvals_rows' bvals bvecs
    fs l fs' ev :
  bvec_convert bvecs_rows bvals_rows bvals bvecs fs = (Ok (Some l), fs', ev) ->
  bvec_convert bvecs_rows' bvals_rows' bvals bvecs fs' = (Ok (Some l), fs', []).
Proof.
  intros Hrun. apply bvec_convert_yields in Hrun.
  destruct Hrun as [[[=] _] | ([= ->] & Hb & Hv & ->)].
  set (acqp := rsplit_first ".bval" bvals +:+ "_acqp.txt").
  set (index := rsplit_first ".bval" bvals +:+ "_index.txt").
  assert (Hb' : bvals ∈ ({[index]} ∪ ({[acqp]} ∪ fs) : gset string)) by in_files.
  assert (Hv' : bvecs ∈ ({[index]} ∪ ({[acqp]} ∪ fs) : gset string)) by in_files.
  assert (Ha' : acqp ∈ ({[index]} ∪ ({[acqp]} ∪ fs) : gset string)) by in_files.
  assert (Hi' : index ∈ ({[index]} ∪ ({[acqp]} ∪ fs) : gset string)) by in_files.
  unfold bvec_convert.
  rewrite bind_isfile, (bool_decide_eq_true_2 _ Hb').
  rewrite bind_isfile, (bool_decide_eq_true_2 _ Hv'). cbn [orb negb].
  unfold bind at 1. rewrite all_present_loop. cbn [forallb andb].
  fold acqp index.
  rewrite (bool_decide_eq_true_2 _ Hb'), (bool_decide_eq_true_2 _ Hv'),
    (bool_decide_eq_true_2 _ Ha'), (bool_decide_eq_true_2 _ Hi').
  reflexivity.
Qed.

(** ** Example runs of the post-processors *)

Lemma run_eta {A} (r : res A * gset string * list event) (a : A) :
  value_of r = Some a -> r = (Ok a, files_of r, events_of r).
Proof. destruct r as [[[x|e] fs] ev]; [now intros [= ->] | discriminate]. Qed.

Lemma split_asl_outcome_witness :
  ("/data/7/7_ASL.nii.gz" ∈ files_of (split_asl false (Some 2%nat) asl_bundle asl_files)
   /\ bundle_after (split_asl false (Some 2%nat) asl_bundle asl_files)
      = sd_update asl_bundle "ASL" "reg_moving"
          (PStr (rsplit_first ".nii" "/data/7/7_ASL.nii.gz" +:+ "_anat.nii.gz")))
  \/ (("/data/7/7_ASL.nii.gz" ∉ files_of (split_asl false (Some 2%nat) asl_bundle asl_files))
      /\ bundle_after (split_asl false (Some 2%nat) asl_bundle asl_files)
         = sd_set asl_bundle "ASL"
             (<["filename" := PStr "None"]> (<["reg" := PBool false]> ∅))).
Proof.
  refine (split_asl_outcome false (Some 2%nat) asl_bundle
            (role [("filename", PStr "/data/7/7_ASL.nii.gz"); ("reg", PStr "affine")])
            "/data/7/7_ASL.nii.gz" asl_files _ _ _ _ _ (returned_eta _ _)).
  - reflexivity.
  - reflexivity.
  - vm_compute. reflexivity.
Defined.

Lemma split_asl_records_missing_anatomy_witness :
  split_asl true None asl_bundle asl_files
  = (Ok (sd_update asl_bundle "ASL" "reg_moving"
           (PStr (rsplit_first ".nii" "/data/7/7_ASL.nii.gz" +:+ "_anat.nii.gz"))),
     asl_files, [Info "- Splitting ASL using split_asl function"])
  /\ rsplit_first ".nii" "/data/7/7_ASL.nii.gz" +:+ "_anat.nii.gz" = "/data/7/7_ASL_anat.nii.gz".
Proof.
  split; [|vm_compute; reflexivity].
  apply (split_asl_records_missing_anatomy true asl_bundle
           (role [("filename", PStr "/data/7/7_ASL.nii.gz"); ("reg", PStr "affine")])
           "/data/7/7_ASL.nii.gz" asl_files).
  - reflexivity.
  - reflexivity.
  - apply (bool_decide_unpack _). vm_compute. exact I.
  - apply (bool_decide_unpack _). vm_compute. exact I.
  - apply (bool_decide_unpack _). vm_compute. exact I.
Defined.

Lemma split_dwi_outcome_witness :
  ("/data/7/7_DWI.bvec" ∈ dwi_files)
  /\ (rsplit_first ".nii" "/data/7/7_DWI.nii.gz" +:+ ".bval"
      ∉ files_of (split_dwi (H := voxel_volumes) (Some [5; 9; 2; 9]%Q) (Ok []) dwi_bundle
                    dwi_files))
  /\ (rsplit_first ".nii" "/data/7/7_DWI.nii.gz" +:+ ".bvec"
      ∉ files_of (split_dwi (H := voxel_volumes) (Some [5; 9; 2; 9]%Q) (Ok []) dwi_bundle
                    dwi_files))
  /\ bundle_after (split_dwi (H := voxel_volumes) (Some [5; 9; 2; 9]%Q) (Ok []) dwi_bundle
                     dwi_files)
     = sd_set dwi_bundle "B0"
         (b0_role (rsplit_first "DWI.nii" "/data/7/7_DWI.nii.gz" +:+ "B0.nii.gz")).
Proof.
  split; [apply (bool_decide_unpack _); vm_compute; exact I|].
  assert (Hrun : raised (split_dwi (H := voxel_volumes) (Some [5; 9; 2; 9]%Q) (Ok [])
                           dwi_bundle dwi_files) = None) by (vm_compute; reflexivity).
  destruct (split_dwi_outcome (H := voxel_volumes) (Some [5; 9; 2; 9]%Q) (Ok []) dwi_bundle
              (role [("filename", PStr "/data/7/7_DWI.nii.gz")])
              "/data/7/7_DWI.nii.gz" dwi_files eq_refl eq_refl _ _ _ (returned_eta _ Hrun))
    as (Hbval & Hbvec & Hsd & _).
  auto.
Defined.

Lemma split_multiphase_outputs_witness :
  ("/data/7/7_DCE.nii.gz" ∈ dce_files)
  /\ value_of (split_multiphase (Some 2%nat) "/data/7/7_DCE.nii.gz" dce_options "DCE" false
                 dce_files)
     = Some [("DCE1", "/data/7/7_DCE1.nii.gz"); ("DCE2", "/data/7/7_DCE2.nii.gz")]
  /\ map (fun o : string * Z => (fst o, split_expected "DCE.nii.gz" (fst o))) dce_options
     = [("DCE1", "DCE.nii.gz/DCE1.nii.gz"); ("DCE2", "DCE.nii.gz/DCE2.nii.gz")]
  /\ files_of (split_multiphase (Some 2%nat) "/data/7/7_DCE.nii.gz" dce_options "DCE" false
                 dce_files)
     = list_to_set (map (fun o : string * Z => split_outname "/data/7/7_DCE.nii.gz" (fst o))
                      dce_options) ∪ dce_files.
Proof.
  split; [apply (bool_decide_unpack _); vm_compute; exact I|].
  split; [vm_compute; reflexivity|]. split; [vm_compute; reflexivity|].
  refine (proj1 (proj2 (proj2
            (split_multiphase_outputs (Some 2%nat) "/data/7/7_DCE.nii.gz" dce_options "DCE"
               false "DCE.nii.gz" dce_files _ _ _ _ (run_eta _ _ _))))).
  - vm_compute. reflexivity.
  - vm_compute. reflexivity.
Defined.

Lemma bvec_convert_needs_both_files_witness :
  files_of (bvec_convert [["0"; "1"]] [["0"; "1000"]] "/data/7/7_DTI.bval" "/data/7/7_DTI.bvec"
              dti_files)
  = {["/data/7/7_DTI_index.txt"]} ∪ ({["/data/7/7_DTI_acqp.txt"]} ∪ dti_files).
Proof.
  assert (Hrun : value_of (bvec_convert [["0"; "1"]] [["0"; "1000"]] "/data/7/7_DTI.bval"
                             "/data/7/7_DTI.bvec" dti_files)
                 = Some (Some (eddy_files "/data/7/7_DTI.bval" "/data/7/7_DTI.bvec")))
    by (vm_compute; reflexivity).
  destruct (bvec_convert_needs_both_files [["0"; "1"]] [["0"; "1000"]]
              "/data/7/7_DTI.bval" "/data/7/7_DTI.bvec" dti_files
              (Some (eddy_files "/data/7/7_DTI.bval" "/data/7/7_DTI.bvec")) _ _
              (run_eta _ _ Hrun))
    as [[Hnone _] | (_ & _ & _ & Hfiles)].
  - discriminate Hnone.
  - exact Hfiles.
Defined.

Lemma bvec_convert_missing_bvecs_witness :
  bvec_convert [] [["0"; "1000"]] "/data/7/7_DTI.bval" "/data/7/7_DTI.bvec"
    {["/data/7/7_DTI.bval"]}
  = (Raise (FileNotFoundError "/data/7/7_DTI.bvec"), {["/data/7/7_DTI.bval"]},
     [Info "- Generating param files for FSL eddy using bval and bvec files from dicom conversion"]).
Proof.
  apply (bvec_convert_missing_bvecs [] [["0"; "1000"]] "/data/7/7_DTI.bval"
           "/data/7/7_DTI.bvec" {["/data/7/7_DTI.bval"]}).
  - apply (bool_decide_unpack _). vm_compute. exact I.
  - apply (bool_decide_unpack _). vm_compute. exact I.
Defined.

Lemma bvec_convert_idempotent_witness :
  bvec_convert [] []
    "/data/7/7_DTI.bval" "/data/7/7_DTI.bvec"
    (files_of (bvec_convert [["0"; "1"]] [["0"; "1000"]] "/data/7/7_DTI.bval"
                 "/data/7/7_DTI.bvec" dti_files))
  = (Ok (Some (eddy_files "/data/7/7_DTI.bval" "/data/7/7_DTI.bvec")),
     files_of (bvec_convert [["0"; "1"]] [["0"; "1000"]] "/data/7/7_DTI.bval"
                 "/data/7/7_DTI.bvec" dti_files), []).
Proof.
  assert (Hrun : value_of (bvec_convert [["0"; "1"]] [["0"; "1000"]] "/data/7/7_DTI.bval"
                             "/data/7/7_DTI.bvec" dti_files)
                 = Some (Some (eddy_files "/data/7/7_DTI.bval" "/data/7/7_DTI.bvec")))
    by (vm_compute; reflexivity).
  exact (bvec_convert_idempotent [["0"; "1"]] [["0"; "1000"]] [] []
           "/data/7/7_DTI.bval" "/data/7/7_DTI.bvec" dti_files _ _ _ (run_eta _ _ Hrun)).
Defined.
